(** * Aither output layer: a shallow embedding of [src/output.cpp]

    The development follows the C++ translation unit function by function:
    [Recombine], [SplitBlockNumber], [WriteCellCenter], [WriteFun],
    [WriteRes], [PrintHeaders], [PrintResiduals] and [WriteResiduals].

    Conventions of the embedding.
    - C++ [int] is [Z].  The loop counters over blocks, cells and equations
      stay below a bound that is itself an [int].  In [WriteRes], whose
      counters are computed from the iteration number and the output
      frequency, every result is checked against the range of a 32-bit
      [int]: signed overflow is undefined in C++ ([Undef]).
    - C++ [double] is an abstract type [D] with the operations the file uses
      (class [Double]); every statement about the layout of the output and the
      selection of values holds for any interpretation of these operations.
      Exact rational arithmetic ([Q]) is the executable instance.
    - [std::vector] indexed by an [int] is a [list] with a checked lookup
      ([vat]); an index outside the vector has no defined behaviour in C++ and
      is the outcome [Undef] (or [None] in the pure functions).
    - Output streams are the sequence of values written to them ([item]):
      a binary [write] of an [int] is [I32], of a [double] is [F64]; text
      insertions are [Txt], [Int] and [Num].
    - [exit] is the outcome [Exited code]; the stream contents at that point
      stay in the state. *)

From stdpp Require Import base list strings.
From Stdlib Require Import ZArith QArith Qabs Lia Lqa DecimalString.

Open Scope string_scope.
Open Scope list_scope.
Open Scope Z_scope.

(** ** Arithmetic on [double] *)

Class Double (D : Type) := {
  dadd : D -> D -> D;          (* operator+ *)
  dmul : D -> D -> D;          (* operator* *)
  ddiv : D -> D -> D;          (* operator/ *)
  dgtb : D -> D -> bool;       (* operator> *)
  dpow : D -> D -> D;          (* std::pow of <cmath> *)
  dofZ : Z -> D                (* conversion of an int, and integral literals *)
}.

(** Exact rationals.  [std::pow] is only called with the exponents 3.0 and
    4.0; other exponents are outside the model and give 0. *)
Definition Qpow (x y : Q) : Q :=
  if Pos.eqb (Qden y) 1 then Qpower x (Qnum y) else 0%Q.

Definition Qgtb (x y : Q) : bool :=
  negb (Qle_bool x y).

#[export] Instance Double_Q : Double Q := {|
  dadd := Qplus; dmul := Qmult; ddiv := Qdiv; dgtb := Qgtb;
  dpow := Qpow; dofZ := inject_Z
|}.

(** ** Value types used by the output layer *)

(** [vector3d<T>] *)
Record vector3d (T : Type) := Vector3d { vX : T; vY : T; vZ : T }.
Arguments Vector3d {T} _ _ _.
Arguments vX {T} _.
Arguments vY {T} _.
Arguments vZ {T} _.

(** [operator[]] of [vector3d]: component 0, 1 or 2 *)
Definition vcomp {T} (v : vector3d T) (n : Z) : T :=
  if decide (n = 0) then vX v else if decide (n = 1) then vY v else vZ v.

(** [vector3d<double> * double] *)
Definition vscale `{Double D} (v : vector3d D) (a : D) : vector3d D :=
  Vector3d (dmul (vX v) a) (dmul (vY v) a) (dmul (vZ v) a).

(** [tensor<double>], row by row *)
Record tensor (D : Type) := Tensor {
  tXX : D; tXY : D; tXZ : D;
  tYX : D; tYY : D; tYZ : D;
  tZX : D; tZY : D; tZZ : D
}.
Arguments tXX {D} _. Arguments tXY {D} _. Arguments tXZ {D} _.
Arguments tYX {D} _. Arguments tYY {D} _. Arguments tYZ {D} _.
Arguments tZX {D} _. Arguments tZY {D} _. Arguments tZZ {D} _.

(** [primVars]: the primitive state of one cell *)
Record primVars (D : Type) := PrimVars {
  Rho : D; U : D; V : D; W : D; P : D; Tke : D; Omega : D
}.
Arguments Rho {D} _. Arguments U {D} _. Arguments V {D} _.
Arguments W {D} _. Arguments P {D} _. Arguments Tke {D} _.
Arguments Omega {D} _.

Definition Velocity {D} (s : primVars D) : vector3d D :=
  Vector3d (U s) (V s) (W s).

(** [procBlock], through the accessors output.cpp calls.  The accessors
    taking ghosted indices ([State], [Center], [Temperature], ...) and those
    taking physical indices ([Dt], [VelGrad], [Residual], ...) are total
    functions of their indices. *)
Record procBlock (D : Type) := ProcBlock {
  NumI : Z;
  NumJ : Z;
  NumK : Z;
  NumGhosts : Z;
  IsTurbulent : bool;
  Rank : Z;
  GlobalPos : Z;
  Center : Z -> Z -> Z -> vector3d D;
  State : Z -> Z -> Z -> primVars D;
  Dt : Z -> Z -> Z -> D;
  Temperature : Z -> Z -> Z -> D;
  EddyViscosity : Z -> Z -> Z -> D;
  Viscosity : Z -> Z -> Z -> D;
  WallDist : Z -> Z -> Z -> D;
  VelGrad : Z -> Z -> Z -> tensor D;
  TempGrad : Z -> Z -> Z -> vector3d D;
  TkeGrad : Z -> Z -> Z -> vector3d D;
  OmegaGrad : Z -> Z -> Z -> vector3d D;
  Residual : Z -> Z -> Z -> Z -> D
}.
Arguments NumI {D} _. Arguments NumJ {D} _. Arguments NumK {D} _.
Arguments NumGhosts {D} _. Arguments IsTurbulent {D} _.
Arguments Rank {D} _. Arguments GlobalPos {D} _.
Arguments Center {D} _ _ _ _. Arguments State {D} _ _ _ _.
Arguments Dt {D} _ _ _ _. Arguments Temperature {D} _ _ _ _.
Arguments EddyViscosity {D} _ _ _ _. Arguments Viscosity {D} _ _ _ _.
Arguments WallDist {D} _ _ _ _. Arguments VelGrad {D} _ _ _ _.
Arguments TempGrad {D} _ _ _ _. Arguments TkeGrad {D} _ _ _ _.
Arguments OmegaGrad {D} _ _ _ _. Arguments Residual {D} _ _ _ _ _.

(** What the rest of the repository supplies to output.cpp and is not part
    of this translation unit: [procBlock::Join] (the lower block with the
    upper block fused to it along a direction; its auxiliary surface vector
    is discarded by the caller) and [vector3d::Mag]. *)
Class Collaborators (D : Type) := {
  Join : procBlock D -> procBlock D -> string -> procBlock D;
  Mag : vector3d D -> D
}.

(** ** Decomposition *)

(** One entry of the split history: [SplitHistBlkLower], [SplitHistBlkUpper],
    [SplitHistIndex] and [SplitHistDir] at one position. *)
Record split := Split {
  blkLower : Z;
  blkUpper : Z;
  splitIndex : Z;
  splitDir : string
}.

(** [decomposition]: the parent block of every block after decomposition
    ([ParentBlock]) and the split history, oldest split first. *)
Record decomposition := Decomposition {
  parBlock : list Z;
  splitHist : list split
}.

(** [v[z]] for a vector and an [int] index; [None] outside the vector. *)
Definition vat {A} (v : list A) (z : Z) : option A :=
  if decide (0 <= z) then v !! Z.to_nat z else None.

Definition NumSplits (decomp : decomposition) : Z :=
  Z.of_nat (length (splitHist decomp)).

Definition ParentBlock (decomp : decomposition) (a : Z) : option Z :=
  vat (parBlock decomp) a.

(** ** Recombine *)

(** One pass of the loop body: [recombVars[lower].Join(recombVars[upper],
    dir, dumSurf)] writes the joined block over the lower one, then
    [resize(size() - 1)] drops the last block of the vector. *)
Definition RecombineStep `{Collaborators D}
    (recombVars : list (procBlock D)) (s : split)
    : option (list (procBlock D)) :=
  lowerB ← vat recombVars (blkLower s);
  upperB ← vat recombVars (blkUpper s);
  let joined := <[Z.to_nat (blkLower s) := Join lowerB upperB (splitDir s)]>
                  recombVars in
  Some (take (length joined - 1)%nat joined).

(** The loop [for (ii = NumSplits() - 1; ii >= 0; ii--)] over the splits
    [hist] that are still to be undone; the last one goes first. *)
Fixpoint RecombineLoop `{Collaborators D}
    (revHist : list split) (recombVars : list (procBlock D))
    : option (list (procBlock D)) :=
  match revHist with
  | [] => Some recombVars
  | s :: older =>
      joined ← RecombineStep recombVars s;
      RecombineLoop older joined
  end.

Definition Recombine `{Collaborators D}
    (vars : list (procBlock D)) (decomp : decomposition)
    : option (list (procBlock D)) :=
  RecombineLoop (rev (splitHist decomp)) vars.

(** ** SplitBlockNumber *)

(** Lower and upper extents of a block: [pair<vector3d<int>, vector3d<int>>] *)
Definition extents : Type := vector3d Z * vector3d Z.

Definition initialLower : vector3d Z := Vector3d 0 0 0.

(** [splitBlk.first[n] += index] with n chosen by the direction string *)
Definition raiseLower (b : extents) (dir : string) (index : Z) : extents :=
  let lo := b.1 in
  if decide (dir = "i") then (Vector3d (vX lo + index) (vY lo) (vZ lo), b.2)
  else if decide (dir = "j") then (Vector3d (vX lo) (vY lo + index) (vZ lo), b.2)
  else (Vector3d (vX lo) (vY lo) (vZ lo + index), b.2).

(** The test of lines 858-863: the cell lies within the recorded extents,
    both ends included. *)
Definition inExtents (b : extents) (ii jj kk : Z) : bool :=
  bool_decide (ii <= vX b.2) && bool_decide (jj <= vY b.2) &&
  bool_decide (kk <= vZ b.2) && bool_decide (ii >= vX b.1) &&
  bool_decide (jj >= vY b.1) && bool_decide (kk >= vZ b.1).

(** The loop over the splits from split number [ss] on. *)
Fixpoint SplitBlockNumberLoop (parents : decomposition) (numVars : Z)
    (blk ii jj kk : Z) (hist : list split) (ss : Z)
    (blkDims : list extents) (ind : Z) : option Z :=
  match hist with
  | [] => Some ind
  | s :: later =>
      par ← ParentBlock parents (ss + numVars);
      if decide (blk ≠ par) then
        SplitBlockNumberLoop parents numVars blk ii jj kk later (ss + 1)
          (blkDims ++ [(initialLower, initialLower)]) ind
      else
        lowDims ← vat blkDims (blkLower s);
        let blkDims' :=
          blkDims ++ [raiseLower lowDims (splitDir s) (splitIndex s)] in
        upDims ← vat blkDims' (blkUpper s);
        if negb (inExtents upDims ii jj kk) then Some (blkLower s)
        else
          SplitBlockNumberLoop parents numVars blk ii jj kk later (ss + 1)
            blkDims' (blkUpper s)
  end.

Definition SplitBlockNumber {D} (vars : list (procBlock D))
    (decomp : decomposition) (blk ii jj kk : Z) : option Z :=
  let blkDims :=
    map (fun b => (initialLower, Vector3d (NumI b) (NumJ b) (NumK b))) vars in
  if decide (NumSplits decomp = 0) then Some blk
  else
    SplitBlockNumberLoop decomp (Z.of_nat (length vars)) blk ii jj kk
      (splitHist decomp) 0 blkDims blk.

(** ** Ownership of cells after decomposition *)

(** Modelled from the spec: the splitting side of the decomposition
    ([procBlock::Split] and [decomposition::Split] are not part of these
    sources).  "Splits carry: parent block id, lower child id (reuses parent
    id), upper child id (appended), axis, and split index."  A split at
    [index] along an axis leaves the lower child the cells below the cut and
    gives the upper child the cells from the cut on; extents are half-open
    boxes [lo, hi) in the index space of the recombined block, and the index
    is counted from the lower end of the block being split, as
    [SplitBlockNumber] and [Join] count it. *)
Definition cutPosition (b : extents) (dir : string) (index : Z) : Z :=
  if decide (dir = "i") then vX b.1 + index
  else if decide (dir = "j") then vY b.1 + index
  else vZ b.1 + index.

Definition setAxis (v : vector3d Z) (dir : string) (c : Z) : vector3d Z :=
  if decide (dir = "i") then Vector3d c (vY v) (vZ v)
  else if decide (dir = "j") then Vector3d (vX v) c (vZ v)
  else Vector3d (vX v) (vY v) c.

Definition lowerChild (b : extents) (dir : string) (index : Z) : extents :=
  (b.1, setAxis b.2 dir (cutPosition b dir index)).

Definition upperChild (b : extents) (dir : string) (index : Z) : extents :=
  (setAxis b.1 dir (cutPosition b dir index), b.2).

(** Modelled from the spec: one split applied to the vector of blocks (or of
    their extents).  The lower child reuses the id of the block that is cut,
    the upper child is appended, so its id is the length of the vector.
    [cut] gives the two children of a block. *)
Definition decomposeStep {B} (cut : B -> string -> Z -> B * B)
    (blocks : list B) (s : split) : option (list B) :=
  whole ← vat blocks (blkLower s);
  if decide (blkUpper s = Z.of_nat (length blocks)) then
    let children := cut whole (splitDir s) (splitIndex s) in
    Some (<[Z.to_nat (blkLower s) := children.1]> blocks ++ [children.2])
  else None.

(** Modelled from the spec: the splits of a history applied in historical
    order. *)
Fixpoint decompose {B} (cut : B -> string -> Z -> B * B)
    (hist : list split) (blocks : list B) : option (list B) :=
  match hist with
  | [] => Some blocks
  | s :: later =>
      blocks' ← decomposeStep cut blocks s; decompose cut later blocks'
  end.

Definition cutExtents (b : extents) (dir : string) (index : Z)
    : extents * extents :=
  (lowerChild b dir index, upperChild b dir index).

(** Extents of every block of the decomposed mesh, from the recombined
    blocks and the split history. *)
Definition splitExtents {D} (vars : list (procBlock D))
    (decomp : decomposition) : option (list extents) :=
  decompose cutExtents (splitHist decomp)
    (map (fun b => (initialLower, Vector3d (NumI b) (NumJ b) (NumK b))) vars).

Definition cellInside (b : extents) (ii jj kk : Z) : Prop :=
  vX b.1 <= ii < vX b.2 /\ vY b.1 <= jj < vY b.2 /\ vZ b.1 <= kk < vZ b.2.

(** Block [n] of the decomposed mesh owns cell (ii, jj, kk) of recombined
    block [blk]: it descends from [blk] and the cell lies in its extents. *)
Definition ownsCell (decomp : decomposition) (ext : list extents)
    (n blk ii jj kk : Z) : Prop :=
  ParentBlock decomp n = Some blk /\
  exists b, vat ext n = Some b /\ cellInside b ii jj kk.

(** Cell (ii, jj, kk) is an interior cell of block [blk] of [vars], in the
    physical (ghost-free) indices [SplitBlockNumber] is called with. *)
Definition interiorCell {D} (vars : list (procBlock D))
    (blk ii jj kk : Z) : Prop :=
  exists b, vat vars blk = Some b /\
    0 <= ii < NumI b /\ 0 <= jj < NumJ b /\ 0 <= kk < NumK b.

(** The parent table agrees with the history: an original block is its own
    parent, and split number [ss] appends block [numBlks + ss], whose parent
    is the parent of the block it was cut from. *)
Fixpoint parentsFollow (parents : list Z) (hist : list split) (n : Z) : Prop :=
  match hist with
  | [] => True
  | s :: later =>
      blkUpper s = n /\ 0 <= blkLower s < n /\
      vat parents n = vat parents (blkLower s) /\
      parentsFollow parents later (n + 1)
  end.

Definition consistentParents (numBlks : Z) (decomp : decomposition) : Prop :=
  (forall b, 0 <= b < numBlks -> ParentBlock decomp b = Some b) /\
  parentsFollow (parBlock decomp) (splitHist decomp) numBlks.

(** No block is cut twice: every split divides a block that has not been
    divided before (the newest block of its lineage). *)
Definition splitsNewest (decomp : decomposition) : Prop :=
  NoDup (map blkLower (splitHist decomp)).

(** What the walk of [SplitBlockNumber] keeps true when no block is cut
    twice: [ext] are the extents after the splits walked so far, [blkDims] is
    the table of the program, [ind] is the block of the lineage of [blk] that
    holds the cell, and no other block of the lineage is cut by the splits
    still to come. *)
Definition walkInvariant (decomp : decomposition) (blk ii jj kk : Z)
    (hist : list split) (ext blkDims : list extents) (ind : Z) : Prop :=
  length ext = length blkDims /\
  (forall n, 0 <= n < Z.of_nat (length ext) ->
             is_Some (ParentBlock decomp n)) /\
  ParentBlock decomp ind = Some blk /\
  (exists lo hi hiB,
      vat ext ind = Some (lo, hi) /\ vat blkDims ind = Some (lo, hiB) /\
      cellInside (lo, hi) ii jj kk /\
      ii <= vX hiB /\ jj <= vY hiB /\ kk <= vZ hiB) /\
  (forall n, ParentBlock decomp n = Some blk ->
             0 <= n < Z.of_nat (length ext) -> n <> ind ->
             n ∉ map blkLower hist).

(** A block of [ni] x [nj] x [nk] cells with two ghost layers and constant
    fields, for the worked examples. *)
Definition boxBlock (ni nj nk : Z) : procBlock Q :=
  let v := Vector3d 0%Q 0%Q 0%Q in
  {| NumI := ni; NumJ := nj; NumK := nk; NumGhosts := 2;
     IsTurbulent := false; Rank := 0; GlobalPos := 0;
     Center := fun _ _ _ => v;
     State := fun _ _ _ => PrimVars Q 1%Q 0%Q 0%Q 0%Q 1%Q 0%Q 0%Q;
     Dt := fun _ _ _ => 1%Q; Temperature := fun _ _ _ => 1%Q;
     EddyViscosity := fun _ _ _ => 0%Q; Viscosity := fun _ _ _ => 1%Q;
     WallDist := fun _ _ _ => 1%Q;
     VelGrad := fun _ _ _ => Tensor Q 0%Q 0%Q 0%Q 0%Q 0%Q 0%Q 0%Q 0%Q 0%Q;
     TempGrad := fun _ _ _ => v; TkeGrad := fun _ _ _ => v;
     OmegaGrad := fun _ _ _ => v; Residual := fun _ _ _ _ => 0%Q |}.

(** A 10 x 1 x 1 block cut at i = 5, whose lower half is then cut again at
    i = 2: blocks 0, 2 and 1 hold the cells [0,2), [2,5) and [5,10). *)
Definition lowerCutTwice : decomposition :=
  {| parBlock := [0; 0; 0];
     splitHist := [Split 0 1 5 "i"; Split 0 2 2 "i"] |}.

(** The same block cut at i = 5, whose upper half is then cut at its local
    i = 2: blocks 0, 1 and 2 hold the cells [0,5), [5,7) and [7,10). *)
Definition upperCutTwice : decomposition :=
  {| parBlock := [0; 0; 0];
     splitHist := [Split 0 1 5 "i"; Split 1 2 2 "i"] |}.

(** ** Streams, [exit] and undefined behaviour *)

(** What is inserted in a stream.  Binary [write] calls give [I32] and [F64];
    text insertions give [Txt] (a string), [Int] (an int), [Pad4] (an int
    after [setfill('0') << setw(4)]), [Num] (a double) and [Endl].  Field
    widths of the residual table and the digits of a printed double are not
    modelled. *)
Inductive item (D : Type) : Type :=
| I32 (z : Z)
| F64 (d : D)
| Txt (s : string)
| Int (z : Z)
| Pad4 (z : Z)
| Num (d : D)
| Endl.
Arguments I32 {D} z.
Arguments F64 {D} d.
Arguments Txt {D} s.
Arguments Int {D} z.
Arguments Pad4 {D} z.
Arguments Num {D} d.
Arguments Endl {D}.

Inductive stream := OutFile | Cout | Cerr.

Record world (D : Type) := World {
  outFile : list (item D);   (* the ofstream / ostream the function writes *)
  cout : list (item D);
  cerr : list (item D)
}.
Arguments World {D} _ _ _.
Arguments outFile {D} _.
Arguments cout {D} _.
Arguments cerr {D} _.

Definition emptyWorld {D} : world D := World [] [] [].

Inductive result (A : Type) : Type :=
| Ok (a : A)           (* the statement ran to its end *)
| Exited (code : Z)    (* exit(code) *)
| Undef.               (* no behaviour defined by the language *)
Arguments Ok {A} a.
Arguments Exited {A} code.
Arguments Undef {A}.

(** Programs over the streams. *)
Definition prog (D A : Type) : Type := world D -> result A * world D.

Definition pret {D A} (a : A) : prog D A := fun w => (Ok a, w).

Definition pbind {D A B} (m : prog D A) (f : A -> prog D B) : prog D B :=
  fun w =>
    match m w with
    | (Ok a, w') => f a w'
    | (Exited c, w') => (Exited c, w')
    | (Undef, w') => (Undef, w')
    end.

Declare Scope prog_scope.
Delimit Scope prog_scope with prog.
Notation "x <~ m ;; k" := (pbind m (fun x => k))
  (at level 100, m at next level, right associativity) : prog_scope.
Notation "m ;; k" := (pbind m (fun _ => k))
  (at level 100, right associativity) : prog_scope.
Open Scope prog_scope.

Definition exit {D A} (code : Z) : prog D A := fun w => (Exited code, w).

Definition undef {D A} : prog D A := fun w => (Undef, w).

Definition defined {D A} (o : option A) : prog D A :=
  match o with Some a => pret a | None => undef end.

(** [os << x] and [os.write(x)] *)
Definition put {D} (os : stream) (x : item D) : prog D unit :=
  fun w =>
    (Ok tt,
     match os with
     | OutFile => World (outFile w ++ [x]) (cout w) (cerr w)
     | Cout => World (outFile w) (cout w ++ [x]) (cerr w)
     | Cerr => World (outFile w) (cout w) (cerr w ++ [x])
     end).

(** [for (x : xs) body], threading the variables the body assigns *)
Fixpoint forEach {D S X} (xs : list X) (body : X -> S -> prog D S) (s : S)
    : prog D S :=
  match xs with
  | [] => pret s
  | x :: rest => s' <~ body x s ;; forEach rest body s'
  end.

(** [for (x : xs) body] for a body that keeps no variables *)
Definition forEach_ {D X} (xs : list X) (body : X -> prog D unit)
    : prog D unit :=
  forEach xs (fun x _ => body x) tt.

(** The values of [ii] in [for (ii = lo; ii < lo + n; ii++)] *)
Definition rangeFrom (lo n : Z) : list Z :=
  map (fun p => lo + Z.of_nat p) (seq 0 (Z.to_nat n)).

Definition range (n : Z) : list Z := rangeFrom 0 n.

(** [EXIT_FAILURE] of <cstdlib> *)
Definition EXIT_FAILURE : Z := 1.

(** [std::to_string(int)] *)
Definition to_string (z : Z) : string :=
  NilZero.string_of_int (Z.to_int z).

(** ** Inputs of the writers *)

(** [input], through the accessors output.cpp calls.  [OutputVariables] is
    the set of requested names in its iteration order. *)
Module input.
Record t (D : Type) := Make {
  SimNameRoot : string;
  PRef : D;
  RRef : D;
  LRef : D;
  TRef : D;
  OutputVariables : list string;
  NumVarsOutput : Z;
  OutputFrequency : Z;
  Dt : D;
  CFL : D;
  IsTurbulent : bool
}.
Arguments SimNameRoot {D} _. Arguments PRef {D} _. Arguments RRef {D} _.
Arguments LRef {D} _. Arguments TRef {D} _.
Arguments OutputVariables {D} _. Arguments NumVarsOutput {D} _.
Arguments OutputFrequency {D} _. Arguments Dt {D} _. Arguments CFL {D} _.
Arguments IsTurbulent {D} _.
End input.

(** [idealGas]: the speed of sound from pressure and density *)
Record idealGas (D : Type) := IdealGas { SoS : D -> D -> D }.
Arguments SoS {D} _ _ _.

(** [sutherland]: the reference viscosity *)
Record sutherland (D : Type) := Sutherland { MuRef : D }.
Arguments MuRef {D} _.

(** ** WriteCellCenter *)

Definition WriteCellCenter `{Double D} `{Collaborators D}
    (gridName : string) (vars : list (procBlock D))
    (decomp : decomposition) (LRef : D) (opens : bool) : prog D unit :=
  recombVars <~ defined (Recombine vars decomp) ;;
  let fEnd := "_center" in
  let fPostfix := ".xyz" in
  let writeName := gridName +:+ fEnd +:+ fPostfix in
  (if negb opens then
     put Cerr (Txt "ERROR: Grid file ") ;; put Cerr (Txt writeName) ;;
     put Cerr (Txt " did not open correctly!!!") ;; put Cerr Endl ;;
     exit EXIT_FAILURE
   else pret tt) ;;
  let numBlks := Z.of_nat (length recombVars) in
  put OutFile (I32 numBlks) ;;
  forEach_ (range numBlks) (fun ll =>
    b <~ defined (vat recombVars ll) ;;
    put OutFile (I32 (NumI b)) ;;
    put OutFile (I32 (NumJ b)) ;;
    put OutFile (I32 (NumK b))) ;;
  forEach_ (range numBlks) (fun ll =>
    b <~ defined (vat recombVars ll) ;;
    let maxi := NumI b in
    let maxj := NumJ b in
    let maxk := NumK b in
    forEach_ (range 3) (fun nn =>
      forEach_ (rangeFrom (NumGhosts b) maxk) (fun kk =>
        forEach_ (rangeFrom (NumGhosts b) maxj) (fun jj =>
          forEach_ (rangeFrom (NumGhosts b) maxi) (fun ii =>
            let dumVec := vscale (Center b ii jj kk) LRef in
            let dumDouble := vcomp dumVec nn in
            put OutFile (F64 dumDouble)))))).

(** ** WriteFun *)

(** [multiArray3d<double> dumArr(NumI, NumJ, NumK)], read and assigned
    through [operator()(ii, jj, kk)] *)
Definition array3 (D : Type) : Type := Z -> Z -> Z -> D.

Definition assign {D} (a : array3 D) (ii jj kk : Z) (v : D) : array3 D :=
  fun i j k => if decide (i = ii /\ j = jj /\ k = kk) then v else a i j k.

(** The triple loop of every branch: [dumArr(ip, jp, kp) = value] for kp, jp
    and ip over the physical cells, ip innermost. *)
Definition fillCells {D} (b : procBlock D) (value : Z -> Z -> Z -> prog D D)
    (dumArr : array3 D) : prog D (array3 D) :=
  forEach (range (NumK b)) (fun kp a =>
    forEach (range (NumJ b)) (fun jp a =>
      forEach (range (NumI b)) (fun ip a =>
        v <~ value ip jp kp ;; pret (assign a ip jp kp v)) a) a) dumArr.

(** The loops that carry a ghosted index next to the physical one:
    [kg] starts at [NumGhosts()] and advances with [kp]. *)
Definition ghosted {D A} (b : procBlock D) (f : Z -> Z -> Z -> A)
    : Z -> Z -> Z -> A :=
  fun ip jp kp => f (NumGhosts b + ip) (NumGhosts b + jp) (NumGhosts b + kp).

(** [var.find(sub) != string::npos] *)
Definition contains (var sub : string) : bool :=
  match String.index 0 sub var with Some _ => true | None => false end.

Section WriteFun.
Context `{Double D} `{Collaborators D}.
Variable vars : list (procBlock D).
Variable eqnState : idealGas D.
Variable suth : sutherland D.
Variable decomp : decomposition.
Variable inp : input.t D.

(** Lines 173-548: the chain of comparisons on [var].  Every branch runs the
    same triple loop around its own expression; [nondimensional] gives the
    expression of the branch taken, as a function of the physical indices of
    the cell, and [None] when the chain reaches its final [else].  [b] is
    block number [ll] of [recombVars]. *)
Definition nondimensional (recombVars : list (procBlock D)) (ll : Z)
    (b : procBlock D) (var : string) : option (Z -> Z -> Z -> option D) :=
  let cell (f : Z -> Z -> Z -> D) := Some (fun i j k => Some (f i j k)) in
  let splitBlock (f : procBlock D -> Z) := Some (fun ii jj kk =>
    n ← SplitBlockNumber recombVars decomp ll ii jj kk;
    sb ← vat vars n;
    Some (dofZ (f sb))) in
  if decide (var = "density") then
    cell (ghosted b (fun ig jg kg => Rho (State b ig jg kg)))
  else if decide (var = "vel_x") then
    cell (ghosted b (fun ig jg kg => U (State b ig jg kg)))
  else if decide (var = "vel_y") then
    cell (ghosted b (fun ig jg kg => V (State b ig jg kg)))
  else if decide (var = "vel_z") then
    cell (ghosted b (fun ig jg kg => W (State b ig jg kg)))
  else if decide (var = "pressure") then
    cell (ghosted b (fun ig jg kg => P (State b ig jg kg)))
  else if decide (var = "mach") then
    cell (ghosted b (fun ig jg kg =>
      let vel := Velocity (State b ig jg kg) in
      ddiv (Mag vel)
           (SoS eqnState (P (State b ig jg kg)) (Rho (State b ig jg kg)))))
  else if decide (var = "sos") then
    cell (ghosted b (fun ig jg kg =>
      SoS eqnState (P (State b ig jg kg)) (Rho (State b ig jg kg))))
  else if decide (var = "dt") then
    cell (fun ii jj kk => Dt b ii jj kk)
  else if decide (var = "temperature") then
    cell (ghosted b (fun ig jg kg => Temperature b ig jg kg))
  else if decide (var = "rank") then
    splitBlock Rank
  else if decide (var = "globalPosition") then
    splitBlock GlobalPos
  else if decide (var = "viscosityRatio") then
    cell (ghosted b (fun ig jg kg =>
      if IsTurbulent b
      then ddiv (EddyViscosity b ig jg kg) (Viscosity b ig jg kg)
      else dofZ 0))
  else if decide (var = "tke") then
    cell (ghosted b (fun ig jg kg => Tke (State b ig jg kg)))
  else if decide (var = "sdr") then
    cell (ghosted b (fun ig jg kg => Omega (State b ig jg kg)))
  else if decide (var = "wallDistance") then
    cell (ghosted b (fun ig jg kg => WallDist b ig jg kg))
  else if decide (var = "velGrad_ux") then
    cell (fun ii jj kk => tXX (VelGrad b ii jj kk))
  else if decide (var = "velGrad_vx") then
    cell (fun ii jj kk => tXY (VelGrad b ii jj kk))
  else if decide (var = "velGrad_wx") then
    cell (fun ii jj kk => tXZ (VelGrad b ii jj kk))
  else if decide (var = "velGrad_uy") then
    cell (fun ii jj kk => tYX (VelGrad b ii jj kk))
  else if decide (var = "velGrad_vy") then
    cell (fun ii jj kk => tYY (VelGrad b ii jj kk))
  else if decide (var = "velGrad_wy") then
    cell (fun ii jj kk => tYZ (VelGrad b ii jj kk))
  else if decide (var = "velGrad_uz") then
    cell (fun ii jj kk => tZX (VelGrad b ii jj kk))
  else if decide (var = "velGrad_vz") then
    cell (fun ii jj kk => tZY (VelGrad b ii jj kk))
  else if decide (var = "velGrad_wz") then
    cell (fun ii jj kk => tZZ (VelGrad b ii jj kk))
  else if decide (var = "tempGrad_x") then
    cell (fun ii jj kk => vX (TempGrad b ii jj kk))
  else if decide (var = "tempGrad_y") then
    cell (fun ii jj kk => vY (TempGrad b ii jj kk))
  else if decide (var = "tempGrad_z") then
    cell (fun ii jj kk => vZ (TempGrad b ii jj kk))
  else if decide (var = "tkeGrad_x") then
    cell (fun ii jj kk => vX (TkeGrad b ii jj kk))
  else if decide (var = "tkeGrad_y") then
    cell (fun ii jj kk => vY (TkeGrad b ii jj kk))
  else if decide (var = "tkeGrad_z") then
    cell (fun ii jj kk => vZ (TkeGrad b ii jj kk))
  else if decide (var = "sdrGrad_x") then
    cell (fun ii jj kk => vX (OmegaGrad b ii jj kk))
  else if decide (var = "sdrGrad_y") then
    cell (fun ii jj kk => vY (OmegaGrad b ii jj kk))
  else if decide (var = "sdrGrad_z") then
    cell (fun ii jj kk => vZ (OmegaGrad b ii jj kk))
  else if decide (var = "resid_mass") then
    cell (fun ii jj kk => Residual b ii jj kk 0)
  else if decide (var = "resid_mom_x") then
    cell (fun ii jj kk => Residual b ii jj kk 1)
  else if decide (var = "resid_mom_y") then
    cell (fun ii jj kk => Residual b ii jj kk 2)
  else if decide (var = "resid_mom_z") then
    cell (fun ii jj kk => Residual b ii jj kk 3)
  else if decide (var = "resid_energy") then
    cell (fun ii jj kk => Residual b ii jj kk 4)
  else if decide (var = "resid_tke") then
    cell (fun ii jj kk => Residual b ii jj kk 5)
  else if decide (var = "resid_sdr") then
    cell (fun ii jj kk => Residual b ii jj kk 6)
  else None.

(** Lines 173-553: store the nondimensional variable in [dumArr], or report
    the variable and exit when no branch is taken. *)
Definition storeVariable (recombVars : list (procBlock D)) (ll : Z)
    (b : procBlock D) (var : string) (dumArr : array3 D)
    : prog D (array3 D) :=
  match nondimensional recombVars ll b var with
  | Some value =>
      fillCells b (fun ip jp kp => defined (value ip jp kp)) dumArr
  | None =>
      put Cerr (Txt "ERROR: Variable ") ;; put Cerr (Txt var) ;;
      put Cerr (Txt " to write to function file is not defined!") ;;
      put Cerr Endl ;;
      exit EXIT_FAILURE
  end.

(** Lines 561-606: the value of [dumDouble] after the chain of scale
    factors, [refSoS] being the reference speed of sound. *)
Definition dimensionalize (refSoS : D) (var : string) (dumDouble : D) : D :=
  let times := dmul dumDouble in
  if decide (var = "density") then times (input.RRef inp)
  else if decide (var = "vel_x") then times refSoS
  else if decide (var = "vel_y") then times refSoS
  else if decide (var = "vel_z") then times refSoS
  else if decide (var = "pressure") then
    times (dmul (dmul (input.RRef inp) refSoS) refSoS)
  else if decide (var = "sos") then times refSoS
  else if decide (var = "dt") then
    ddiv dumDouble (dmul refSoS (input.LRef inp))
  else if decide (var = "temperature") then times (input.TRef inp)
  else if decide (var = "tke") then times (dmul refSoS refSoS)
  else if decide (var = "sdr") then
    times (ddiv (dmul (dmul refSoS refSoS) (input.RRef inp)) (MuRef suth))
  else if decide (var = "wallDistance") then times (input.LRef inp)
  else if contains var "velGrad_" then times (ddiv refSoS (input.LRef inp))
  else if contains var "tempGrad_" then
    times (ddiv (input.TRef inp) (input.LRef inp))
  else if contains var "tkeGrad_" then
    times (ddiv (dmul refSoS refSoS) (input.LRef inp))
  else if contains var "sdrGrad_" then
    times (ddiv (dmul (dmul refSoS refSoS) (input.RRef inp))
                (dmul (MuRef suth) (input.LRef inp)))
  else if decide (var = "resid_mass") then
    times (dmul (dmul (dmul (input.RRef inp) refSoS) (input.LRef inp))
                (input.LRef inp))
  else if contains var "resid_mom_" then
    times (dmul (dmul (dmul (dmul (input.RRef inp) refSoS) refSoS)
                      (input.LRef inp)) (input.LRef inp))
  else if decide (var = "resid_energy") then
    times (dmul (dmul (dmul (input.RRef inp) (dpow refSoS (dofZ 3)))
                      (input.LRef inp)) (input.LRef inp))
  else if decide (var = "resid_tke") then
    times (dmul (dmul (dmul (input.RRef inp) (dpow refSoS (dofZ 3)))
                      (input.LRef inp)) (input.LRef inp))
  else if decide (var = "resid_sdr") then
    times (ddiv (dmul (dmul (dmul (dmul (input.RRef inp) (input.RRef inp))
                                  (dpow refSoS (dofZ 4)))
                            (input.LRef inp)) (input.LRef inp))
                (MuRef suth))
  else dumDouble.

(** Lines 555-612: write the dimensional variable, kk outermost and ii
    innermost. *)
Definition writeVariable (refSoS : D) (b : procBlock D) (var : string)
    (dumArr : array3 D) : prog D unit :=
  forEach_ (range (NumK b)) (fun kk =>
    forEach_ (range (NumJ b)) (fun jj =>
      forEach_ (range (NumI b)) (fun ii =>
        let dumDouble := dumArr ii jj kk in
        put OutFile (F64 (dimensionalize refSoS var dumDouble))))).

(** The body of the loop over the output variables (lines 170-613): store
    the variable, then write it. *)
Definition outputVariable (refSoS : D) (recombVars : list (procBlock D))
    (ll : Z) (b : procBlock D) (var : string) (dumArr : array3 D)
    : prog D (array3 D) :=
  dumArr' <~ storeVariable recombVars ll b var dumArr ;;
  writeVariable refSoS b var dumArr' ;;
  pret dumArr'.

Definition WriteFun (solIter : Z) (opens : bool) : prog D unit :=
  let refSoS := SoS eqnState (input.PRef inp) (input.RRef inp) in
  recombVars <~ defined (Recombine vars decomp) ;;
  let fEnd := "_center" in
  let fPostfix := ".fun" in
  let writeName :=
    input.SimNameRoot inp +:+ "_" +:+ to_string solIter +:+ fEnd +:+ fPostfix in
  (if negb opens then
     put Cerr (Txt "ERROR: Function file ") ;; put Cerr (Txt writeName) ;;
     put Cerr (Txt " did not open correctly!!!") ;; put Cerr Endl ;;
     exit EXIT_FAILURE
   else pret tt) ;;
  let numBlks := Z.of_nat (length recombVars) in
  put OutFile (I32 numBlks) ;;
  let numVars := input.NumVarsOutput inp in
  forEach_ (range numBlks) (fun ll =>
    b <~ defined (vat recombVars ll) ;;
    put OutFile (I32 (NumI b)) ;;
    put OutFile (I32 (NumJ b)) ;;
    put OutFile (I32 (NumK b)) ;;
    put OutFile (I32 numVars)) ;;
  forEach_ (range numBlks) (fun ll =>
    b <~ defined (vat recombVars ll) ;;
    let dumArr : array3 D := fun _ _ _ => dofZ 0 in
    forEach (input.OutputVariables inp)
      (outputVariable refSoS recombVars ll b) dumArr ;;
    pret tt).

(** The physical cells of a block, i fastest and k slowest. *)
Definition cellOrder (b : procBlock D) : list (Z * Z * Z) :=
  flat_map (fun kk =>
    flat_map (fun jj =>
      map (fun ii => (ii, jj, kk)) (range (NumI b)))
      (range (NumJ b)))
    (range (NumK b)).

Definition blockHeader (b : procBlock D) : list (item D) :=
  [I32 (NumI b); I32 (NumJ b); I32 (NumK b); I32 (input.NumVarsOutput inp)].
End WriteFun.

(** The names the chain of comparisons of [WriteFun] knows. *)
Definition recognizedVariables : list string :=
  ["density"; "vel_x"; "vel_y"; "vel_z"; "pressure"; "mach"; "sos"; "dt";
   "temperature"; "rank"; "globalPosition"; "viscosityRatio"; "tke"; "sdr";
   "wallDistance";
   "velGrad_ux"; "velGrad_vx"; "velGrad_wx"; "velGrad_uy"; "velGrad_vy";
   "velGrad_wy"; "velGrad_uz"; "velGrad_vz"; "velGrad_wz";
   "tempGrad_x"; "tempGrad_y"; "tempGrad_z";
   "tkeGrad_x"; "tkeGrad_y"; "tkeGrad_z";
   "sdrGrad_x"; "sdrGrad_y"; "sdrGrad_z";
   "resid_mass"; "resid_mom_x"; "resid_mom_y"; "resid_mom_z";
   "resid_energy"; "resid_tke"; "resid_sdr"].

(** The world after [items] were inserted in stream [os]. *)
Definition emitted {D} (os : stream) (w : world D) (items : list (item D))
    : world D :=
  match os with
  | OutFile => World (outFile w ++ items) (cout w) (cerr w)
  | Cout => World (outFile w) (cout w ++ items) (cerr w)
  | Cerr => World (outFile w) (cout w) (cerr w ++ items)
  end.

(** ** WriteRes *)

(** [vector3d<int>::SetX], [SetY] and [SetZ] *)
Definition SetX {T} (v : vector3d T) (a : T) : vector3d T :=
  Vector3d a (vY v) (vZ v).
Definition SetY {T} (v : vector3d T) (a : T) : vector3d T :=
  Vector3d (vX v) a (vZ v).
Definition SetZ {T} (v : vector3d T) (a : T) : vector3d T :=
  Vector3d (vX v) (vY v) a.

(** [outputVars.find(name) != outputVars.end()] *)
Definition found (outputVars : list string) (name : string) : bool :=
  bool_decide (name ∈ outputVars).

(** The range of [int], 32 bits wide. *)
Definition INT_MAX : Z := 2147483647.
Definition INT_MIN : Z := -2147483648.

(** The result of an arithmetic operation on ints, whose mathematical value
    is [z]: outside the range of [int] the behaviour is undefined. *)
Definition int {D} (z : Z) : prog D Z :=
  if decide (INT_MIN <= z <= INT_MAX) then pret z else undef.

(** Integer division of two ints is undefined for a zero divisor and
    truncates towards zero otherwise. *)
Definition intDiv {D} (a b : Z) : prog D Z :=
  if decide (b = 0) then undef else int (Z.quot a b).

(** The line feed, ["\n"] in C++: the character of code 10. *)
Definition newline : string := String (Ascii.ascii_of_nat 10) "".

Definition WriteRes {D} (inp : input.t D) (iter : Z) (opens : bool)
    : prog D unit :=
  let fResPostfix := ".res" in
  let fEnd := "_center" in
  let resName := input.SimNameRoot inp +:+ fEnd +:+ fResPostfix in
  let outFreq := input.OutputFrequency inp in
  (if negb opens then
     put Cerr (Txt "ERROR: Results file ") ;; put Cerr (Txt resName) ;;
     put Cerr (Txt " did not open correctly!!!") ;; put Cerr Endl ;;
     exit EXIT_FAILURE
   else pret tt) ;;
  let fPostFix := ".fun" in
  let writeName := input.SimNameRoot inp +:+ "_*" +:+ fEnd +:+ fPostFix in
  let outputVars := input.OutputVariables inp in
  let hasVelVector :=
    found outputVars "vel_x" && found outputVars "vel_y" &&
    found outputVars "vel_z" in
  let numScalar := input.NumVarsOutput inp in
  let numVector := if hasVelVector then 1 else 0 in
  put OutFile (Int numScalar) ;; put OutFile (Txt "     ") ;;
  put OutFile (Int numVector) ;; put OutFile (Txt "     ") ;;
  put OutFile (Int 0) ;; put OutFile Endl ;;
  quotient <~ intDiv iter outFreq ;;
  numTime <~ int (quotient + 1) ;;
  put OutFile (Int numTime) ;; put OutFile Endl ;;
  forEach (range numTime) (fun ii '(solTime, count) =>
    solTime <~ int (solTime + outFreq) ;;
    (if decide (Z.rem count 10 = 0) then put OutFile Endl else pret tt) ;;
    put OutFile (Int solTime) ;; put OutFile (Txt "   ") ;;
    count <~ int (count + 1) ;;
    pret (solTime, count)) (0, 1) ;;
  put OutFile Endl ;;
  put OutFile (Int outFreq) ;; put OutFile (Txt "  ") ;;
  put OutFile (Int outFreq) ;; put OutFile Endl ;;
  scalars <~
    forEach outputVars (fun var '(vectorIndices, nvar) =>
      put OutFile (Txt writeName) ;; put OutFile (Txt " F ") ;;
      put OutFile (Pad4 nvar) ;; put OutFile (Txt " ") ;;
      put OutFile (Txt var) ;; put OutFile (Txt newline) ;;
      let vectorIndices :=
        if decide (var = "vel_x") then SetX vectorIndices nvar
        else if decide (var = "vel_y") then SetY vectorIndices nvar
        else if decide (var = "vel_z") then SetZ vectorIndices nvar
        else vectorIndices in
      nvar <~ int (nvar + 1) ;;
      pret (vectorIndices, nvar)) (Vector3d 0 0 0, 0) ;;
  let vectorIndices := scalars.1 in
  (if hasVelVector then
     put OutFile (Txt writeName) ;; put OutFile (Txt " F ") ;;
     put OutFile (Pad4 (vX vectorIndices)) ;; put OutFile (Txt " ") ;;
     put OutFile (Pad4 (vY vectorIndices)) ;; put OutFile (Txt " ") ;;
     put OutFile (Pad4 (vZ vectorIndices)) ;;
     put OutFile (Txt (" velocity" +:+ newline))
   else pret tt).

(** ** Residual reports *)

(** The macros of [macros.hpp] this file uses: the number of equations held
    by a [genArray] and the small number added before dividing. *)
Class Macros (D : Type) := {
  NUMVARS : Z;
  EPS : D
}.

(** [genArray]: [NUMVARS] doubles read with [operator[]]; the components
    from [NUMVARS] on do not exist in the program and are never touched. *)
Definition genArray (D : Type) : Type := Z -> D.

(** [residL2First[cc] = v] *)
Definition setComponent {D} (a : genArray D) (cc : Z) (v : D) : genArray D :=
  fun c => if decide (c = cc) then v else a c.

(** [resid]: the largest residual and where it is *)
Record resid (D : Type) := Resid {
  Linf : D; Block : Z; ILoc : Z; JLoc : Z; KLoc : Z; Eqn : Z
}.
Arguments Linf {D} _. Arguments Block {D} _. Arguments ILoc {D} _.
Arguments JLoc {D} _. Arguments KLoc {D} _. Arguments Eqn {D} _.

Definition PrintHeaders `{Double D} (inp : input.t D) (os : stream)
    : prog D unit :=
  put os (Txt "Step") ;; put os (Txt "NL-Iter") ;;
  (if dgtb (input.Dt inp) (dofZ 0) then put os (Txt "Time-Step")
   else if dgtb (input.CFL inp) (dofZ 0) then put os (Txt "CFL")
   else pret tt) ;;
  put os (Txt "Res-Mass") ;; put os (Txt "Res-Mom-X") ;;
  put os (Txt "Res-Mom-Y") ;; put os (Txt "Res-Mom-Z") ;;
  put os (Txt "Res-Energy") ;;
  (if input.IsTurbulent inp then
     put os (Txt "Res-Tke") ;; put os (Txt "Res-Omega")
   else pret tt) ;;
  put os (Txt "Max-Eqn") ;; put os (Txt "Max-Blk") ;;
  put os (Txt "Max-I") ;; put os (Txt "Max-J") ;; put os (Txt "Max-K") ;;
  put os (Txt "Max-Res") ;; put os (Txt "Res-Matrix") ;; put os Endl.

(** Lines 753-755, the body of the loop over the equations: the reference
    of equation [cc] is raised to the current residual when that is larger. *)
Definition raise `{Double D} (residL2 residL2First : genArray D) (cc : Z)
    : genArray D :=
  if dgtb (residL2 cc) (residL2First cc)
  then setComponent residL2First cc (residL2 cc)
  else residL2First.

(** Lines 747-757: the value of [residL2First] after the normalization is
    determined. *)
Definition normalization `{Double D} `{Macros D} (nn mm : Z)
    (residL2 residL2First : genArray D) : genArray D :=
  if decide (nn = 0 /\ mm = 0) then residL2
  else if decide (nn < 5 /\ mm = 0) then
    fold_left (raise residL2) (range NUMVARS) residL2First
  else residL2First.

(** [(residL2 + EPS) / (residL2First + EPS)], component by component *)
Definition resNormL2 `{Double D} `{Macros D}
    (residL2 residL2First : genArray D) : genArray D :=
  fun c => ddiv (dadd (residL2 c) EPS) (dadd (residL2First c) EPS).

(** [PrintResiduals] assigns [residL2First] through its reference; the new
    value is the result of the program. *)
Definition PrintResiduals `{Double D} `{Macros D} (inp : input.t D)
    (residL2First residL2 : genArray D) (residLinf : resid D)
    (matrixResid : D) (nn mm : Z) (os : stream) : prog D (genArray D) :=
  let residL2First := normalization nn mm residL2 residL2First in
  let resNorm := resNormL2 residL2 residL2First in
  put os (Int nn) ;; put os (Int mm) ;;
  (if dgtb (input.Dt inp) (dofZ 0) then put os (Num (input.Dt inp))
   else if dgtb (input.CFL inp) (dofZ 0) then put os (Num (input.CFL inp))
   else pret tt) ;;
  put os (Num (resNorm 0)) ;; put os (Num (resNorm 1)) ;;
  put os (Num (resNorm 2)) ;; put os (Num (resNorm 3)) ;;
  put os (Num (resNorm 4)) ;;
  (if input.IsTurbulent inp then
     put os (Num (resNorm 5)) ;; put os (Num (resNorm 6))
   else pret tt) ;;
  put os (Int (Eqn residLinf)) ;; put os (Int (Block residLinf)) ;;
  put os (Int (ILoc residLinf)) ;; put os (Int (JLoc residLinf)) ;;
  put os (Int (KLoc residLinf)) ;; put os (Num (Linf residLinf)) ;;
  put os (Num matrixResid) ;; put os Endl ;;
  pret residL2First.

(** [resFile] is the stream [OutFile]. *)
Definition WriteResiduals `{Double D} `{Macros D} (inp : input.t D)
    (residL2First residL2 : genArray D) (residLinf : resid D)
    (matrixResid : D) (nn mm : Z) : prog D (genArray D) :=
  (if decide (nn = 0 /\ mm = 0) then PrintHeaders inp OutFile else pret tt) ;;
  (if decide (Z.rem nn 100 = 0 /\ mm = 0) then PrintHeaders inp Cout
   else pret tt) ;;
  residL2First <~
    PrintResiduals inp residL2First residL2 residLinf matrixResid nn mm Cout ;;
  PrintResiduals inp residL2First residL2 residLinf matrixResid nn mm OutFile.

(** What the solver hands to the report at outer iteration [nn] and
    nonlinear iteration [mm]. *)
Record solverTrace (D : Type) := SolverTrace {
  traceL2 : Z -> Z -> genArray D;
  traceLinf : Z -> Z -> resid D;
  traceMatrix : Z -> Z -> D
}.
Arguments traceL2 {D} _ _ _. Arguments traceLinf {D} _ _.
Arguments traceMatrix {D} _ _ _.

(** Modelled from the spec: the time-integration driver, which is not part
    of these sources.  "Outer loop index n over physical (or pseudo-) steps;
    inner loop index m over nonlinear subiterations"; every subiteration
    ends with one residual report.  [nonlinear] is the number of
    subiterations per step. *)
Definition reportSubiterations `{Double D} `{Macros D} (inp : input.t D)
    (tr : solverTrace D) (nn count : Z) (residL2First : genArray D)
    : prog D (genArray D) :=
  forEach (range count) (fun mm first =>
    WriteResiduals inp first (traceL2 tr nn mm) (traceLinf tr nn mm)
      (traceMatrix tr nn mm) nn mm) residL2First.

Definition reportSteps `{Double D} `{Macros D} (inp : input.t D)
    (tr : solverTrace D) (nonlinear steps : Z) (residL2First : genArray D)
    : prog D (genArray D) :=
  forEach (range steps) (fun nn first =>
    reportSubiterations inp tr nn nonlinear first) residL2First.

(** The run up to and including the report of iteration ([nn], [mm]). *)
Definition reportUpTo `{Double D} `{Macros D} (inp : input.t D)
    (tr : solverTrace D) (nonlinear nn mm : Z) (residL2First : genArray D)
    : prog D (genArray D) :=
  first <~ reportSteps inp tr nonlinear nn residL2First ;;
  reportSubiterations inp tr nn (mm + 1) first.

(** *** One line of the residual table, following the spec

    "Step NL-Iter [Time-Step|CFL] Res-Mass Res-Mom-X Res-Mom-Y Res-Mom-Z
    Res-Energy [Res-Tke Res-Omega] Max-Eqn Max-Blk Max-I Max-J Max-K Max-Res
    Res-Matrix.  Values are normalized L2 residuals (L2 + eps)/(L2_ref + eps)." *)
Definition stepColumn `{Double D} (inp : input.t D) : list (item D) :=
  if dgtb (input.Dt inp) (dofZ 0) then [Num (input.Dt inp)]
  else if dgtb (input.CFL inp) (dofZ 0) then [Num (input.CFL inp)]
  else [].

(** The equations that have a column: five, and two more when turbulent. *)
Definition residualEquations {D} (inp : input.t D) : list Z :=
  [0; 1; 2; 3; 4] ++ (if input.IsTurbulent inp then [5; 6] else []).

Definition residualRow `{Double D} `{Macros D} (inp : input.t D) (nn mm : Z)
    (residL2 reference : genArray D) (residLinf : resid D) (matrixResid : D)
    : list (item D) :=
  [Int nn; Int mm] ++ stepColumn inp
  ++ map (fun c => Num (ddiv (dadd (residL2 c) EPS) (dadd (reference c) EPS)))
         (residualEquations inp)
  ++ [Int (Eqn residLinf); Int (Block residLinf); Int (ILoc residLinf);
      Int (JLoc residLinf); Int (KLoc residLinf); Num (Linf residLinf);
      Num matrixResid; Endl].

(** Seven equations and a guard of 1e-30, for the worked examples. *)
#[export] Instance Macros_Q : Macros Q := {|
  NUMVARS := 7;
  EPS := (1 # 1000000000000000000000000000000)%Q
|}.

(** ** Blocks with uniform fields, for the worked examples

    Cutting such a block and joining the two parts only changes the sizes. *)
Definition resize {D} (b : procBlock D) (ni nj nk : Z) : procBlock D :=
  {| NumI := ni; NumJ := nj; NumK := nk; NumGhosts := NumGhosts b;
     IsTurbulent := IsTurbulent b; Rank := Rank b; GlobalPos := GlobalPos b;
     Center := Center b; State := State b; Dt := Dt b;
     Temperature := Temperature b; EddyViscosity := EddyViscosity b;
     Viscosity := Viscosity b; WallDist := WallDist b; VelGrad := VelGrad b;
     TempGrad := TempGrad b; TkeGrad := TkeGrad b; OmegaGrad := OmegaGrad b;
     Residual := Residual b |}.

Definition sizeJoin {D} (lower upper : procBlock D) (dir : string)
    : procBlock D :=
  if decide (dir = "i") then
    resize lower (NumI lower + NumI upper) (NumJ lower) (NumK lower)
  else if decide (dir = "j") then
    resize lower (NumI lower) (NumJ lower + NumJ upper) (NumK lower)
  else
    resize lower (NumI lower) (NumJ lower) (NumK lower + NumK upper).

Definition sizeCut {D} (b : procBlock D) (dir : string) (index : Z)
    : procBlock D * procBlock D :=
  if decide (dir = "i") then
    (resize b index (NumJ b) (NumK b),
     resize b (NumI b - index) (NumJ b) (NumK b))
  else if decide (dir = "j") then
    (resize b (NumI b) index (NumK b),
     resize b (NumI b) (NumJ b - index) (NumK b))
  else
    (resize b (NumI b) (NumJ b) index,
     resize b (NumI b) (NumJ b) (NumK b - index)).

(** The collaborators for the examples: the join of uniform blocks, and a
    magnitude that is exact for vectors along one coordinate axis. *)
#[export] Instance Collaborators_Q : Collaborators Q := {|
  Join := sizeJoin;
  Mag := fun v => (Qabs (vX v) + Qabs (vY v) + Qabs (vZ v))%Q
|}.

(** Inputs for the worked examples of the writers: a gas object that
    returns the speed of sound [a] at every state, no splits, and a request
    for one variable. *)
Definition gasWithSoS (a : Q) : idealGas Q := IdealGas Q (fun _ _ => a).

Definition noSplits (numBlks : nat) : decomposition :=
  {| parBlock := map Z.of_nat (seq 0 numBlks); splitHist := [] |}.

Definition requestOf (names : list string) (lRef : Q) : input.t Q :=
  {| input.SimNameRoot := "sim"; input.PRef := 1%Q; input.RRef := 1%Q;
     input.LRef := lRef; input.TRef := 1%Q;
     input.OutputVariables := names;
     input.NumVarsOutput := Z.of_nat (length names);
     input.OutputFrequency := 1; input.Dt := 0%Q; input.CFL := 1%Q;
     input.IsTurbulent := false |}.

(** Following the spec: "the first-iteration L2 (or its maximum over the
    first 5 outer iterations) is stored as L2_ref".  [reference] is, equation
    by equation, the largest of the L2 residuals of the first subiteration of
    the steps 0 .. [last]. *)
Definition maximumOfFirst `{Macros Q} (tr : solverTrace Q) (last : Z)
    (reference : genArray Q) : Prop :=
  forall c, 0 <= c < NUMVARS ->
    (exists n', 0 <= n' <= last /\ reference c = traceL2 tr n' 0 c) /\
    (forall n', 0 <= n' <= last -> (traceL2 tr n' 0 c <= reference c)%Q).

(** What is known of the reference before report number [m] of step [n]:
    before the first report of a step the maximum covers the steps before
    it, afterwards it covers the step too. *)
Definition beforeReport `{Macros Q} (tr : solverTrace Q) (n m : Z)
    (first : genArray Q) : Prop :=
  if decide (m = 0)
  then n = 0 \/ maximumOfFirst tr (Z.min (n - 1) 4) first
  else maximumOfFirst tr (Z.min n 4) first.

(** *** The layout of the cell-centre file, following the spec

    "Binary: numBlocks:int32; per block (Ni, Nj, Nk):int32 x 3 (cell counts,
    no ghosts); then per block, the raw x cell-center coordinates (all
    cells), then all y, then all z, each float64, dimensionalized by L." *)
Definition centerCoordinates `{Double D} (LRef : D) (b : procBlock D)
    (nn : Z) : list (item D) :=
  map (fun c : Z * Z * Z =>
         F64 (vcomp (vscale (Center b (NumGhosts b + c.1.1)
                               (NumGhosts b + c.1.2) (NumGhosts b + c.2))
                            LRef) nn))
      (cellOrder b).

Definition centerFileLayout `{Double D} (LRef : D)
    (recombVars : list (procBlock D)) : list (item D) :=
  [I32 (Z.of_nat (length recombVars))]
  ++ flat_map (fun b => [I32 (NumI b); I32 (NumJ b); I32 (NumK b)]) recombVars
  ++ flat_map (fun b => centerCoordinates LRef b 0
                        ++ centerCoordinates LRef b 1
                        ++ centerCoordinates LRef b 2) recombVars.

(** *** The scale factors of the output variables, following the spec

    "density (x rho_ref); vel_x/y/z, sos (x a_ref); pressure (x rho_ref
    a_ref^2); temperature (x T_ref); tke (x a_ref^2); sdr (x rho_ref a_ref^2
    / mu_ref); wallDistance (x L); velGrad_* (x a_ref / L); tempGrad_* (x
    T_ref / L); tkeGrad_* (x a_ref^2 / L); sdrGrad_* (x rho_ref a_ref^2 /
    (mu_ref L)); resid_mass (x rho_ref a_ref L^2); resid_mom_* (x rho_ref
    a_ref^2 L^2); resid_energy/tke (x rho_ref a_ref^3 L^2); resid_sdr (x
    rho_ref^2 a_ref^4 L^2 / mu_ref); rank; globalPosition; viscosityRatio."
    The products are written in the order the program evaluates them. *)
Definition scaleFamilies `{Double D} (suth : sutherland D) (inp : input.t D)
    (refSoS : D) : list (list string * D) :=
  let rRef := input.RRef inp in
  let lRef := input.LRef inp in
  let tRef := input.TRef inp in
  let muRef := MuRef suth in
  [ (["density"], rRef);
    (["vel_x"; "vel_y"; "vel_z"; "sos"], refSoS);
    (["pressure"], dmul (dmul rRef refSoS) refSoS);
    (["temperature"], tRef);
    (["tke"], dmul refSoS refSoS);
    (["sdr"], ddiv (dmul (dmul refSoS refSoS) rRef) muRef);
    (["wallDistance"], lRef);
    (["velGrad_ux"; "velGrad_vx"; "velGrad_wx"; "velGrad_uy"; "velGrad_vy";
      "velGrad_wy"; "velGrad_uz"; "velGrad_vz"; "velGrad_wz"],
     ddiv refSoS lRef);
    (["tempGrad_x"; "tempGrad_y"; "tempGrad_z"], ddiv tRef lRef);
    (["tkeGrad_x"; "tkeGrad_y"; "tkeGrad_z"],
     ddiv (dmul refSoS refSoS) lRef);
    (["sdrGrad_x"; "sdrGrad_y"; "sdrGrad_z"],
     ddiv (dmul (dmul refSoS refSoS) rRef) (dmul muRef lRef));
    (["resid_mass"], dmul (dmul (dmul rRef refSoS) lRef) lRef);
    (["resid_mom_x"; "resid_mom_y"; "resid_mom_z"],
     dmul (dmul (dmul (dmul rRef refSoS) refSoS) lRef) lRef);
    (["resid_energy"; "resid_tke"],
     dmul (dmul (dmul rRef (dpow refSoS (dofZ 3))) lRef) lRef);
    (["resid_sdr"],
     ddiv (dmul (dmul (dmul (dmul rRef rRef) (dpow refSoS (dofZ 4))) lRef)
                lRef) muRef) ].

(** The names written as stored. *)
Definition unscaledVariables : list string :=
  ["mach"; "rank"; "globalPosition"; "viscosityRatio"].

(** *** The values of the function file, following the spec

    "Binary: numBlocks:int32; per block (Ni, Nj, Nk, numVars):int32 x 4; then
    per block and per variable, Ni.Nj.Nk float64 values in i-fastest,
    k-slowest order, dimensionalized according to the variable's scale
    factor."  "Cells are indexed by (i,j,k); Interior(b) = [G,G+Ni) x
    [G,G+Nj) x [G,G+Nk)." *)

(** Interior cell [c] of a field that the block stores with its halo of
    [NumGhosts] ghost cells: the cell is at [NumGhosts] plus its interior
    index in each direction. *)
Definition atInterior {D A} (b : procBlock D) (f : Z -> Z -> Z -> A)
    (c : Z * Z * Z) : A :=
  f (NumGhosts b + c.1.1) (NumGhosts b + c.1.2) (NumGhosts b + c.2).

(** Interior cell [c] of a field that is stored for the interior cells
    only. *)
Definition atCell {A} (f : Z -> Z -> Z -> A) (c : Z * Z * Z) : A :=
  f c.1.1 c.1.2 c.2.

(** What each name of the table stands for at interior cell [c] of block
    number [ll] of the recombined mesh.  State, temperature, viscosities and
    wall distance have a halo; time step, gradients and residuals do not.
    "rank" and "globalPosition" are those of the block of the decomposed
    mesh that [SplitBlockNumber] names for the cell; they have no value when
    that block does not exist. *)
Definition outputQuantities `{Double D} `{Collaborators D}
    (vars : list (procBlock D)) (eqnState : idealGas D)
    (decomp : decomposition) (recombVars : list (procBlock D)) (ll : Z)
    (b : procBlock D) : list (string * (Z * Z * Z -> option D)) :=
  let state := atInterior b (State b) in
  let sound c := SoS eqnState (P (state c)) (Rho (state c)) in
  let ofOwner (f : procBlock D -> Z) (c : Z * Z * Z) :=
    n ← SplitBlockNumber recombVars decomp ll c.1.1 c.1.2 c.2;
    sb ← vat vars n;
    Some (dofZ (f sb)) in
  let velGrad := atCell (VelGrad b) in
  let tempGrad := atCell (TempGrad b) in
  let tkeGrad := atCell (TkeGrad b) in
  let sdrGrad := atCell (OmegaGrad b) in
  let resid (eqn : Z) (c : Z * Z * Z) := Residual b c.1.1 c.1.2 c.2 eqn in
  [ ("density", fun c => Some (Rho (state c)));
    ("vel_x", fun c => Some (U (state c)));
    ("vel_y", fun c => Some (V (state c)));
    ("vel_z", fun c => Some (W (state c)));
    ("pressure", fun c => Some (P (state c)));
    ("mach", fun c => Some (ddiv (Mag (Velocity (state c))) (sound c)));
    ("sos", fun c => Some (sound c));
    ("dt", fun c => Some (atCell (Dt b) c));
    ("temperature", fun c => Some (atInterior b (Temperature b) c));
    ("rank", ofOwner Rank);
    ("globalPosition", ofOwner GlobalPos);
    ("viscosityRatio", fun c =>
       Some (if IsTurbulent b
             then ddiv (atInterior b (EddyViscosity b) c)
                       (atInterior b (Viscosity b) c)
             else dofZ 0));
    ("tke", fun c => Some (Tke (state c)));
    ("sdr", fun c => Some (Omega (state c)));
    ("wallDistance", fun c => Some (atInterior b (WallDist b) c));
    ("velGrad_ux", fun c => Some (tXX (velGrad c)));
    ("velGrad_vx", fun c => Some (tXY (velGrad c)));
    ("velGrad_wx", fun c => Some (tXZ (velGrad c)));
    ("velGrad_uy", fun c => Some (tYX (velGrad c)));
    ("velGrad_vy", fun c => Some (tYY (velGrad c)));
    ("velGrad_wy", fun c => Some (tYZ (velGrad c)));
    ("velGrad_uz", fun c => Some (tZX (velGrad c)));
    ("velGrad_vz", fun c => Some (tZY (velGrad c)));
    ("velGrad_wz", fun c => Some (tZZ (velGrad c)));
    ("tempGrad_x", fun c => Some (vX (tempGrad c)));
    ("tempGrad_y", fun c => Some (vY (tempGrad c)));
    ("tempGrad_z", fun c => Some (vZ (tempGrad c)));
    ("tkeGrad_x", fun c => Some (vX (tkeGrad c)));
    ("tkeGrad_y", fun c => Some (vY (tkeGrad c)));
    ("tkeGrad_z", fun c => Some (vZ (tkeGrad c)));
    ("sdrGrad_x", fun c => Some (vX (sdrGrad c)));
    ("sdrGrad_y", fun c => Some (vY (sdrGrad c)));
    ("sdrGrad_z", fun c => Some (vZ (sdrGrad c)));
    ("resid_mass", fun c => Some (resid 0 c));
    ("resid_mom_x", fun c => Some (resid 1 c));
    ("resid_mom_y", fun c => Some (resid 2 c));
    ("resid_mom_z", fun c => Some (resid 3 c));
    ("resid_energy", fun c => Some (resid 4 c));
    ("resid_tke", fun c => Some (resid 5 c));
    ("resid_sdr", fun c => Some (resid 6 c)) ].

(** The entry of a name in a table. *)
Fixpoint assoc {A} (name : string) (table : list (string * A)) : option A :=
  match table with
  | [] => None
  | (n, a) :: rest => if decide (name = n) then Some a else assoc name rest
  end.

(** The value written for a nondimensional value [x] of [var]: [x] times the
    factor of the family of [var]; [x] itself for the names that have no
    factor.  "dt" is the exception: the program divides it by the product of
    the reference speed of sound and the reference length. *)
Definition scaled `{Double D} (suth : sutherland D) (inp : input.t D)
    (refSoS : D) (var : string) (x : D) : D :=
  if decide (var = "dt") then ddiv x (dmul refSoS (input.LRef inp))
  else
    match List.find (fun family : list string * D =>
                       bool_decide (var ∈ family.1))
                    (scaleFamilies suth inp refSoS) with
    | Some family => dmul x family.2
    | None => x
    end.

(** The values of one variable over one block, i fastest and k slowest,
    when the variable is in the table and has a value in every cell. *)
Definition variableCells `{Double D} `{Collaborators D}
    (vars : list (procBlock D)) (eqnState : idealGas D) (suth : sutherland D)
    (decomp : decomposition) (inp : input.t D) (refSoS : D)
    (recombVars : list (procBlock D)) (ll : Z) (b : procBlock D)
    (var : string) : option (list (item D)) :=
  quantity ← assoc var (outputQuantities vars eqnState decomp recombVars ll b);
  mapM (fun c : Z * Z * Z =>
          v ← quantity c; Some (F64 (scaled suth inp refSoS var v)))
       (cellOrder b).

(** The values of the file: for every block, in order, and for every
    requested name, in order, the values of that variable over the block. *)
Definition functionFileValues `{Double D} `{Collaborators D}
    (vars : list (procBlock D)) (eqnState : idealGas D) (suth : sutherland D)
    (decomp : decomposition) (inp : input.t D)
    (recombVars : list (procBlock D))
    : option (list (list (list (item D)))) :=
  let refSoS := SoS eqnState (input.PRef inp) (input.RRef inp) in
  mapM (fun lb : Z * procBlock D =>
          mapM (variableCells vars eqnState suth decomp inp refSoS recombVars
                  lb.1 lb.2)
               (input.OutputVariables inp))
       (imap (fun n b => (Z.of_nat n, b)) recombVars).

(** The file around given values: the number of blocks, the header of every
    block, then the values. *)
Definition functionFile {D} (inp : input.t D)
    (recombVars : list (procBlock D)) (values : list (list (list (item D))))
    : list (item D) :=
  [I32 (Z.of_nat (length recombVars))]
  ++ flat_map (blockHeader inp) recombVars
  ++ concat (map (@List.concat _) values).

Definition functionFileLayout `{Double D} `{Collaborators D}
    (vars : list (procBlock D)) (eqnState : idealGas D) (suth : sutherland D)
    (decomp : decomposition) (inp : input.t D)
    (recombVars : list (procBlock D)) : option (list (item D)) :=
  functionFile inp recombVars <$>
    functionFileValues vars eqnState suth decomp inp recombVars.

(** A block of the worked examples whose fields change from cell to cell,
    so that a ghost cell and an interior cell differ: at index (i, j, k)
    the density, the x velocity and the eddy viscosity are i + 10 j + 100 k
    and the time step is one more; the viscosity is 3 everywhere; there are
    two layers of ghost cells. *)
Definition rampBlock (ni nj nk : Z) (turbulent : bool) : procBlock Q :=
  let v := Vector3d 0%Q 0%Q 0%Q in
  let ramp (i j k : Z) : Q := inject_Z (i + 10 * j + 100 * k) in
  {| NumI := ni; NumJ := nj; NumK := nk; NumGhosts := 2;
     IsTurbulent := turbulent; Rank := 0; GlobalPos := 0;
     Center := fun _ _ _ => v;
     State := fun i j k =>
       PrimVars Q (ramp i j k) (ramp i j k) 0%Q 0%Q 1%Q 0%Q 0%Q;
     Dt := fun i j k => (ramp i j k + 1)%Q;
     Temperature := fun _ _ _ => 1%Q;
     EddyViscosity := ramp; Viscosity := fun _ _ _ => 3%Q;
     WallDist := fun _ _ _ => 1%Q;
     VelGrad := fun _ _ _ => Tensor Q 0%Q 0%Q 0%Q 0%Q 0%Q 0%Q 0%Q 0%Q 0%Q;
     TempGrad := fun _ _ _ => v; TkeGrad := fun _ _ _ => v;
     OmegaGrad := fun _ _ _ => v; Residual := fun _ _ _ _ => 0%Q |}.

(** *** The line of column headers, following the spec *)
Definition headerRow `{Double D} (inp : input.t D) : list (item D) :=
  [Txt "Step"; Txt "NL-Iter"]
  ++ (if dgtb (input.Dt inp) (dofZ 0) then [Txt "Time-Step"]
      else if dgtb (input.CFL inp) (dofZ 0) then [Txt "CFL"] else [])
  ++ [Txt "Res-Mass"; Txt "Res-Mom-X"; Txt "Res-Mom-Y"; Txt "Res-Mom-Z";
      Txt "Res-Energy"]
  ++ (if input.IsTurbulent inp then [Txt "Res-Tke"; Txt "Res-Omega"] else [])
  ++ [Txt "Max-Eqn"; Txt "Max-Blk"; Txt "Max-I"; Txt "Max-J"; Txt "Max-K";
      Txt "Max-Res"; Txt "Res-Matrix"; Endl].

(** The shape of a split history for a mesh that had [n] blocks before the
    first split of the list: every split appends its upper child at the end
    of the vector and cuts a block that exists. *)
Fixpoint splitsAppend (hist : list split) (n : Z) : Prop :=
  match hist with
  | [] => True
  | s :: later =>
      blkUpper s = n /\ 0 <= blkLower s < n /\ splitsAppend later (n + 1)
  end.

(** *** The layout of the results index file, following the spec

    "Line 1: <numScalar> <numVector> 0.  Line 2: numTime.  Then a wrapped
    list of solution times.  Then <outFreq> <outFreq>.  Then one F line per
    scalar binding a variable to a zero-padded 4-digit index; optionally one
    F line binding three scalar indices to a named vector." *)

(** The list of solution times: the multiples of the output frequency from
    the first on, with a line break before every tenth entry. *)
Definition resTimes {D} (outFreq numTime : Z) : list (item D) :=
  flat_map (fun ii =>
              (if decide (Z.rem (ii + 1) 10 = 0) then [Endl] else [])
              ++ [Int ((ii + 1) * outFreq); Txt "   "])
           (range numTime).

(** One F line per scalar, numbered from 0 in the order of the request. *)
Definition resScalars {D} (writeName : string) (first : nat)
    (outputVars : list string) : list (item D) :=
  concat (imap (fun n var =>
                  [Txt writeName; Txt " F "; Pad4 (Z.of_nat (first + n));
                   Txt " "; Txt var; Txt newline])
               outputVars).

(** The position of a name in the request. *)
Fixpoint indexOf (name : string) (l : list string) : Z :=
  match l with
  | [] => 0
  | x :: rest => if decide (x = name) then 0 else 1 + indexOf name rest
  end.

Definition resFileLayout {D} (inp : input.t D) (iter : Z) : list (item D) :=
  let outFreq := input.OutputFrequency inp in
  let writeName := input.SimNameRoot inp +:+ "_*" +:+ "_center" +:+ ".fun" in
  let outputVars := input.OutputVariables inp in
  let hasVelVector :=
    found outputVars "vel_x" && found outputVars "vel_y" &&
    found outputVars "vel_z" in
  let numTime := Z.quot iter outFreq + 1 in
  [Int (input.NumVarsOutput inp); Txt "     ";
   Int (if hasVelVector then 1 else 0); Txt "     "; Int 0; Endl;
   Int numTime; Endl]
  ++ resTimes outFreq numTime
  ++ [Endl; Int outFreq; Txt "  "; Int outFreq; Endl]
  ++ resScalars writeName 0 outputVars
  ++ (if hasVelVector then
        [Txt writeName; Txt " F "; Pad4 (indexOf "vel_x" outputVars);
         Txt " "; Pad4 (indexOf "vel_y" outputVars); Txt " ";
         Pad4 (indexOf "vel_z" outputVars); Txt (" velocity" +:+ newline)]
      else []).

(** A request with a given output frequency, for the worked examples. *)
Definition requestEvery (names : list string) (outFreq : Z) : input.t Q :=
  {| input.SimNameRoot := "sim"; input.PRef := 1%Q; input.RRef := 1%Q;
     input.LRef := 1%Q; input.TRef := 1%Q;
     input.OutputVariables := names;
     input.NumVarsOutput := Z.of_nat (length names);
     input.OutputFrequency := outFreq; input.Dt := 0%Q; input.CFL := 1%Q;
     input.IsTurbulent := false |}.

(** The number of lines of a stream: one for every [std::endl]. *)
Definition isEndl {D} (x : item D) : bool :=
  match x with Endl => true | _ => false end.

Definition lines {D} (l : list (item D)) : Z :=
  Z.of_nat (length (List.filter isEndl l)).

(** The lines written before the report of step [n], subiteration [m], in a
    run that started from the streams [w0]: on the standard output the
    titles have been written once for every multiple of 100 met so far. *)
Definition linesBefore {D} (nonlinear : Z) (w0 : world D) (n m : Z)
    (w : world D) : Prop :=
  lines (outFile w) =
    lines (outFile w0) + (if decide (n = 0 /\ m = 0) then 0 else 1)
    + (n * nonlinear + m) /\
  lines (cout w) =
    lines (cout w0) + (if decide (m = 0) then (n + 99) / 100 else n / 100 + 1)
    + (n * nonlinear + m) /\
  cerr w = cerr w0.

(** * Properties *)

(** ** Vector lookups *)

Lemma vat_Some {A} (l : list A) (z : Z) (x : A) :
  vat l z = Some x <-> 0 <= z /\ l !! Z.to_nat z = Some x.
Proof.
  unfold vat. destruct (decide (0 <= z)); split.
  - intros Hl. split; [lia | exact Hl].
  - intros [_ Hl]. exact Hl.
  - discriminate.
  - intros [Hz _]. lia.
Qed.

Lemma vat_bound {A} (l : list A) (z : Z) (x : A) :
  vat l z = Some x -> 0 <= z < Z.of_nat (length l).
Proof.
  intros [Hz Hl]%vat_Some. apply lookup_lt_Some in Hl. lia.
Qed.

Lemma vat_in_range {A} (l : list A) (z : Z) :
  0 <= z < Z.of_nat (length l) -> exists x, vat l z = Some x.
Proof.
  intros Hz. destruct (lookup_lt_is_Some_2 l (Z.to_nat z)) as [x Hx]; [lia |].
  exists x. apply vat_Some. split; [lia | exact Hx].
Qed.

Lemma vat_app_l {A} (l k : list A) (z : Z) :
  z < Z.of_nat (length l) -> vat (l ++ k) z = vat l z.
Proof.
  intros Hz. unfold vat. destruct (decide (0 <= z)); [| reflexivity].
  apply lookup_app_l. lia.
Qed.

Lemma vat_app_end {A} (l : list A) (x : A) :
  vat (l ++ [x]) (Z.of_nat (length l)) = Some x.
Proof.
  apply vat_Some. split; [lia |].
  rewrite Nat2Z.id. rewrite lookup_app_r by lia.
  now rewrite Nat.sub_diag.
Qed.

Lemma vat_insert_eq {A} (l : list A) (z : Z) (x : A) :
  0 <= z < Z.of_nat (length l) -> vat (<[Z.to_nat z := x]> l) z = Some x.
Proof.
  intros Hz. apply vat_Some. split; [lia |].
  apply list_lookup_insert_eq. lia.
Qed.

Lemma vat_insert_ne {A} (l : list A) (z z' : Z) (x : A) :
  0 <= z -> z <> z' -> vat (<[Z.to_nat z := x]> l) z' = vat l z'.
Proof.
  intros Hz Hne. unfold vat. destruct (decide (0 <= z')); [| reflexivity].
  apply list_lookup_insert_ne. lia.
Qed.

(** ** The decomposition model *)

Lemma decomposeStep_length {B} (cut : B -> string -> Z -> B * B)
    (blocks blocks' : list B) (s : split) :
  decomposeStep cut blocks s = Some blocks' ->
  length blocks' = S (length blocks).
Proof.
  unfold decomposeStep. intros Hs.
  destruct (vat blocks (blkLower s)) as [whole |]; [| discriminate].
  simpl in Hs. destruct (decide _); [| discriminate].
  injection Hs as <-. rewrite length_app, length_insert. simpl. lia.
Qed.

(** A split leaves every block but the one it cuts as it was. *)
Lemma decomposeStep_other {B} (cut : B -> string -> Z -> B * B)
    (blocks blocks' : list B) (s : split) (n : Z) (x : B) :
  decomposeStep cut blocks s = Some blocks' ->
  n <> blkLower s -> vat blocks n = Some x -> vat blocks' n = Some x.
Proof.
  unfold decomposeStep. intros Hs Hne Hn.
  destruct (vat blocks (blkLower s)) as [whole |] eqn:Hw; [| discriminate].
  simpl in Hs. destruct (decide _); [| discriminate].
  injection Hs as <-.
  pose proof (vat_bound _ _ _ Hn) as Hb.
  pose proof (vat_bound _ _ _ Hw) as Hbw.
  rewrite vat_app_l by (rewrite length_insert; lia).
  rewrite vat_insert_ne by lia. exact Hn.
Qed.

Lemma decompose_other {B} (cut : B -> string -> Z -> B * B)
    (hist : list split) (blocks blocks' : list B) (n : Z) (x : B) :
  decompose cut hist blocks = Some blocks' ->
  n ∉ map blkLower hist -> vat blocks n = Some x -> vat blocks' n = Some x.
Proof.
  revert blocks. induction hist as [| s later IH]; intros blocks Hd Hn Hx.
  - simpl in Hd. injection Hd as <-. exact Hx.
  - simpl in Hd.
    destruct (decomposeStep cut blocks s) as [blocks1 |] eqn:Hs;
      [| discriminate].
    simpl in Hd. simpl in Hn. apply not_elem_of_cons in Hn as [Hne Hn].
    apply (IH blocks1); [exact Hd | exact Hn |].
    eapply decomposeStep_other; eauto.
Qed.

(** ** SplitBlockNumber *)

Lemma inExtents_true (b : extents) (ii jj kk : Z) :
  inExtents b ii jj kk = true <->
  (vX b.1 <= ii <= vX b.2) /\ (vY b.1 <= jj <= vY b.2) /\
  (vZ b.1 <= kk <= vZ b.2).
Proof.
  unfold inExtents. rewrite !andb_true_iff, !bool_decide_eq_true. lia.
Qed.

Lemma raiseLower_upperChild (lo hi hiB : vector3d Z) (dir : string) (index : Z) :
  raiseLower (lo, hiB) dir index = ((upperChild (lo, hi) dir index).1, hiB).
Proof.
  unfold raiseLower, upperChild, setAxis, cutPosition. simpl.
  repeat destruct (decide _); reflexivity.
Qed.

(** The cell passes the test on the upper child: it is in the upper child. *)
Lemma cell_in_upperChild (lo hi hiB : vector3d Z) (dir : string)
    (index ii jj kk : Z) :
  inExtents (raiseLower (lo, hiB) dir index) ii jj kk = true ->
  cellInside (lo, hi) ii jj kk ->
  cellInside (upperChild (lo, hi) dir index) ii jj kk.
Proof.
  rewrite raiseLower_upperChild with (hi := hi).
  rewrite inExtents_true. unfold cellInside. simpl.
  unfold setAxis, cutPosition. simpl.
  repeat destruct (decide _); simpl; lia.
Qed.

(** The cell fails the test on the upper child: it is in the lower child. *)
Lemma cell_in_lowerChild (lo hi hiB : vector3d Z) (dir : string)
    (index ii jj kk : Z) :
  inExtents (raiseLower (lo, hiB) dir index) ii jj kk = false ->
  cellInside (lo, hi) ii jj kk ->
  ii <= vX hiB -> jj <= vY hiB -> kk <= vZ hiB ->
  cellInside (lowerChild (lo, hi) dir index) ii jj kk.
Proof.
  intros Hout Hin Hi Hj Hk.
  apply not_true_iff_false in Hout. rewrite inExtents_true in Hout.
  revert Hout Hin. unfold cellInside, raiseLower, lowerChild, setAxis,
    cutPosition. simpl.
  repeat destruct (decide _); simpl; lia.
Qed.

Section SplitLocator.
Variable decomp : decomposition.
Variables numBlks blk ii jj kk : Z.

Lemma SplitBlockNumberLoop_owner (hist : list split) :
  forall (ss : Z) (ext blkDims extFinal : list extents) (ind : Z),
    Z.of_nat (length ext) = numBlks + ss ->
    parentsFollow (parBlock decomp) hist (numBlks + ss) ->
    NoDup (map blkLower hist) ->
    decompose cutExtents hist ext = Some extFinal ->
    walkInvariant decomp blk ii jj kk hist ext blkDims ind ->
    exists n,
      SplitBlockNumberLoop decomp numBlks blk ii jj kk hist ss blkDims ind
        = Some n /\
      ownsCell decomp extFinal n blk ii jj kk.
Proof.
  induction hist as [| s later IH];
    intros ss ext blkDims extFinal ind Hlen Hpar Hnd Hdec Hinv.
  - simpl in Hdec. injection Hdec as <-.
    destruct Hinv as (_ & _ & Hp & (lo & hi & hiB & He & _ & Hc & _) & _).
    exists ind. split; [reflexivity |]. split; [exact Hp |].
    exists (lo, hi). split; assumption.
  - simpl in Hpar. destruct Hpar as (Hup & Hlow & Hsame & Hpar).
    simpl in Hnd. apply NoDup_cons in Hnd as [Hfresh Hnd].
    simpl in Hdec.
    destruct (decomposeStep cutExtents ext s) as [ext1 |] eqn:Hstep;
      [| discriminate].
    simpl in Hdec.
    pose proof (decomposeStep_length _ _ _ _ Hstep) as Hlen1.
    pose proof Hstep as Hstep'.
    unfold decomposeStep in Hstep'.
    destruct (vat ext (blkLower s)) as [whole |] eqn:Hwhole; [| discriminate].
    simpl in Hstep'. destruct (decide _) as [_ |]; [| discriminate].
    injection Hstep' as Hext1.
    destruct Hinv as (HlenB & Hsome & Hp & (lo & hi & hiB & He & Hb & Hc & Hi & Hj & Hk) & Htip).
    destruct (Hsome (blkLower s)) as [par Hparl]; [lia |].
    assert (Hparu : ParentBlock decomp (ss + numBlks) = Some par).
    { unfold ParentBlock in *. rewrite Z.add_comm, Hsame. exact Hparl. }
    assert (Hsome1 : forall n, 0 <= n < Z.of_nat (length ext1) ->
                               is_Some (ParentBlock decomp n)).
    { intros n Hn. destruct (decide (n = numBlks + ss)) as [-> |].
      - rewrite Z.add_comm, Hparu. eauto.
      - apply Hsome. lia. }
    simpl. rewrite Hparu. simpl.
    destruct (decide (blk ≠ par)) as [Hforeign | Hmine].
    + (* a split of another lineage *)
      assert (Hnot : blkLower s <> ind) by congruence.
      apply (IH (ss + 1) ext1 _ extFinal ind);
        [lia | now rewrite Z.add_assoc | exact Hnd | exact Hdec |].
      split; [| split; [| split; [| split]]].
      * rewrite length_app. simpl. lia.
      * exact Hsome1.
      * exact Hp.
      * exists lo, hi, hiB.
        split; [| split; [| split; [exact Hc | tauto]]].
        -- eapply decomposeStep_other; eauto.
        -- rewrite vat_app_l; [exact Hb |].
           apply vat_bound in Hb. lia.
      * intros n Hn Hr Hne.
        destruct (decide (n = numBlks + ss)) as [-> |].
        -- rewrite Z.add_comm, Hparu in Hn. congruence.
        -- assert (Hs : n ∉ map blkLower (s :: later))
             by (apply Htip; [exact Hn | lia | exact Hne]).
           simpl in Hs. apply not_elem_of_cons in Hs. tauto.
    + (* a split of the lineage of [blk]: it cuts the block [ind] *)
      assert (Hblk : par = blk) by (destruct (decide (par = blk)); [assumption | exfalso; apply Hmine; congruence]).
      subst par.
      assert (Hind : blkLower s = ind).
      { destruct (decide (blkLower s = ind)) as [| Hne]; [assumption |].
        exfalso. apply (Htip (blkLower s)); [exact Hparl | lia | exact Hne |].
        simpl. apply elem_of_cons. now left. }
      rewrite Hind in *. clear Hind.
      rewrite He in Hwhole. injection Hwhole as <-.
      rewrite Hb. simpl.
      assert (HupB : blkUpper s = Z.of_nat (length blkDims)) by lia.
      rewrite HupB, vat_app_end. simpl.
      destruct (inExtents _ ii jj kk) eqn:Htest; simpl.
      * (* the cell is in the upper child: the walk goes on from it *)
        rewrite <- HupB.
        apply (IH (ss + 1) ext1 _ extFinal (blkUpper s));
          [lia | now rewrite Z.add_assoc | exact Hnd | exact Hdec |].
        split; [| split; [| split; [| split]]].
        -- rewrite length_app. simpl. lia.
        -- exact Hsome1.
        -- rewrite Hup, Z.add_comm. exact Hparu.
        -- exists (upperChild (lo, hi) (splitDir s) (splitIndex s)).1, hi, hiB.
           split; [| split; [| split; [| tauto]]].
           ++ rewrite <- Hext1.
              replace (blkUpper s) with
                (Z.of_nat (length (<[Z.to_nat ind :=
                   (cutExtents (lo, hi) (splitDir s) (splitIndex s)).1]> ext)))
                by (rewrite length_insert; lia).
              rewrite vat_app_end. reflexivity.
           ++ rewrite HupB, vat_app_end.
              now rewrite raiseLower_upperChild with (hi := hi).
           ++ exact (cell_in_upperChild lo hi hiB _ _ _ _ _ Htest Hc).
        -- intros n Hn Hr Hne.
           destruct (decide (n = ind)) as [-> | Hni]; [exact Hfresh |].
           assert (Hs : n ∉ map blkLower (s :: later))
             by (apply Htip; [exact Hn | lia | exact Hni]).
           simpl in Hs. apply not_elem_of_cons in Hs. tauto.
      * (* the cell is not in the upper child: the lower child holds it *)
        exists ind. split; [reflexivity |]. split; [exact Hp |].
        exists (lowerChild (lo, hi) (splitDir s) (splitIndex s)). split.
        -- apply (decompose_other cutExtents later ext1); [exact Hdec | exact Hfresh |].
           rewrite <- Hext1.
           rewrite vat_app_l by (rewrite length_insert; lia).
           apply vat_insert_eq. lia.
        -- eapply cell_in_lowerChild; eauto.
Qed.
End SplitLocator.

Lemma vat_map {A B} (f : A -> B) (l : list A) (z : Z) :
  vat (map f l) z = f <$> vat l z.
Proof.
  unfold vat. destruct (decide (0 <= z)); [| reflexivity].
  apply list_lookup_fmap.
Qed.

(** X15.  Where [SplitBlockNumber] is right.  For every recombined block
    [blk], every interior cell (ii, jj, kk) of it and every split history in
    which no block is cut twice (each split divides the newest block of its
    lineage), [SplitBlockNumber] returns a block that descends from [blk]
    and whose extents after the decomposition contain the cell. *)
Theorem SplitBlockNumber_owner_when_newest_is_split
    {D} (vars : list (procBlock D)) (decomp : decomposition)
    (ext : list extents) (blk ii jj kk : Z) :
  splitExtents vars decomp = Some ext ->
  consistentParents (Z.of_nat (length vars)) decomp ->
  splitsNewest decomp ->
  interiorCell vars blk ii jj kk ->
  exists n,
    SplitBlockNumber vars decomp blk ii jj kk = Some n /\
    ownsCell decomp ext n blk ii jj kk.
Proof.
  intros Hext [Hself Hfollow] Hnewest (b & Hb & Hi & Hj & Hk).
  pose proof (vat_bound _ _ _ Hb) as Hblk.
  set (table := map (fun b => (initialLower,
                               Vector3d (NumI b) (NumJ b) (NumK b))) vars).
  assert (Hown : exists n,
    SplitBlockNumberLoop decomp (Z.of_nat (length vars)) blk ii jj kk
      (splitHist decomp) 0 table blk = Some n /\
    ownsCell decomp ext n blk ii jj kk).
  { apply (SplitBlockNumberLoop_owner decomp (Z.of_nat (length vars))
             blk ii jj kk (splitHist decomp) 0 table table ext blk).
    - unfold table. rewrite length_map. lia.
    - now rewrite Z.add_0_r.
    - exact Hnewest.
    - exact Hext.
    - split; [reflexivity | split; [| split; [| split]]].
      + intros n Hn. unfold table in Hn. rewrite length_map in Hn.
        rewrite Hself by lia. eauto.
      + apply Hself. lia.
      + exists initialLower, (Vector3d (NumI b) (NumJ b) (NumK b)),
          (Vector3d (NumI b) (NumJ b) (NumK b)).
        unfold table. rewrite vat_map, Hb. unfold cellInside. simpl.
        repeat split; try reflexivity; lia.
      + intros n Hn Hr Hne. unfold table in Hr. rewrite length_map in Hr.
        rewrite Hself in Hn by lia. congruence. }
  unfold SplitBlockNumber. fold table.
  destruct (decide (NumSplits decomp = 0)) as [Hnone |]; [| exact Hown].
  unfold NumSplits in Hnone.
  destruct (splitHist decomp) as [| s later]; [exact Hown | simpl in Hnone; lia].
Qed.

Lemma SplitBlockNumber_owner_when_newest_is_split_witness :
  exists n,
    SplitBlockNumber [boxBlock 10 1 1] upperCutTwice 0 6 0 0 = Some n /\
    ownsCell upperCutTwice
      [(Vector3d 0 0 0, Vector3d 5 1 1); (Vector3d 5 0 0, Vector3d 7 1 1);
       (Vector3d 7 0 0, Vector3d 10 1 1)] n 0 6 0 0.
Proof.
  apply (SplitBlockNumber_owner_when_newest_is_split
           [boxBlock 10 1 1] upperCutTwice).
  - reflexivity.
  - split.
    + intros b Hb. assert (b = 0) as -> by (simpl in Hb; lia). reflexivity.
    + simpl. repeat split; lia.
  - unfold splitsNewest. simpl.
    apply NoDup_cons. split.
    + intros Hin. apply list_elem_of_singleton in Hin. discriminate.
    + apply NoDup_singleton.
  - exists (boxBlock 10 1 1). simpl. repeat split; lia.
Defined.

(** C1.  The code at an input where it does not do what the claim says:
    the lower child of a split is cut again.  The history [lowerCutTwice] is
    a valid decomposition of a 10 x 1 x 1 block into the blocks 0, 1 and 2
    of cells [0, 2), [5, 10) and [2, 5), and cell (3, 0, 0) is interior; the
    block returned, 0, does not hold the cell after the decomposition, block
    2 owns it.  [Recombine] undoes the same history: from the three blocks
    it gives back the one block. *)
Theorem SplitBlockNumber_lower_cut_twice_wrong_owner :
  let vars := [boxBlock 10 1 1] in
  let ext := [(Vector3d 0 0 0, Vector3d 2 1 1);
              (Vector3d 5 0 0, Vector3d 10 1 1);
              (Vector3d 2 0 0, Vector3d 5 1 1)] in
  splitExtents vars lowerCutTwice = Some ext /\
  consistentParents 1 lowerCutTwice /\
  interiorCell vars 0 3 0 0 /\
  SplitBlockNumber vars lowerCutTwice 0 3 0 0 = Some 0 /\
  ~ ownsCell lowerCutTwice ext 0 0 3 0 0 /\
  ownsCell lowerCutTwice ext 2 0 3 0 0 /\
  Recombine [resize (boxBlock 10 1 1) 2 1 1; resize (boxBlock 10 1 1) 5 1 1;
             resize (boxBlock 10 1 1) 3 1 1] lowerCutTwice = Some vars.
Proof.
  simpl. split; [reflexivity |]. split.
  { split.
    - intros b Hb. assert (b = 0) as -> by lia. reflexivity.
    - simpl. repeat split; lia. }
  split.
  { exists (boxBlock 10 1 1). simpl. repeat split; lia. }
  split; [reflexivity |]. split.
  - intros (_ & b & Hb & Hc). vm_compute in Hb. injection Hb as <-.
    unfold cellInside in Hc. simpl in Hc. lia.
  - split; [| reflexivity]. split; [reflexivity |].
    exists (Vector3d 2 0 0, Vector3d 5 1 1). split; [reflexivity |].
    unfold cellInside. simpl. lia.
Qed.

(** ** Recombine *)

Section RecombineFacts.
Context `{Collaborators D}.

(** One pass of the loop: the vector loses its last block, the lower block
    becomes the join and the other blocks stay. *)
Lemma RecombineStep_joins (blocks joined : list (procBlock D)) (s : split) :
  RecombineStep blocks s = Some joined ->
  S (length joined) = length blocks /\
  exists lowerB upperB,
    vat blocks (blkLower s) = Some lowerB /\
    vat blocks (blkUpper s) = Some upperB /\
    forall n, 0 <= n < Z.of_nat (length joined) ->
      vat joined n =
        if decide (n = blkLower s)
        then Some (Join lowerB upperB (splitDir s))
        else vat blocks n.
Proof.
  unfold RecombineStep. intros Hs.
  destruct (vat blocks (blkLower s)) as [lowerB |] eqn:Hl; [| discriminate].
  destruct (vat blocks (blkUpper s)) as [upperB |] eqn:Hu; [| discriminate].
  simpl in Hs. injection Hs as <-.
  pose proof (vat_bound _ _ _ Hl) as Hbl.
  rewrite length_take, !length_insert. split; [lia |].
  exists lowerB, upperB. split; [reflexivity | split; [reflexivity |]].
  intros n Hn.
  assert (Hlook : forall x : list (procBlock D),
            vat (take (length blocks - 1)%nat x) n = vat x n).
  { intros x. unfold vat. destruct (decide (0 <= n)); [| reflexivity].
    apply lookup_take_lt. lia. }
  rewrite Hlook. destruct (decide (n = blkLower s)) as [-> |].
  - apply vat_insert_eq. lia.
  - apply vat_insert_ne; lia.
Qed.

Lemma RecombineLoop_app (h1 h2 : list split) (blocks : list (procBlock D)) :
  RecombineLoop (h1 ++ h2) blocks =
  joined ← RecombineLoop h1 blocks; RecombineLoop h2 joined.
Proof.
  revert blocks. induction h1 as [| s h1 IH]; intros blocks; [reflexivity |].
  simpl. destruct (RecombineStep blocks s); simpl; [apply IH | reflexivity].
Qed.

Lemma RecombineLoop_length (hist : list split) :
  forall blocks joined : list (procBlock D),
    RecombineLoop hist blocks = Some joined ->
    (length joined + length hist = length blocks)%nat.
Proof.
  induction hist as [| s hist IH]; intros blocks joined Hr.
  - injection Hr as <-. simpl. lia.
  - simpl in Hr.
    destruct (RecombineStep blocks s) as [b1 |] eqn:Hs; [| discriminate].
    simpl in Hr. apply IH in Hr. apply RecombineStep_joins in Hs as [Hs _].
    simpl. lia.
Qed.

Variable cut : procBlock D -> string -> Z -> procBlock D * procBlock D.
Hypothesis Join_cut :
  forall b dir index, Join (cut b dir index).1 (cut b dir index).2 dir = b.

(** One pass of the loop undoes the split it is given, when that split was
    the last one applied. *)
Lemma RecombineStep_decomposeStep (blocks blocks' : list (procBlock D))
    (s : split) :
  decomposeStep cut blocks s = Some blocks' ->
  RecombineStep blocks' s = Some blocks.
Proof.
  unfold decomposeStep. intros Hs.
  destruct (vat blocks (blkLower s)) as [whole |] eqn:Hw; [| discriminate].
  simpl in Hs. destruct (decide _) as [Hup |]; [| discriminate].
  injection Hs as <-.
  pose proof (vat_bound _ _ _ Hw) as Hb.
  apply vat_Some in Hw as [_ Hw].
  unfold RecombineStep.
  rewrite (vat_app_l _ _ (blkLower s)) by (rewrite length_insert; lia).
  rewrite vat_insert_eq by lia. simpl.
  rewrite Hup.
  replace (Z.of_nat (length blocks)) with
    (Z.of_nat (length (<[Z.to_nat (blkLower s) :=
       (cut whole (splitDir s) (splitIndex s)).1]> blocks)))
    by (now rewrite length_insert).
  rewrite vat_app_end. simpl. rewrite Join_cut.
  rewrite insert_app_l by (rewrite length_insert; lia).
  rewrite list_insert_insert_eq, (list_insert_id _ _ _ Hw).
  rewrite length_app. simpl.
  replace (length blocks + 1 - 1)%nat with (length blocks) by lia.
  now rewrite take_app_length.
Qed.

Lemma RecombineLoop_decompose (hist : list split) :
  forall blocks blocks' : list (procBlock D),
    decompose cut hist blocks = Some blocks' ->
    RecombineLoop (rev hist) blocks' = Some blocks.
Proof.
  induction hist as [| s later IH]; intros blocks blocks' Hd.
  - injection Hd as <-. reflexivity.
  - simpl in Hd.
    destruct (decomposeStep cut blocks s) as [b1 |] eqn:Hs; [| discriminate].
    simpl in Hd. simpl. rewrite RecombineLoop_app, (IH _ _ Hd). simpl.
    now rewrite (RecombineStep_decomposeStep _ _ _ Hs).
Qed.

(** C2.  [Recombine] undoes the recorded splits from the last recorded to
    the first: the last split of the history is undone first; undoing a
    split puts the join of the lower and the upper child, along the
    recorded direction, in the place of the lower child and drops one block
    from the vector; and for blocks [vars] obtained from [original] by the
    recorded splits, the result is [original], which has as many blocks as
    [vars] less the number of splits. *)
Theorem Recombine_undoes_splits_last_first
    (original vars : list (procBlock D)) (decomp : decomposition) :
  decompose cut (splitHist decomp) original = Some vars ->
  (forall parents earlier last (blocks : list (procBlock D)),
      Recombine blocks (Decomposition parents (earlier ++ [last])) =
      joined ← RecombineStep blocks last;
      Recombine joined (Decomposition parents earlier)) /\
  (forall (blocks joined : list (procBlock D)) (s : split),
      RecombineStep blocks s = Some joined ->
      S (length joined) = length blocks /\
      exists lowerB upperB,
        vat blocks (blkLower s) = Some lowerB /\
        vat blocks (blkUpper s) = Some upperB /\
        forall n, 0 <= n < Z.of_nat (length joined) ->
          vat joined n =
            if decide (n = blkLower s)
            then Some (Join lowerB upperB (splitDir s))
            else vat blocks n) /\
  Recombine vars decomp = Some original /\
  Z.of_nat (length original) = Z.of_nat (length vars) - NumSplits decomp.
Proof.
  intros Hd.
  assert (Hr : Recombine vars decomp = Some original)
    by (apply RecombineLoop_decompose, Hd).
  split; [| split; [| split]].
  - intros parents earlier last blocks. unfold Recombine. simpl.
    now rewrite rev_app_distr.
  - intros blocks joined s. apply RecombineStep_joins.
  - exact Hr.
  - apply RecombineLoop_length in Hr. rewrite length_rev in Hr.
    unfold NumSplits. lia.
Qed.
End RecombineFacts.

(** Joining the two parts of a cut uniform block gives the block back. *)
Lemma sizeJoin_sizeCut {D} (b : procBlock D) (dir : string) (index : Z) :
  sizeJoin (sizeCut b dir index).1 (sizeCut b dir index).2 dir = b.
Proof.
  destruct b. unfold sizeJoin, sizeCut, resize.
  repeat destruct (decide _); simpl; f_equal; lia.
Qed.

Lemma Recombine_undoes_splits_last_first_witness :
  Recombine [boxBlock 5 1 1; boxBlock 2 1 1; boxBlock 3 1 1] upperCutTwice =
    Some [boxBlock 10 1 1] /\
  Z.of_nat (length [boxBlock 10 1 1]) =
    Z.of_nat (length [boxBlock 5 1 1; boxBlock 2 1 1; boxBlock 3 1 1])
    - NumSplits upperCutTwice.
Proof.
  exact (proj2 (proj2
           (Recombine_undoes_splits_last_first sizeCut sizeJoin_sizeCut
              [boxBlock 10 1 1]
              [boxBlock 5 1 1; boxBlock 2 1 1; boxBlock 3 1 1]
              upperCutTwice eq_refl))).
Defined.

(** ** Running programs *)

Lemma emitted_app {D} (os : stream) (w : world D) (a b : list (item D)) :
  emitted os (emitted os w a) b = emitted os w (a ++ b).
Proof. destruct os; simpl; now rewrite <- app_assoc. Qed.

Lemma emitted_nil {D} (os : stream) (w : world D) : emitted os w [] = w.
Proof. destruct w, os; simpl; now rewrite app_nil_r. Qed.

Lemma put_run {D} (os : stream) (x : item D) (w : world D) :
  put os x w = (Ok tt, emitted os w [x]).
Proof. now destruct os. Qed.

Lemma pbind_Ok {D A B} (m : prog D A) (f : A -> prog D B) (w w' : world D)
    (a : A) :
  m w = (Ok a, w') -> pbind m f w = f a w'.
Proof. unfold pbind. now intros ->. Qed.

Lemma pbind_Exited {D A B} (m : prog D A) (f : A -> prog D B)
    (w w' : world D) (code : Z) :
  m w = (Exited code, w') -> pbind m f w = (Exited code, w').
Proof. unfold pbind. now intros ->. Qed.

Lemma pbind_put {D B} (os : stream) (x : item D) (f : unit -> prog D B)
    (w : world D) :
  pbind (put os x) f w = f tt (emitted os w [x]).
Proof. unfold pbind. now rewrite put_run. Qed.

Lemma pbind_pret {D A B} (a : A) (f : A -> prog D B) (w : world D) :
  pbind (pret a) f w = f a w.
Proof. reflexivity. Qed.

Lemma pbind_assoc {D A B C} (m : prog D A) (f : A -> prog D B)
    (g : B -> prog D C) (w : world D) :
  pbind (pbind m f) g w = pbind m (fun a => pbind (f a) g) w.
Proof.
  unfold pbind. destruct (m w) as [[a | c |] w']; reflexivity.
Qed.

Lemma forEach_app {D S X} (xs ys : list X) (body : X -> S -> prog D S)
    (s : S) (w : world D) :
  forEach (xs ++ ys) body s w =
  pbind (forEach xs body s) (fun s' => forEach ys body s') w.
Proof.
  revert s w. induction xs as [| x xs IH]; intros s w; [reflexivity |].
  unfold pbind in *. simpl. unfold pbind.
  destruct (body x s w) as [[s1 | c |] w1];
    [apply IH | reflexivity | reflexivity].
Qed.

(** A loop whose passes only insert items in one stream. *)
Lemma forEach__emits {D X} (os : stream) (out : X -> list (item D))
    (xs : list X) (body : X -> prog D unit) :
  (forall x, x ∈ xs -> forall w, body x w = (Ok tt, emitted os w (out x))) ->
  forall w, forEach_ xs body w = (Ok tt, emitted os w (flat_map out xs)).
Proof.
  unfold forEach_. induction xs as [| x xs IH]; intros Hbody w.
  - simpl. now rewrite emitted_nil.
  - simpl. rewrite (pbind_Ok _ _ w _ tt (Hbody x ltac:(left) w)).
    rewrite IH by (intros y Hy; apply Hbody; now right).
    now rewrite emitted_app.
Qed.

(** A loop whose passes only change the variables it threads. *)
Lemma forEach_pure {D S X} (f : X -> S -> S) (xs : list X)
    (body : X -> S -> prog D S) :
  (forall x, x ∈ xs -> forall s w, body x s w = (Ok (f x s), w)) ->
  forall s w,
    forEach xs body s w = (Ok (fold_left (fun s x => f x s) xs s), w).
Proof.
  induction xs as [| x xs IH]; intros Hbody s w; [reflexivity |].
  simpl. rewrite (pbind_Ok _ _ w _ _ (Hbody x ltac:(left) s w)).
  apply IH. intros y Hy. apply Hbody. now right.
Qed.

Lemma map_flat_map' {A B C} (g : B -> C) (f : A -> list B) (l : list A) :
  map g (flat_map f l) = flat_map (fun x => map g (f x)) l.
Proof.
  induction l as [| x l IH]; [reflexivity |].
  simpl. now rewrite map_app, IH.
Qed.

Lemma flat_map_single {A B} (h : A -> B) (l : list A) :
  flat_map (fun x => [h x]) l = map h l.
Proof. induction l as [| x l IH]; [reflexivity | simpl; now rewrite IH]. Qed.

Lemma flat_map_same {A B} (f g : A -> list B) (l : list A) :
  (forall x, f x = g x) -> flat_map f l = flat_map g l.
Proof.
  intros Hfg. induction l as [| x l IH]; [reflexivity |].
  simpl. now rewrite Hfg, IH.
Qed.

Lemma elem_of_range (n x : Z) : x ∈ range n <-> 0 <= x < n.
Proof.
  unfold range, rangeFrom. rewrite list_elem_of_In, in_map_iff. split.
  - intros (p & <- & Hp%in_seq). lia.
  - intros Hx. exists (Z.to_nat x). split; [lia |]. apply in_seq. lia.
Qed.

Lemma length_range (n : Z) : length (range n) = Z.to_nat n.
Proof. unfold range, rangeFrom. now rewrite length_map, length_seq. Qed.

(** ** WriteFun: one variable of one block *)

Section WriteFunFacts.
Context `{Double D} `{Collaborators D}.
Variable vars : list (procBlock D).
Variable eqnState : idealGas D.
Variable suth : sutherland D.
Variable decomp : decomposition.
Variable inp : input.t D.

Lemma elem_of_cellOrder (b : procBlock D) (ii jj kk : Z) :
  (ii, jj, kk) ∈ cellOrder b <->
  0 <= ii < NumI b /\ 0 <= jj < NumJ b /\ 0 <= kk < NumK b.
Proof.
  unfold cellOrder. rewrite list_elem_of_In. split.
  - intros (k & Hk & Hin)%in_flat_map.
    apply in_flat_map in Hin as (j & Hj & Hin).
    apply in_map_iff in Hin as (i & [= -> -> ->] & Hi).
    apply list_elem_of_In, elem_of_range in Hk, Hj, Hi. tauto.
  - intros (Hi & Hj & Hk). apply in_flat_map.
    exists kk. split; [now apply list_elem_of_In, elem_of_range |].
    apply in_flat_map.
    exists jj. split; [now apply list_elem_of_In, elem_of_range |].
    apply in_map_iff.
    exists ii. split; [reflexivity | now apply list_elem_of_In, elem_of_range].
Qed.

Lemma length_cellOrder (b : procBlock D) :
  length (cellOrder b) =
  (Z.to_nat (NumI b) * Z.to_nat (NumJ b) * Z.to_nat (NumK b))%nat.
Proof.
  unfold cellOrder.
  assert (Hflat : forall (A B : Type) (f : A -> list B) (n : nat) (l : list A),
             (forall x, length (f x) = n) ->
             length (flat_map f l) = (n * length l)%nat).
  { intros A B f n l Hf. induction l as [| x l IH]; simpl; [lia |].
    rewrite length_app, Hf, IH. lia. }
  rewrite (Hflat _ _ _ (Z.to_nat (NumI b) * Z.to_nat (NumJ b))%nat).
  - now rewrite length_range.
  - intros kk. rewrite (Hflat _ _ _ (Z.to_nat (NumI b))).
    + now rewrite length_range.
    + intros jj. now rewrite length_map, length_range.
Qed.

(** The write loops insert the scaled contents of [dumArr], cell by cell in
    the order of [cellOrder]. *)
Lemma writeVariable_run (refSoS : D) (b : procBlock D) (var : string)
    (dumArr : array3 D) (w : world D) :
  writeVariable suth inp refSoS b var dumArr w =
  (Ok tt,
   emitted OutFile w
     (map (fun c : Z * Z * Z =>
             F64 (dimensionalize suth inp refSoS var (dumArr c.1.1 c.1.2 c.2)))
          (cellOrder b))).
Proof.
  unfold writeVariable, cellOrder.
  rewrite map_flat_map'.
  apply forEach__emits. intros kk _ w1.
  rewrite map_flat_map'.
  apply forEach__emits. intros jj _ w2.
  rewrite map_map. rewrite <- flat_map_single.
  apply forEach__emits. intros ii _ w3.
  apply put_run.
Qed.

(** Storing values in a triple loop: afterwards every cell visited holds
    its value. *)
Section Filling.
Variable v : Z -> Z -> Z -> D.

Lemma fill_i (jp kp : Z) (li : list Z) :
  forall (known : Z -> Z -> Z -> Prop) (a : array3 D),
    (forall i j k, known i j k -> a i j k = v i j k) ->
    forall i j k, known i j k \/ (i ∈ li /\ j = jp /\ k = kp) ->
      fold_left (fun a ip => assign a ip jp kp (v ip jp kp)) li a i j k
      = v i j k.
Proof.
  induction li as [| i0 li IH]; intros known a Ha i j k Hc.
  - simpl. destruct Hc as [Hk | [Hin _]]; [now apply Ha |].
    now apply elem_of_nil in Hin.
  - simpl.
    apply (IH (fun i j k => known i j k \/ (i = i0 /\ j = jp /\ k = kp))).
    + intros i' j' k' Hk. unfold assign.
      destruct (decide _) as [(-> & -> & ->) | Hne]; [reflexivity |].
      destruct Hk as [Hk | Hk]; [now apply Ha | tauto].
    + destruct Hc as [Hk | (Hin & -> & ->)]; [tauto |].
      apply elem_of_cons in Hin as [-> | Hin]; tauto.
Qed.

Lemma fill_j (kp : Z) (li lj : list Z) :
  forall (known : Z -> Z -> Z -> Prop) (a : array3 D),
    (forall i j k, known i j k -> a i j k = v i j k) ->
    forall i j k, known i j k \/ (i ∈ li /\ j ∈ lj /\ k = kp) ->
      fold_left (fun a jp =>
        fold_left (fun a ip => assign a ip jp kp (v ip jp kp)) li a) lj a
        i j k
      = v i j k.
Proof.
  induction lj as [| j0 lj IH]; intros known a Ha i j k Hc.
  - simpl. destruct Hc as [Hk | (_ & Hin & _)]; [now apply Ha |].
    now apply elem_of_nil in Hin.
  - simpl.
    apply (IH (fun i j k => known i j k \/ (i ∈ li /\ j = j0 /\ k = kp))).
    + intros i' j' k' Hk. now apply (fill_i j0 kp li known).
    + destruct Hc as [Hk | (Hi & Hin & ->)]; [tauto |].
      apply elem_of_cons in Hin as [-> | Hin]; tauto.
Qed.

Lemma fill_k (li lj lk : list Z) :
  forall (known : Z -> Z -> Z -> Prop) (a : array3 D),
    (forall i j k, known i j k -> a i j k = v i j k) ->
    forall i j k, known i j k \/ (i ∈ li /\ j ∈ lj /\ k ∈ lk) ->
      fold_left (fun a kp =>
        fold_left (fun a jp =>
          fold_left (fun a ip => assign a ip jp kp (v ip jp kp)) li a) lj a)
        lk a i j k
      = v i j k.
Proof.
  induction lk as [| k0 lk IH]; intros known a Ha i j k Hc.
  - simpl. destruct Hc as [Hk | (_ & _ & Hin)]; [now apply Ha |].
    now apply elem_of_nil in Hin.
  - simpl.
    apply (IH (fun i j k => known i j k \/ (i ∈ li /\ j ∈ lj /\ k = k0))).
    + intros i' j' k' Hk. now apply (fill_j k0 li lj known).
    + destruct Hc as [Hk | (Hi & Hj & Hin)]; [tauto |].
      apply elem_of_cons in Hin as [-> | Hin]; tauto.
Qed.

Lemma fillCells_run (b : procBlock D) (value : Z -> Z -> Z -> option D)
    (dumArr : array3 D) (w : world D) :
  (forall ii jj kk, (ii, jj, kk) ∈ cellOrder b ->
     value ii jj kk = Some (v ii jj kk)) ->
  exists dumArr',
    fillCells b (fun ip jp kp => defined (value ip jp kp)) dumArr w
      = (Ok dumArr', w) /\
    forall ii jj kk, (ii, jj, kk) ∈ cellOrder b ->
      dumArr' ii jj kk = v ii jj kk.
Proof.
  intros Hv. eexists. split.
  - unfold fillCells.
    apply (forEach_pure (fun kp a =>
      fold_left (fun a jp =>
        fold_left (fun a ip => assign a ip jp kp (v ip jp kp))
          (range (NumI b)) a) (range (NumJ b)) a)).
    intros kp Hkp a1 w1.
    apply (forEach_pure (fun jp a =>
      fold_left (fun a ip => assign a ip jp kp (v ip jp kp))
        (range (NumI b)) a)).
    intros jp Hjp a2 w2.
    apply (forEach_pure (fun ip a => assign a ip jp kp (v ip jp kp))).
    intros ip Hip a3 w3.
    rewrite Hv; [reflexivity |].
    apply elem_of_cellOrder. rewrite <- !elem_of_range. tauto.
  - intros ii jj kk Hc. apply (fill_k _ _ _ (fun _ _ _ => False)); [tauto |].
    right. apply elem_of_cellOrder in Hc. rewrite !elem_of_range. tauto.
Qed.
End Filling.

(** One pass of the loop over the output variables, for a variable the
    chain knows and that has a value in every cell of the block. *)
Lemma outputVariable_run (refSoS : D) (recombVars : list (procBlock D))
    (ll : Z) (b : procBlock D) (var : string)
    (value : Z -> Z -> Z -> option D) (v : Z -> Z -> Z -> D)
    (dumArr : array3 D) (w : world D) :
  nondimensional vars eqnState decomp recombVars ll b var = Some value ->
  (forall ii jj kk, (ii, jj, kk) ∈ cellOrder b ->
     value ii jj kk = Some (v ii jj kk)) ->
  exists dumArr',
    outputVariable vars eqnState suth decomp inp refSoS recombVars ll b var
      dumArr w =
    (Ok dumArr',
     emitted OutFile w
       (map (fun c : Z * Z * Z =>
               F64 (dimensionalize suth inp refSoS var (v c.1.1 c.1.2 c.2)))
            (cellOrder b))).
Proof.
  intros Hvalue Hv.
  destruct (fillCells_run v b value dumArr w Hv) as (dumArr' & Hfill & Hget).
  exists dumArr'. unfold outputVariable, storeVariable. rewrite Hvalue.
  rewrite (pbind_Ok _ _ _ _ _ Hfill).
  rewrite (pbind_Ok _ _ _ _ _ (writeVariable_run refSoS b var dumArr' w)).
  assert (Hsame :
    map (fun c : Z * Z * Z =>
           F64 (dimensionalize suth inp refSoS var (dumArr' c.1.1 c.1.2 c.2)))
        (cellOrder b) =
    map (fun c : Z * Z * Z =>
           F64 (dimensionalize suth inp refSoS var (v c.1.1 c.1.2 c.2)))
        (cellOrder b)).
  { apply map_ext_in. intros [[ii jj] kk] Hin. cbn [fst snd].
    rewrite Hget; [reflexivity |]. now apply list_elem_of_In. }
  rewrite Hsame. reflexivity.
Qed.

(** The pass of [WriteFun] over "dt" writes the time step of every physical
    cell divided by the product of the reference speed of sound and the
    reference length. *)
Lemma WriteFun_dt_written (refSoS : D)
    (recombVars : list (procBlock D)) (ll : Z) (b : procBlock D)
    (dumArr : array3 D) (w : world D) :
  exists dumArr',
    outputVariable vars eqnState suth decomp inp refSoS recombVars ll b
      "dt" dumArr w =
    (Ok dumArr',
     emitted OutFile w
       (map (fun c : Z * Z * Z =>
               F64 (ddiv (Dt b c.1.1 c.1.2 c.2)
                         (dmul refSoS (input.LRef inp))))
            (cellOrder b))).
Proof.
  apply (outputVariable_run refSoS recombVars ll b "dt"
           (fun ii jj kk => Some (Dt b ii jj kk)) (Dt b)).
  - reflexivity.
  - reflexivity.
Qed.
End WriteFunFacts.

(** The code at the input where C4 fails.  One cell with time step 1,
    reference speed of sound 2 and reference length 2: the value written for
    "dt" is 1 / (2 * 2) = 1/4, and not the time step multiplied by the
    reference length over the reference speed of sound, which is 1. *)
Theorem WriteFun_dt_not_scaled_by_length_over_sos :
  let b := boxBlock 1 1 1 in
  let inp := requestOf ["dt"] 2%Q in
  let refSoS := SoS (gasWithSoS 2%Q) (input.PRef inp) (input.RRef inp) in
  WriteFun [b] (gasWithSoS 2%Q) (Sutherland Q 1%Q) (noSplits 1) inp 0 true
    emptyWorld =
    (Ok tt,
     World [I32 1; I32 1; I32 1; I32 1; I32 1; F64 (1 # 4)%Q] [] []) /\
  ~ ((1 # 4) == Dt b 0 0 0 * (input.LRef inp / refSoS))%Q.
Proof.
  split; [vm_compute; reflexivity |].
  vm_compute. discriminate.
Qed.

(** ** WriteFun: the whole file *)

Lemma forEach__cons {D X} (x : X) (xs : list X) (body : X -> prog D unit)
    (w : world D) :
  forEach_ (x :: xs) body w = pbind (body x) (fun _ => forEach_ xs body) w.
Proof.
  unfold forEach_. simpl. unfold pbind.
  destruct (body x w) as [[[] | c |] w']; reflexivity.
Qed.

Lemma rangeFrom_S (lo : Z) (n : nat) :
  rangeFrom lo (Z.of_nat (S n)) = lo :: rangeFrom (lo + 1) (Z.of_nat n).
Proof.
  unfold rangeFrom. rewrite !Nat2Z.id. simpl. f_equal; [lia |].
  rewrite <- seq_shift, map_map. apply map_ext. intros p. lia.
Qed.

Lemma mapM_values {A B C} (g : A -> option B) (h : B -> C) (d : B)
    (l : list A) :
  forall items,
    mapM (fun c => v ← g c; Some (h v)) l = Some items ->
    (forall c, c ∈ l -> g c = Some (default d (g c))) /\
    items = map (fun c => h (default d (g c))) l.
Proof.
  induction l as [| c l IH]; intros items Hm.
  - simpl in Hm. injection Hm as <-. split; [| reflexivity].
    intros c Hc. now apply elem_of_nil in Hc.
  - simpl in Hm. destruct (g c) as [v |] eqn:Hg; [| discriminate].
    simpl in Hm.
    destruct (mapM _ l) as [rest |] eqn:Hrest; [| discriminate].
    simpl in Hm. injection Hm as <-.
    destruct (IH rest eq_refl) as [Hall ->]. split.
    + intros c' [-> | Hc']%elem_of_cons; [now rewrite Hg | now apply Hall].
    + simpl. now rewrite Hg.
Qed.

Section WriteFunRun.
Context `{Double D} `{Collaborators D}.
Variable vars : list (procBlock D).
Variable eqnState : idealGas D.
Variable suth : sutherland D.
Variable decomp : decomposition.
Variable inp : input.t D.

(** The two chains of comparisons of the program against the tables: the
    first chain computes, for every name, the quantity of the table in the
    cell the table names, and the second the scaled value. *)
Lemma variableCells_chain (refSoS : D) (recombVars : list (procBlock D))
    (ll : Z) (b : procBlock D) (var : string) :
  variableCells vars eqnState suth decomp inp refSoS recombVars ll b var =
  (value ← nondimensional vars eqnState decomp recombVars ll b var;
   mapM (fun c : Z * Z * Z =>
           v ← value c.1.1 c.1.2 c.2;
           Some (F64 (dimensionalize suth inp refSoS var v)))
        (cellOrder b)).
Proof.
  unfold variableCells, nondimensional, outputQuantities. cbn [assoc].
  repeat (destruct (decide (var = _)) as [-> | ?]; [reflexivity |]).
  reflexivity.
Qed.

Lemma variableCells_run (refSoS : D) (recombVars : list (procBlock D))
    (ll : Z) (b : procBlock D) (var : string) (items : list (item D))
    (dumArr : array3 D) (w : world D) :
  variableCells vars eqnState suth decomp inp refSoS recombVars ll b var
    = Some items ->
  exists dumArr',
    outputVariable vars eqnState suth decomp inp refSoS recombVars ll b var
      dumArr w = (Ok dumArr', emitted OutFile w items).
Proof.
  rewrite variableCells_chain. intros Hc.
  destruct (nondimensional vars eqnState decomp recombVars ll b var)
    as [value |] eqn:Hvalue; [| discriminate].
  simpl in Hc.
  apply (mapM_values (fun c : Z * Z * Z => value c.1.1 c.1.2 c.2)
           (fun v => F64 (dimensionalize suth inp refSoS var v)) (dofZ 0))
    in Hc as [Hall ->].
  apply (outputVariable_run vars eqnState suth decomp inp refSoS recombVars
           ll b var value
           (fun ii jj kk => default (dofZ 0) (value ii jj kk)));
    [exact Hvalue |].
  intros ii jj kk Hin. exact (Hall (ii, jj, kk) Hin).
Qed.

(** The loop over the output variables of one block. *)
Lemma variables_run (refSoS : D) (recombVars : list (procBlock D))
    (ll : Z) (b : procBlock D) (names : list string) :
  forall (cells : list (list (item D))) (dumArr : array3 D) (w : world D),
    mapM (variableCells vars eqnState suth decomp inp refSoS recombVars ll b)
      names = Some cells ->
    exists dumArr',
      forEach names
        (outputVariable vars eqnState suth decomp inp refSoS recombVars ll b)
        dumArr w
      = (Ok dumArr', emitted OutFile w (concat cells)).
Proof.
  induction names as [| var names IH]; intros cells dumArr w Hm.
  - simpl in Hm. injection Hm as <-. exists dumArr. cbn [concat forEach].
    now rewrite emitted_nil.
  - simpl in Hm.
    destruct (variableCells _ _ _ _ _ _ _ _ _ var) as [items |] eqn:Hv;
      [| discriminate].
    simpl in Hm. destruct (mapM _ names) as [rest |] eqn:Hrest;
      [| discriminate].
    simpl in Hm. injection Hm as <-.
    destruct (variableCells_run _ _ _ _ _ _ dumArr w Hv) as [a1 Hrun].
    destruct (IH rest a1 (emitted OutFile w items) eq_refl) as [a2 Hloop].
    exists a2. simpl. rewrite (pbind_Ok _ _ _ _ _ Hrun), Hloop.
    now rewrite emitted_app.
Qed.

(** The loop that writes the dimensions of every block. *)
Lemma headers_run (rest : list (procBlock D)) :
  forall (pre : list (procBlock D)) (w : world D),
    forEach_ (rangeFrom (Z.of_nat (length pre)) (Z.of_nat (length rest)))
      (fun ll =>
         b <~ defined (vat (pre ++ rest) ll) ;;
         put OutFile (I32 (NumI b)) ;;
         put OutFile (I32 (NumJ b)) ;;
         put OutFile (I32 (NumK b)) ;;
         put OutFile (I32 (input.NumVarsOutput inp))) w
    = (Ok tt, emitted OutFile w (flat_map (blockHeader inp) rest)).
Proof.
  induction rest as [| b rest IH]; intros pre w.
  - cbn [flat_map]. now rewrite emitted_nil.
  - cbn [length]. rewrite rangeFrom_S, forEach__cons.
    assert (Hb : vat (pre ++ b :: rest) (Z.of_nat (length pre)) = Some b).
    { apply vat_Some. split; [lia |]. rewrite Nat2Z.id.
      now rewrite lookup_app_r, Nat.sub_diag by lia. }
    rewrite (pbind_Ok _ _ w (emitted OutFile w (blockHeader inp b)) tt).
    2: { unfold pbind, defined. rewrite Hb. destruct w.
         unfold put, pret, emitted, blockHeader. cbn.
         now rewrite <- !app_assoc. }
    specialize (IH (pre ++ [b])). rewrite length_app in IH.
    cbn [length] in IH. rewrite <- app_assoc in IH. cbn [app] in IH.
    replace (Z.of_nat (length pre) + 1) with (Z.of_nat (length pre + 1))
      by lia.
    rewrite IH, emitted_app. reflexivity.
Qed.

(** The loop that writes the variables of every block. *)
Lemma blocks_run (refSoS : D) (recombVars : list (procBlock D))
    (rest : list (procBlock D)) :
  forall (pre : list (procBlock D)) (values : list (list (list (item D))))
         (w : world D),
    recombVars = pre ++ rest ->
    mapM (fun lb : Z * procBlock D =>
            mapM (variableCells vars eqnState suth decomp inp refSoS
                    recombVars lb.1 lb.2)
                 (input.OutputVariables inp))
         (imap (fun n b => (Z.of_nat (length pre + n), b)) rest)
      = Some values ->
    forEach_ (rangeFrom (Z.of_nat (length pre)) (Z.of_nat (length rest)))
      (fun ll =>
         b <~ defined (vat recombVars ll) ;;
         forEach (input.OutputVariables inp)
           (outputVariable vars eqnState suth decomp inp refSoS recombVars
              ll b)
           (fun _ _ _ => dofZ 0) ;;
         pret tt) w
    = (Ok tt, emitted OutFile w (concat (map (@List.concat _) values))).
Proof.
  induction rest as [| b rest IH]; intros pre values w Hrec Hm.
  - simpl in Hm. injection Hm as <-. cbn [map concat].
    now rewrite emitted_nil.
  - cbn [imap mapM] in Hm.
    replace (length pre + 0)%nat with (length pre) in Hm by lia.
    cbn [fst snd] in Hm.
    destruct (mapM _ (input.OutputVariables inp)) as [cells |] eqn:Hcells;
      [| discriminate].
    cbn [mbind option_bind] in Hm.
    destruct (mapM _ (imap _ rest)) as [more |] eqn:Hmore; [| discriminate].
    cbn in Hm. injection Hm as <-.
    cbn [length]. rewrite rangeFrom_S, forEach__cons.
    assert (Hb : vat recombVars (Z.of_nat (length pre)) = Some b).
    { rewrite Hrec. apply vat_Some. split; [lia |]. rewrite Nat2Z.id.
      now rewrite lookup_app_r, Nat.sub_diag by lia. }
    destruct (variables_run refSoS recombVars (Z.of_nat (length pre)) b
                (input.OutputVariables inp) cells (fun _ _ _ => dofZ 0) w
                Hcells) as [a' Hvars].
    rewrite (pbind_Ok _ _ w (emitted OutFile w (concat cells)) tt).
    2: { unfold pbind at 1, defined. rewrite Hb. unfold pret at 1.
         now rewrite (pbind_Ok _ _ _ _ _ Hvars). }
    replace (Z.of_nat (length pre) + 1) with (Z.of_nat (length (pre ++ [b])))
      by (rewrite length_app; simpl; lia).
    rewrite (IH (pre ++ [b]) more).
    + cbn [map concat]. now rewrite emitted_app.
    + now rewrite <- app_assoc.
    + rewrite <- Hmore. f_equal. apply imap_ext. intros n x _. simpl.
      rewrite length_app. simpl. do 2 f_equal. lia.
Qed.

(** The whole run, when every requested name has values over every block:
    the file receives the number of blocks, the headers and the values. *)
Lemma WriteFun_run (recombVars : list (procBlock D))
    (values : list (list (list (item D)))) (solIter : Z) (w : world D) :
  Recombine vars decomp = Some recombVars ->
  functionFileValues vars eqnState suth decomp inp recombVars = Some values ->
  WriteFun vars eqnState suth decomp inp solIter true w =
    (Ok tt, emitted OutFile w (functionFile inp recombVars values)).
Proof.
  intros Hrec Hvalues. unfold functionFileValues in Hvalues.
  unfold WriteFun, functionFile. rewrite Hrec.
  unfold defined. unfold pbind at 1, pret at 1.
  cbn [negb]. unfold pbind at 1, pret at 1.
  rewrite (pbind_Ok _ _ _ _ _ (put_run _ _ _)).
  rewrite (pbind_Ok _ _ _ _ _ (headers_run recombVars [] _)).
  rewrite (blocks_run _ recombVars recombVars [] values);
    [| reflexivity | exact Hvalues].
  now rewrite !emitted_app.
Qed.

(** Where the values of block number [ll] and of the name at position [p]
    of the request are. *)
Lemma functionFileValues_lookup (recombVars : list (procBlock D))
    (values : list (list (list (item D)))) (ll p : nat) (b : procBlock D)
    (var : string) :
  functionFileValues vars eqnState suth decomp inp recombVars = Some values ->
  recombVars !! ll = Some b ->
  input.OutputVariables inp !! p = Some var ->
  exists perVariable cells,
    values !! ll = Some perVariable /\
    perVariable !! p = Some cells /\
    variableCells vars eqnState suth decomp inp
      (SoS eqnState (input.PRef inp) (input.RRef inp)) recombVars
      (Z.of_nat ll) b var = Some cells.
Proof.
  intros Hvalues Hb Hvar. unfold functionFileValues in Hvalues.
  apply mapM_Some in Hvalues.
  assert (Hlb : imap (fun n b => (Z.of_nat n, b)) recombVars !! ll
                = Some (Z.of_nat ll, b)).
  { now rewrite list_lookup_imap, Hb. }
  destruct (Forall2_lookup_l _ _ _ _ _ Hvalues Hlb)
    as (perVariable & HperVariable & Hnames).
  cbn [fst snd] in Hnames. apply mapM_Some in Hnames.
  destruct (Forall2_lookup_l _ _ _ _ _ Hnames Hvar) as (cells & Hcells & Hc).
  now exists perVariable, cells.
Qed.

(** The values of a name whose quantity is defined in every cell. *)
Lemma variableCells_total (refSoS : D) (recombVars : list (procBlock D))
    (ll : Z) (b : procBlock D) (var : string) (q : Z * Z * Z -> D) :
  assoc var (outputQuantities vars eqnState decomp recombVars ll b)
    = Some (fun c => Some (q c)) ->
  variableCells vars eqnState suth decomp inp refSoS recombVars ll b var =
  Some (map (fun c => F64 (scaled suth inp refSoS var (q c))) (cellOrder b)).
Proof.
  intros Hq. unfold variableCells. rewrite Hq. cbn [mbind option_bind].
  induction (cellOrder b) as [| c cells IH]; [reflexivity |].
  cbn [mapM map mbind option_bind]. rewrite IH. reflexivity.
Qed.

(** C5.  When the file opens and every requested name is in the table and
    has a value in every cell ([functionFileLayout] is defined), the output
    of [WriteFun] is exactly the layout of the spec: the number of blocks;
    for every block its three interior cell counts and the number of
    variables; then for every block, and for every variable in the order of
    the request, one value for each interior cell, i fastest and k slowest,
    which makes Ni Nj Nk values for each variable of each block.  The value
    at position [n] of a variable is the scaled quantity of the table at
    interior cell number [n]: for a field that has a halo, the cell at
    [NumGhosts] plus the interior index. *)
Theorem WriteFun_writes_the_function_file_layout
    (recombVars : list (procBlock D)) (layout : list (item D))
    (solIter : Z) (w : world D) :
  Recombine vars decomp = Some recombVars ->
  functionFileLayout vars eqnState suth decomp inp recombVars = Some layout ->
  WriteFun vars eqnState suth decomp inp solIter true w =
    (Ok tt, emitted OutFile w layout) /\
  (forall b : procBlock D,
      length (cellOrder b) =
      (Z.to_nat (NumI b) * Z.to_nat (NumJ b) * Z.to_nat (NumK b))%nat) /\
  (forall refSoS ll b var cells,
      variableCells vars eqnState suth decomp inp refSoS recombVars ll b var
        = Some cells ->
      length cells = length (cellOrder b) /\
      exists quantity,
        assoc var (outputQuantities vars eqnState decomp recombVars ll b)
          = Some quantity /\
        forall n c, cellOrder b !! n = Some c ->
          exists v,
            quantity c = Some v /\
            cells !! n = Some (F64 (scaled suth inp refSoS var v))).
Proof.
  intros Hrec Hlayout. split; [| split].
  - unfold functionFileLayout in Hlayout.
    destruct (functionFileValues _ _ _ _ _ _) as [values |] eqn:Hvalues;
      [| discriminate].
    cbn in Hlayout. injection Hlayout as <-.
    now apply WriteFun_run.
  - apply length_cellOrder.
  - intros refSoS ll b var cells Hcells. unfold variableCells in Hcells.
    destruct (assoc var _) as [quantity |]; [| discriminate].
    cbn [mbind option_bind] in Hcells.
    apply (mapM_values quantity
             (fun v => F64 (scaled suth inp refSoS var v)) (dofZ 0))
      in Hcells as [Hall ->].
    split; [now rewrite length_map |].
    exists quantity. split; [reflexivity |].
    intros n c Hn. exists (default (dofZ 0) (quantity c)). split.
    + apply Hall. eapply list_elem_of_lookup_2. exact Hn.
    + rewrite list_lookup_fmap, Hn. reflexivity.
Qed.

(** C9.  The name "mach" is accepted.  In a run of [WriteFun] that ends
    normally, wherever "mach" stands in the request, the values written for
    it over block [ll] are, for every interior cell in file order, the
    magnitude of the velocity divided by the speed of sound at the cell's
    pressure and density, the cell being taken behind the ghost layers; no
    scale factor is applied. *)
Theorem WriteFun_mach_written_unscaled
    (recombVars : list (procBlock D))
    (values : list (list (list (item D)))) (solIter : Z) (w : world D) :
  Recombine vars decomp = Some recombVars ->
  functionFileValues vars eqnState suth decomp inp recombVars = Some values ->
  WriteFun vars eqnState suth decomp inp solIter true w =
    (Ok tt, emitted OutFile w (functionFile inp recombVars values)) /\
  (forall (ll p : nat) (b : procBlock D),
     recombVars !! ll = Some b ->
     input.OutputVariables inp !! p = Some "mach" ->
     exists perVariable,
       values !! ll = Some perVariable /\
       perVariable !! p =
       Some (map (fun c : Z * Z * Z =>
                    let s := State b (NumGhosts b + c.1.1)
                               (NumGhosts b + c.1.2) (NumGhosts b + c.2) in
                    F64 (ddiv (Mag (Velocity s)) (SoS eqnState (P s) (Rho s))))
                 (cellOrder b))).
Proof.
  intros Hrec Hvalues. split; [now apply WriteFun_run |].
  intros ll p b Hb Hp.
  destruct (functionFileValues_lookup recombVars values ll p b "mach"
              Hvalues Hb Hp) as (perVariable & cells & Hll & Hcells & Hmach).
  exists perVariable. split; [exact Hll |].
  rewrite (variableCells_total _ recombVars (Z.of_nat ll) b "mach"
             (fun c =>
                let s := State b (NumGhosts b + c.1.1) (NumGhosts b + c.1.2)
                           (NumGhosts b + c.2) in
                ddiv (Mag (Velocity s)) (SoS eqnState (P s) (Rho s)))
             eq_refl) in Hmach.
  injection Hmach as <-. exact Hcells.
Qed.

(** C10.  In a run of [WriteFun] that ends normally, wherever
    "viscosityRatio" stands in the request, the values written for it over
    block [ll] are, for every interior cell in file order, 0.0 when the
    block is not turbulent and the eddy viscosity divided by the viscosity
    at that cell when it is, the cell being taken behind the ghost layers;
    no scale factor is applied. *)
Theorem WriteFun_viscosityRatio_written
    (recombVars : list (procBlock D))
    (values : list (list (list (item D)))) (solIter : Z) (w : world D) :
  Recombine vars decomp = Some recombVars ->
  functionFileValues vars eqnState suth decomp inp recombVars = Some values ->
  WriteFun vars eqnState suth decomp inp solIter true w =
    (Ok tt, emitted OutFile w (functionFile inp recombVars values)) /\
  (forall (ll p : nat) (b : procBlock D),
     recombVars !! ll = Some b ->
     input.OutputVariables inp !! p = Some "viscosityRatio" ->
     exists perVariable,
       values !! ll = Some perVariable /\
       perVariable !! p =
       Some (map (fun c : Z * Z * Z =>
                    F64 (if IsTurbulent b
                         then ddiv (EddyViscosity b (NumGhosts b + c.1.1)
                                      (NumGhosts b + c.1.2)
                                      (NumGhosts b + c.2))
                                   (Viscosity b (NumGhosts b + c.1.1)
                                      (NumGhosts b + c.1.2)
                                      (NumGhosts b + c.2))
                         else dofZ 0))
                 (cellOrder b))).
Proof.
  intros Hrec Hvalues. split; [now apply WriteFun_run |].
  intros ll p b Hb Hp.
  destruct (functionFileValues_lookup recombVars values ll p b
              "viscosityRatio" Hvalues Hb Hp)
    as (perVariable & cells & Hll & Hcells & Hratio).
  exists perVariable. split; [exact Hll |].
  rewrite (variableCells_total _ recombVars (Z.of_nat ll) b "viscosityRatio"
             (fun c =>
                if IsTurbulent b
                then ddiv (EddyViscosity b (NumGhosts b + c.1.1)
                             (NumGhosts b + c.1.2) (NumGhosts b + c.2))
                          (Viscosity b (NumGhosts b + c.1.1)
                             (NumGhosts b + c.1.2) (NumGhosts b + c.2))
                else dofZ 0)
             eq_refl) in Hratio.
  injection Hratio as <-. exact Hcells.
Qed.

(** The chain of comparisons ends in its final [else] exactly for the names
    outside [recognizedVariables]. *)
Lemma nondimensional_None (recombVars : list (procBlock D)) (ll : Z)
    (b : procBlock D) (var : string) :
  var ∉ recognizedVariables ->
  nondimensional vars eqnState decomp recombVars ll b var = None.
Proof.
  intros Hnot. unfold nondimensional.
  repeat (destruct (decide _) as [-> | _];
          [exfalso; apply Hnot; apply (bool_decide_unpack _);
           vm_compute; reflexivity |]).
  reflexivity.
Qed.

Lemma nondimensional_Some (recombVars : list (procBlock D)) (ll : Z)
    (b : procBlock D) (var : string) :
  var ∈ recognizedVariables ->
  is_Some (nondimensional vars eqnState decomp recombVars ll b var).
Proof.
  intros Hin. unfold nondimensional.
  repeat (destruct (decide _) as [_ | ?]; [eauto |]).
  exfalso. unfold recognizedVariables in Hin.
  repeat (apply elem_of_cons in Hin as [-> | Hin]; [congruence |]).
  now apply elem_of_nil in Hin.
Qed.

(** The pass over a name the chain does not know: the name is reported on
    the error stream and the program exits. *)
Lemma outputVariable_unknown (refSoS : D) (recombVars : list (procBlock D))
    (ll : Z) (b : procBlock D) (var : string) (dumArr : array3 D)
    (w : world D) :
  var ∉ recognizedVariables ->
  outputVariable vars eqnState suth decomp inp refSoS recombVars ll b var
    dumArr w =
  (Exited EXIT_FAILURE,
   emitted Cerr w
     [Txt "ERROR: Variable "; Txt var;
      Txt " to write to function file is not defined!"; Endl]).
Proof.
  intros Hnot. unfold outputVariable, storeVariable.
  rewrite (nondimensional_None _ _ _ _ Hnot).
  destruct w. unfold pbind, put, exit, emitted. cbn.
  now rewrite <- !app_assoc.
Qed.

(** C8 (as amended).  When the file opens, there is at least one block and
    the names requested before [var] are known and have values, a requested
    name [var] that the chain does not know is fatal: [WriteFun] reports the name
    on the error stream and exits with [EXIT_FAILURE], which is not zero.
    The function file then holds the header and the variables of the first
    block that precede [var]. *)
Theorem WriteFun_unknown_variable_is_fatal
    (b0 : procBlock D) (rest : list (procBlock D))
    (known later : list string) (var : string)
    (cells : list (list (item D))) (solIter : Z) (w : world D) :
  Recombine vars decomp = Some (b0 :: rest) ->
  input.OutputVariables inp = known ++ var :: later ->
  var ∉ recognizedVariables ->
  mapM (variableCells vars eqnState suth decomp inp
          (SoS eqnState (input.PRef inp) (input.RRef inp)) (b0 :: rest) 0 b0)
       known = Some cells ->
  WriteFun vars eqnState suth decomp inp solIter true w =
    (Exited EXIT_FAILURE,
     emitted Cerr
       (emitted OutFile w
          ([I32 (Z.of_nat (length (b0 :: rest)))]
           ++ flat_map (blockHeader inp) (b0 :: rest) ++ concat cells))
       [Txt "ERROR: Variable "; Txt var;
        Txt " to write to function file is not defined!"; Endl]) /\
  EXIT_FAILURE <> 0.
Proof.
  intros Hrec Hnames Hnot Hcells. split; [| discriminate].
  unfold WriteFun. rewrite Hrec.
  unfold defined. unfold pbind at 1, pret at 1.
  cbn [negb]. unfold pbind at 1, pret at 1.
  rewrite (pbind_Ok _ _ _ _ _ (put_run _ _ _)).
  rewrite (pbind_Ok _ _ _ _ _ (headers_run (b0 :: rest) [] _)).
  rewrite !emitted_app.
  set (w1 := emitted OutFile w _).
  unfold range. cbn [length]. rewrite rangeFrom_S, forEach__cons.
  destruct (variables_run (SoS eqnState (input.PRef inp) (input.RRef inp))
              (b0 :: rest) 0 b0 known cells (fun _ _ _ => dofZ 0) w1 Hcells)
    as [a' Hknown].
  apply pbind_Exited.
  unfold pbind at 1, defined. cbn [vat]. unfold pret at 1.
  cbn. apply pbind_Exited.
  rewrite Hnames, forEach_app, (pbind_Ok _ _ _ _ _ Hknown).
  cbn [forEach]. apply pbind_Exited.
  rewrite (outputVariable_unknown _ _ _ _ _ _ _ Hnot).
  unfold w1. now rewrite emitted_app, <- app_assoc.
Qed.
End WriteFunRun.

Lemma WriteFun_writes_the_function_file_layout_witness :
  WriteFun [rampBlock 2 2 1 false] (gasWithSoS 2%Q) (Sutherland Q 1%Q)
    (noSplits 1) (requestOf ["density"; "dt"] 2%Q) 0 true emptyWorld =
  (Ok tt,
   emitted OutFile emptyWorld
     [I32 1; I32 2; I32 2; I32 1; I32 2;
      F64 222%Q; F64 223%Q; F64 232%Q; F64 233%Q;
      F64 (1 # 4)%Q; F64 (2 # 4)%Q; F64 (11 # 4)%Q; F64 (12 # 4)%Q]).
Proof.
  exact (proj1
           (WriteFun_writes_the_function_file_layout
              [rampBlock 2 2 1 false] (gasWithSoS 2%Q) (Sutherland Q 1%Q)
              (noSplits 1) (requestOf ["density"; "dt"] 2%Q)
              [rampBlock 2 2 1 false] _ 0 emptyWorld eq_refl eq_refl)).
Defined.

Lemma WriteFun_mach_written_unscaled_witness :
  WriteFun [rampBlock 2 2 1 false] (gasWithSoS 2%Q) (Sutherland Q 1%Q)
    (noSplits 1) (requestOf ["density"; "mach"] 2%Q) 0 true emptyWorld =
  (Ok tt,
   emitted OutFile emptyWorld
     [I32 1; I32 2; I32 2; I32 1; I32 2;
      F64 222%Q; F64 223%Q; F64 232%Q; F64 233%Q;
      F64 (222 # 2)%Q; F64 (223 # 2)%Q; F64 (232 # 2)%Q; F64 (233 # 2)%Q]) /\
  exists perVariable : list (list (item Q)),
    [[[F64 222%Q; F64 223%Q; F64 232%Q; F64 233%Q];
      [F64 (222 # 2)%Q; F64 (223 # 2)%Q; F64 (232 # 2)%Q; F64 (233 # 2)%Q]]]
      !! 0%nat = Some perVariable /\
    perVariable !! 1%nat =
    Some [F64 (222 # 2)%Q; F64 (223 # 2)%Q; F64 (232 # 2)%Q; F64 (233 # 2)%Q].
Proof.
  pose proof (WriteFun_mach_written_unscaled
                [rampBlock 2 2 1 false] (gasWithSoS 2%Q) (Sutherland Q 1%Q)
                (noSplits 1) (requestOf ["density"; "mach"] 2%Q)
                [rampBlock 2 2 1 false]
                [[[F64 222%Q; F64 223%Q; F64 232%Q; F64 233%Q];
                  [F64 (222 # 2)%Q; F64 (223 # 2)%Q; F64 (232 # 2)%Q;
                   F64 (233 # 2)%Q]]]
                0 emptyWorld eq_refl eq_refl)
    as [Hrun Hat].
  split; [exact Hrun |].
  exact (Hat 0%nat 1%nat (rampBlock 2 2 1 false) eq_refl eq_refl).
Defined.

Lemma WriteFun_viscosityRatio_written_witness :
  WriteFun [rampBlock 2 2 1 true] (gasWithSoS 2%Q) (Sutherland Q 1%Q)
    (noSplits 1) (requestOf ["viscosityRatio"; "density"] 2%Q) 0 true
    emptyWorld =
  (Ok tt,
   emitted OutFile emptyWorld
     [I32 1; I32 2; I32 2; I32 1; I32 2;
      F64 (222 # 3)%Q; F64 (223 # 3)%Q; F64 (232 # 3)%Q; F64 (233 # 3)%Q;
      F64 222%Q; F64 223%Q; F64 232%Q; F64 233%Q]) /\
  exists perVariable : list (list (item Q)),
    [[[F64 (222 # 3)%Q; F64 (223 # 3)%Q; F64 (232 # 3)%Q; F64 (233 # 3)%Q];
      [F64 222%Q; F64 223%Q; F64 232%Q; F64 233%Q]]]
      !! 0%nat = Some perVariable /\
    perVariable !! 0%nat =
    Some [F64 (222 # 3)%Q; F64 (223 # 3)%Q; F64 (232 # 3)%Q; F64 (233 # 3)%Q].
Proof.
  pose proof (WriteFun_viscosityRatio_written
                [rampBlock 2 2 1 true] (gasWithSoS 2%Q) (Sutherland Q 1%Q)
                (noSplits 1) (requestOf ["viscosityRatio"; "density"] 2%Q)
                [rampBlock 2 2 1 true]
                [[[F64 (222 # 3)%Q; F64 (223 # 3)%Q; F64 (232 # 3)%Q;
                   F64 (233 # 3)%Q];
                  [F64 222%Q; F64 223%Q; F64 232%Q; F64 233%Q]]]
                0 emptyWorld eq_refl eq_refl)
    as [Hrun Hat].
  split; [exact Hrun |].
  exact (Hat 0%nat 0%nat (rampBlock 2 2 1 true) eq_refl eq_refl).
Defined.

Lemma WriteFun_unknown_variable_is_fatal_witness :
  WriteFun [boxBlock 1 1 1] (gasWithSoS 2%Q) (Sutherland Q 1%Q) (noSplits 1)
    (requestOf ["density"; "bogus"; "dt"] 2%Q) 7 true emptyWorld =
  (Exited EXIT_FAILURE,
   emitted Cerr
     (emitted OutFile emptyWorld
        ([I32 1] ++ [I32 1; I32 1; I32 1; I32 3] ++ [F64 1%Q]))
     [Txt "ERROR: Variable "; Txt "bogus";
      Txt " to write to function file is not defined!"; Endl]).
Proof.
  refine (proj1
            (WriteFun_unknown_variable_is_fatal
               [boxBlock 1 1 1] (gasWithSoS 2%Q) (Sutherland Q 1%Q)
               (noSplits 1) (requestOf ["density"; "bogus"; "dt"] 2%Q)
               (boxBlock 1 1 1) [] ["density"] ["dt"] "bogus"
               [[F64 1%Q]] 7 emptyWorld eq_refl eq_refl _ eq_refl)).
  intros Hin. apply (bool_decide_pack _) in Hin. vm_compute in Hin.
  exact Hin.
Defined.

(** C8 as stated fails for a mesh without blocks.  The names are compared
    inside the loop over the blocks only, so with no block the name "bogus",
    which the chain does not know, is never looked at: [WriteFun] writes the
    block count 0, reports nothing and ends normally. *)
Lemma WriteFun_unknown_variable_unnoticed_without_blocks :
  WriteFun [] (gasWithSoS 2%Q) (Sutherland Q 1%Q) (noSplits 0)
    (requestOf ["bogus"] 2%Q) 0 true emptyWorld =
  (Ok tt, World [I32 0] [] []) /\
  ~ "bogus" ∈ recognizedVariables.
Proof.
  split; [reflexivity |].
  intros Hin. apply (bool_decide_pack _) in Hin. vm_compute in Hin.
  exact Hin.
Qed.

(** ** The writers when the file does not open *)

(** C7.  For each of the three writers, when its output file fails to open
    (and the decomposition fits the blocks, so that [Recombine] is defined)
    the program reports the file on the error stream and exits with
    [EXIT_FAILURE], which is not zero; nothing has been written to the
    output file. *)
Theorem writers_exit_when_the_file_does_not_open
    `{Double D} `{Collaborators D}
    (vars recombVars : list (procBlock D)) (decomp : decomposition)
    (gridName : string) (LRef : D) (eqnState : idealGas D)
    (suth : sutherland D) (inp : input.t D) (solIter iter : Z)
    (w : world D) :
  Recombine vars decomp = Some recombVars ->
  let failure (what name : string) :=
    (Exited (A := unit) EXIT_FAILURE,
     emitted Cerr w
       [Txt what; Txt name; Txt " did not open correctly!!!"; Endl]) in
  WriteCellCenter gridName vars decomp LRef false w =
    failure "ERROR: Grid file " (gridName +:+ "_center" +:+ ".xyz") /\
  WriteFun vars eqnState suth decomp inp solIter false w =
    failure "ERROR: Function file "
      (input.SimNameRoot inp +:+ "_" +:+ to_string solIter +:+ "_center"
       +:+ ".fun") /\
  WriteRes inp iter false w =
    failure "ERROR: Results file "
      (input.SimNameRoot inp +:+ "_center" +:+ ".res") /\
  EXIT_FAILURE <> 0 /\
  (forall items, outFile (emitted Cerr w items) = outFile w).
Proof.
  intros Hrec failure. unfold failure.
  split; [| split; [| split; [| split]]].
  - unfold WriteCellCenter. rewrite Hrec. destruct w.
    unfold defined, pbind, put, exit, pret, emitted. cbn.
    now rewrite <- !app_assoc.
  - unfold WriteFun. rewrite Hrec. destruct w.
    unfold defined, pbind, put, exit, pret, emitted. cbn.
    now rewrite <- !app_assoc.
  - unfold WriteRes. destruct w.
    unfold pbind, put, exit, pret, emitted. cbn.
    now rewrite <- !app_assoc.
  - discriminate.
  - reflexivity.
Qed.

Lemma writers_exit_when_the_file_does_not_open_witness :
  WriteRes (requestOf ["density"] 2%Q) 10 false emptyWorld =
  (Exited EXIT_FAILURE,
   emitted Cerr emptyWorld
     [Txt "ERROR: Results file "; Txt "sim_center.res";
      Txt " did not open correctly!!!"; Endl]) /\
  outFile (emitted Cerr (emptyWorld (D := Q))
             [Txt "ERROR: Results file "]) = [].
Proof.
  pose proof (writers_exit_when_the_file_does_not_open
                [boxBlock 2 1 1] [boxBlock 2 1 1] (noSplits 1) "grid" 2%Q
                (gasWithSoS 2%Q) (Sutherland Q 1%Q)
                (requestOf ["density"] 2%Q) 0 10 emptyWorld eq_refl)
    as (_ & _ & Hres & _ & Hout).
  split; [exact Hres | apply Hout].
Defined.

(** ** Residual reports *)

(** One call of [PrintResiduals]: the new reference is [normalization], and
    the stream receives one line of the table, normalized by the new
    reference. *)
Lemma PrintResiduals_run `{Double D} `{Macros D} (inp : input.t D)
    (residL2First residL2 : genArray D) (residLinf : resid D)
    (matrixResid : D) (nn mm : Z) (os : stream) (w : world D) :
  PrintResiduals inp residL2First residL2 residLinf matrixResid nn mm os w =
  (Ok (normalization nn mm residL2 residL2First),
   emitted os w
     (residualRow inp nn mm residL2
        (normalization nn mm residL2 residL2First) residLinf matrixResid)).
Proof.
  unfold PrintResiduals, residualRow, stepColumn, residualEquations,
    resNormL2.
  generalize (normalization nn mm residL2 residL2First). intros reference.
  destruct (dgtb (input.Dt inp) (dofZ 0)),
    (dgtb (input.CFL inp) (dofZ 0)), (input.IsTurbulent inp);
    repeat (rewrite pbind_assoc || rewrite pbind_put || rewrite pbind_pret);
    unfold pret; rewrite ?emitted_app; reflexivity.
Qed.

Lemma PrintHeaders_run `{Double D} (inp : input.t D) (os : stream) :
  exists items, forall w, PrintHeaders inp os w = (Ok tt, emitted os w items).
Proof.
  unfold PrintHeaders.
  destruct (dgtb (input.Dt inp) (dofZ 0)),
    (dgtb (input.CFL inp) (dofZ 0)), (input.IsTurbulent inp);
    eexists; intros w;
    repeat (rewrite pbind_assoc || rewrite pbind_put || rewrite pbind_pret);
    rewrite put_run, ?emitted_app; reflexivity.
Qed.

Section ResidualsOverQ.
Context `{Macros Q}.

Lemma Qgtb_true (x y : Q) : Qgtb x y = true <-> (y < x)%Q.
Proof.
  unfold Qgtb. rewrite negb_true_iff, <- not_true_iff_false, Qle_bool_iff.
  split; [apply Qnot_le_lt | apply Qlt_not_le].
Qed.

Lemma Qgtb_false (x y : Q) : Qgtb x y = false <-> (x <= y)%Q.
Proof. unfold Qgtb. now rewrite negb_false_iff, Qle_bool_iff. Qed.

Lemma raise_at (residL2 first : genArray Q) (cc c : Z) :
  (raise residL2 first cc c = residL2 c \/
   raise residL2 first cc c = first c) /\
  (first c <= raise residL2 first cc c)%Q /\
  (c = cc -> (residL2 c <= raise residL2 first cc c)%Q) /\
  (c <> cc -> raise residL2 first cc c = first c).
Proof.
  unfold raise. cbn [dgtb Double_Q].
  destruct (Qgtb (residL2 cc) (first cc)) eqn:Hgt.
  - apply Qgtb_true in Hgt. unfold setComponent.
    destruct (decide (c = cc)) as [-> |].
    + split; [now left |]. split; [now apply Qlt_le_weak |].
      split; [intros _; apply Qle_refl | tauto].
    + split; [now right |]. split; [apply Qle_refl |].
      split; [tauto | reflexivity].
  - apply Qgtb_false in Hgt.
    split; [now right |]. split; [apply Qle_refl |].
    split; [now intros -> | reflexivity].
Qed.

Lemma raise_all_other (residL2 : genArray Q) (l : list Z) :
  forall (first : genArray Q) (c : Z),
    c ∉ l -> fold_left (raise residL2) l first c = first c.
Proof.
  induction l as [| cc l IH]; intros first c Hc; [reflexivity |].
  apply not_elem_of_cons in Hc as [Hne Hc]. simpl.
  rewrite IH by exact Hc. now apply raise_at.
Qed.

(** After the loop a component it visited holds the larger of its old value
    and the current residual. *)
Lemma raise_all_at (residL2 : genArray Q) (l : list Z) :
  forall (first : genArray Q) (c : Z),
    c ∈ l ->
    (fold_left (raise residL2) l first c = residL2 c \/
     fold_left (raise residL2) l first c = first c) /\
    (residL2 c <= fold_left (raise residL2) l first c)%Q /\
    (first c <= fold_left (raise residL2) l first c)%Q.
Proof.
  induction l as [| cc l IH]; intros first c Hc.
  - now apply elem_of_nil in Hc.
  - simpl. destruct (raise_at residL2 first cc c) as (Hval & Hup & Hcc & Hoth).
    destruct (decide (c ∈ l)) as [Hin | Hout].
    + destruct (IH (raise residL2 first cc) c Hin) as (Hv & Hr & Hf).
      split; [| split].
      * destruct Hv as [-> | ->]; [now left | exact Hval].
      * exact Hr.
      * now apply Qle_trans with (raise residL2 first cc c).
    + rewrite raise_all_other by exact Hout.
      apply elem_of_cons in Hc as [-> | Hc]; [| contradiction].
      split; [exact Hval | split; [now apply Hcc | exact Hup]].
Qed.

Lemma raise_all_fixed (residL2 : genArray Q) (l : list Z) :
  forall first : genArray Q,
    (forall cc, cc ∈ l -> (residL2 cc <= first cc)%Q) ->
    fold_left (raise residL2) l first = first.
Proof.
  induction l as [| cc l IH]; intros first Hle; [reflexivity |].
  simpl. assert (Hsame : raise residL2 first cc = first).
  { unfold raise. cbn [dgtb Double_Q].
    now rewrite (proj2 (Qgtb_false _ _) (Hle cc ltac:(left))). }
  rewrite Hsame. apply IH. intros c Hc. apply Hle. now right.
Qed.

Lemma normalization_unfold (nn mm : Z) (residL2 first : genArray Q) :
  normalization nn mm residL2 first =
  if decide (nn = 0 /\ mm = 0) then residL2
  else if decide (nn < 5 /\ mm = 0)
       then fold_left (raise residL2) (range NUMVARS) first
       else first.
Proof. reflexivity. Qed.

(** The second call of [WriteResiduals] finds the reference settled. *)
Lemma normalization_twice (nn mm : Z) (residL2 first : genArray Q) :
  normalization nn mm residL2 (normalization nn mm residL2 first) =
  normalization nn mm residL2 first.
Proof.
  rewrite !normalization_unfold.
  destruct (decide (nn = 0 /\ mm = 0)); [reflexivity |].
  destruct (decide (nn < 5 /\ mm = 0)); [| reflexivity].
  apply raise_all_fixed. intros cc Hcc. now apply raise_all_at.
Qed.

(** The reference is left as it is from the sixth step on, and in every
    subiteration but the first. *)
Lemma normalization_kept (nn mm : Z) (residL2 first : genArray Q) :
  5 <= nn \/ mm <> 0 -> normalization nn mm residL2 first = first.
Proof.
  intros Hk. rewrite normalization_unfold.
  destruct (decide (nn = 0 /\ mm = 0)); [lia |].
  destruct (decide (nn < 5 /\ mm = 0)); [lia | reflexivity].
Qed.

Lemma WriteResiduals_run (inp : input.t Q) (first residL2 : genArray Q)
    (residLinf : resid Q) (matrixResid : Q) (nn mm : Z) (w : world Q) :
  let reference := normalization nn mm residL2 first in
  let row := residualRow inp nn mm residL2 reference residLinf matrixResid in
  exists toFile toCout,
    WriteResiduals inp first residL2 residLinf matrixResid nn mm w =
    (Ok reference,
     World (outFile w ++ toFile ++ row) (cout w ++ toCout ++ row) (cerr w)).
Proof.
  intros reference row. unfold WriteResiduals.
  destruct (PrintHeaders_run inp OutFile) as [hFile HhFile].
  destruct (PrintHeaders_run inp Cout) as [hCout HhCout].
  exists (if decide (nn = 0 /\ mm = 0) then hFile else []),
         (if decide (Z.rem nn 100 = 0 /\ mm = 0) then hCout else []).
  assert (H1 : forall w1,
    (if decide (nn = 0 /\ mm = 0) then PrintHeaders inp OutFile else pret tt)
      w1 =
    (Ok tt,
     emitted OutFile w1 (if decide (nn = 0 /\ mm = 0) then hFile else []))).
  { intros w1. destruct (decide (nn = 0 /\ mm = 0)); [apply HhFile |].
    unfold pret. now rewrite emitted_nil. }
  assert (H2 : forall w1,
    (if decide (Z.rem nn 100 = 0 /\ mm = 0) then PrintHeaders inp Cout
     else pret tt) w1 =
    (Ok tt,
     emitted Cout w1
       (if decide (Z.rem nn 100 = 0 /\ mm = 0) then hCout else []))).
  { intros w1. destruct (decide (Z.rem nn 100 = 0 /\ mm = 0));
      [apply HhCout |].
    unfold pret. now rewrite emitted_nil. }
  rewrite (pbind_Ok _ _ _ _ _ (H1 w)).
  rewrite (pbind_Ok _ _ _ _ _ (H2 _)).
  rewrite (pbind_Ok _ _ _ _ _ (PrintResiduals_run _ _ _ _ _ _ _ _ _)).
  rewrite PrintResiduals_run, normalization_twice.
  fold reference. fold row. destruct w as [f c e].
  unfold emitted. cbn [outFile cout cerr].
  now rewrite <- !app_assoc.
Qed.

(** The first report of a step takes the maximum one step further. *)
Lemma normalization_first_report (tr : solverTrace Q) (n : Z)
    (first : genArray Q) :
  0 <= n ->
  n = 0 \/ maximumOfFirst tr (Z.min (n - 1) 4) first ->
  maximumOfFirst tr (Z.min n 4) (normalization n 0 (traceL2 tr n 0) first).
Proof.
  intros Hn Hpre. rewrite normalization_unfold.
  destruct (decide (n = 0 /\ 0 = 0)) as [[-> _] | Hn0].
  - intros c Hc. split.
    + exists 0. split; [lia | reflexivity].
    + intros n' Hn'. replace n' with 0 by lia. apply Qle_refl.
  - destruct Hpre as [-> | Hpre]; [lia |].
    destruct (decide (n < 5 /\ 0 = 0)) as [[Hlt _] | Hge].
    + replace (Z.min n 4) with n by lia.
      replace (Z.min (n - 1) 4) with (n - 1) in Hpre by lia.
      intros c Hc. destruct (Hpre c Hc) as [(n0 & Hn0' & Heq) Hmax].
      destruct (raise_all_at (traceL2 tr n 0) (range NUMVARS) first c)
        as (Hval & Hcur & Hold); [now apply elem_of_range |].
      split.
      * destruct Hval as [-> | ->].
        -- exists n. split; [lia | reflexivity].
        -- exists n0. split; [lia | exact Heq].
      * intros n' Hn'. destruct (decide (n' = n)) as [-> |]; [exact Hcur |].
        apply Qle_trans with (first c); [apply Hmax; lia | exact Hold].
    + replace (Z.min n 4) with (Z.min (n - 1) 4) by lia. exact Hpre.
Qed.

(** A loop over consecutive indices that keeps an invariant and never
    leaves the program. *)
Lemma forEach_rangeFrom_invariant {St : Type} (I : Z -> St -> Prop)
    (body : Z -> St -> prog Q St) (n : nat) :
  forall (lo : Z) (s : St) (w : world Q),
    (forall i s w, lo <= i < lo + Z.of_nat n -> I i s ->
       exists s' w', body i s w = (Ok s', w') /\ I (i + 1) s') ->
    I lo s ->
    exists s' w',
      forEach (rangeFrom lo (Z.of_nat n)) body s w = (Ok s', w') /\
      I (lo + Z.of_nat n) s'.
Proof.
  induction n as [| n IH]; intros lo s w Hbody HI.
  - exists s, w. split; [reflexivity |]. now rewrite Z.add_0_r.
  - rewrite rangeFrom_S. cbn [forEach].
    destruct (Hbody lo s w ltac:(lia) HI) as (s1 & w1 & Hrun & HI1).
    destruct (IH (lo + 1) s1 w1) as (s2 & w2 & Hloop & HI2).
    + intros i s' w' Hi. apply Hbody. lia.
    + exact HI1.
    + exists s2, w2. rewrite (pbind_Ok _ _ _ _ _ Hrun). split; [exact Hloop |].
      now replace (lo + Z.of_nat (S n)) with (lo + 1 + Z.of_nat n) by lia.
Qed.

Lemma reportSubiterations_invariant (inp : input.t Q) (tr : solverTrace Q)
    (n : Z) (count : nat) (first : genArray Q) (w : world Q) :
  0 <= n -> beforeReport tr n 0 first ->
  exists first' w',
    reportSubiterations inp tr n (Z.of_nat count) first w = (Ok first', w') /\
    beforeReport tr n (Z.of_nat count) first'.
Proof.
  intros Hn Hpre. unfold reportSubiterations, range.
  destruct (forEach_rangeFrom_invariant (beforeReport tr n)
              (fun mm first =>
                 WriteResiduals inp first (traceL2 tr n mm) (traceLinf tr n mm)
                   (traceMatrix tr n mm) n mm) count 0 first w)
    as (s' & w' & Hrun & HI); [| exact Hpre | now exists s', w'].
  intros i s w0 Hi HIi.
  destruct (WriteResiduals_run inp s (traceL2 tr n i) (traceLinf tr n i)
              (traceMatrix tr n i) n i w0) as (tf & tc & Hw).
  eexists _, _. split; [exact Hw |].
  unfold beforeReport in *. destruct (decide (i + 1 = 0)); [lia |].
  destruct (decide (i = 0)) as [-> |].
  - now apply normalization_first_report.
  - now rewrite normalization_kept by (right; assumption).
Qed.

Lemma reportSteps_invariant (inp : input.t Q) (tr : solverTrace Q)
    (nonlinear : Z) (steps : nat) (first : genArray Q) (w : world Q) :
  0 < nonlinear ->
  exists first' w',
    reportSteps inp tr nonlinear (Z.of_nat steps) first w = (Ok first', w') /\
    beforeReport tr (Z.of_nat steps) 0 first'.
Proof.
  intros Hnl. unfold reportSteps, range.
  destruct (forEach_rangeFrom_invariant (fun n => beforeReport tr n 0)
              (fun nn first => reportSubiterations inp tr nn nonlinear first)
              steps 0 first w)
    as (s' & w' & Hrun & HI); [| now left | now exists s', w'].
  intros i s w0 Hi HIi.
  destruct (reportSubiterations_invariant inp tr i (Z.to_nat nonlinear) s w0)
    as (s1 & w1 & Hrun & H1); [lia | exact HIi |].
  rewrite Z2Nat.id in Hrun, H1 by lia.
  exists s1, w1. split; [exact Hrun |].
  unfold beforeReport in *. destruct (decide (nonlinear = 0)); [lia |].
  destruct (decide (0 = 0)); [| lia]. right.
  now replace (i + 1 - 1) with i by lia.
Qed.

Lemma range_succ (m : Z) : 0 <= m -> range (m + 1) = range m ++ [m].
Proof.
  intros Hm. unfold range, rangeFrom.
  replace (Z.to_nat (m + 1)) with (S (Z.to_nat m)) by lia.
  rewrite seq_S, map_app. simpl. do 2 f_equal. lia.
Qed.

Lemma forEach_single {S X : Type} (x : X) (body : X -> S -> prog Q S)
    (s : S) (w : world Q) :
  forEach [x] body s w = body x s w.
Proof.
  cbn [forEach]. unfold pbind, pret.
  destruct (body x s w) as [[s' | c |] w']; reflexivity.
Qed.

(** C3.  In a run of [nonlinear] subiterations per step, the line reported
    at step [n] and subiteration [m], on the standard output and in the
    residual file, shows for every equation (L2 + EPS) / (L2_ref + EPS),
    where L2_ref is, equation by equation, the largest of the L2 residuals
    of the first subiteration of the steps 0 .. min(n, 4); and no report of
    a step n >= 5 changes L2_ref. *)
Theorem residuals_normalized_by_maximum_of_first_five_steps
    (inp : input.t Q) (tr : solverTrace Q) (nonlinear n m : Z)
    (first0 : genArray Q) (w : world Q) :
  0 <= n -> 0 <= m < nonlinear ->
  (exists reference w' toCout toFile,
     reportUpTo inp tr nonlinear n m first0 w = (Ok reference, w') /\
     cout w' =
       toCout ++ residualRow inp n m (traceL2 tr n m) reference
                   (traceLinf tr n m) (traceMatrix tr n m) /\
     outFile w' =
       toFile ++ residualRow inp n m (traceL2 tr n m) reference
                   (traceLinf tr n m) (traceMatrix tr n m) /\
     maximumOfFirst tr (Z.min n 4) reference) /\
  (forall nn mm residL2 first residLinf matrixResid os w0,
     5 <= nn ->
     (PrintResiduals inp first residL2 residLinf matrixResid nn mm os w0).1
       = Ok first).
Proof.
  intros Hn Hm. split.
  - unfold reportUpTo.
    destruct (reportSteps_invariant inp tr nonlinear (Z.to_nat n) first0 w)
      as (s0 & w0 & Hsteps & H0); [lia |].
    rewrite Z2Nat.id in Hsteps, H0 by lia.
    rewrite (pbind_Ok _ _ _ _ _ Hsteps).
    destruct (reportSubiterations_invariant inp tr n (Z.to_nat m) s0 w0)
      as (s1 & w1 & Hsub & H1); [lia | exact H0 |].
    rewrite Z2Nat.id in Hsub, H1 by lia.
    unfold reportSubiterations in *.
    rewrite range_succ, forEach_app, (pbind_Ok _ _ _ _ _ Hsub) by lia.
    rewrite forEach_single.
    destruct (WriteResiduals_run inp s1 (traceL2 tr n m) (traceLinf tr n m)
                (traceMatrix tr n m) n m w1) as (tf & tc & Hw).
    eexists _, _, (cout w1 ++ tc), (outFile w1 ++ tf).
    split; [exact Hw |]. cbn [cout outFile].
    split; [now rewrite app_assoc |]. split; [now rewrite app_assoc |].
    unfold beforeReport in H1. destruct (decide (m = 0)) as [-> |].
    + now apply normalization_first_report.
    + now rewrite normalization_kept by (right; assumption).
  - intros nn mm residL2 first residLinf matrixResid os w0 Hnn.
    rewrite PrintResiduals_run. cbn [fst].
    now rewrite normalization_kept by (left; assumption).
Qed.

(** C6.  At the first report (step 0, subiteration 0) the reference is set
    to the current L2 residual, whatever it was before, and the line shows
    for every equation (L2 + EPS) / (L2 + EPS), which is 1 and so not more
    than 1, for residuals that are not negative and a positive EPS. *)
Theorem first_report_is_normalized_by_itself
    (inp : input.t Q) (first residL2 : genArray Q) (residLinf : resid Q)
    (matrixResid : Q) (os : stream) (w : world Q) :
  (0 < EPS)%Q ->
  (forall c, (0 <= residL2 c)%Q) ->
  PrintResiduals inp first residL2 residLinf matrixResid 0 0 os w =
    (Ok residL2,
     emitted os w (residualRow inp 0 0 residL2 residL2 residLinf matrixResid))
  /\
  (forall c,
      (ddiv (dadd (residL2 c) EPS) (dadd (residL2 c) EPS) == 1)%Q /\
      (ddiv (dadd (residL2 c) EPS) (dadd (residL2 c) EPS) <= 1)%Q).
Proof.
  intros Heps Hpos. split.
  - rewrite PrintResiduals_run. reflexivity.
  - intros c. cbn [ddiv dadd Double_Q].
    assert (Hone : ((residL2 c + EPS) / (residL2 c + EPS) == 1)%Q).
    { apply Qmult_inv_r. specialize (Hpos c). lra. }
    split; [exact Hone |]. rewrite Hone. apply Qle_refl.
Qed.
End ResidualsOverQ.

(** A run whose residuals fall from step to step, for the worked examples:
    the L2 residual of every equation is 10 - n at step n. *)
Lemma residuals_normalized_by_maximum_of_first_five_steps_witness :
  let tr := SolverTrace Q (fun n _ _ => inject_Z (10 - n))
              (fun _ _ => Resid Q 1%Q 0 0 0 0 0) (fun _ _ => 0%Q) in
  exists reference w' toCout toFile,
    reportUpTo (requestOf ["density"] 1%Q) tr 2 6 1 (fun _ => 0%Q) emptyWorld
      = (Ok reference, w') /\
    cout w' =
      toCout ++ residualRow (requestOf ["density"] 1%Q) 6 1 (traceL2 tr 6 1)
                  reference (traceLinf tr 6 1) (traceMatrix tr 6 1) /\
    outFile w' =
      toFile ++ residualRow (requestOf ["density"] 1%Q) 6 1 (traceL2 tr 6 1)
                  reference (traceLinf tr 6 1) (traceMatrix tr 6 1) /\
    maximumOfFirst tr (Z.min 6 4) reference.
Proof.
  exact (proj1
           (residuals_normalized_by_maximum_of_first_five_steps
              (requestOf ["density"] 1%Q)
              (SolverTrace Q (fun n _ _ => inject_Z (10 - n))
                 (fun _ _ => Resid Q 1%Q 0 0 0 0 0) (fun _ _ => 0%Q))
              2 6 1 (fun _ => 0%Q) emptyWorld
              ltac:(lia) ltac:(lia))).
Defined.

(** The first report of a run restarted from a converged solution, whose
    residuals are zero. *)
Lemma first_report_is_normalized_by_itself_witness :
  PrintResiduals (requestOf ["density"] 1%Q) (fun _ => 5%Q) (fun _ => 0%Q)
    (Resid Q 0%Q 0 0 0 0 0) 0%Q 0 0 Cout emptyWorld =
    (Ok (fun _ => 0%Q),
     emitted Cout emptyWorld
       (residualRow (requestOf ["density"] 1%Q) 0 0 (fun _ => 0%Q)
          (fun _ => 0%Q) (Resid Q 0%Q 0 0 0 0 0) 0%Q)) /\
  (forall c : Z,
      (ddiv (dadd 0 EPS) (dadd 0 EPS) == 1)%Q /\
      (ddiv (dadd 0 EPS) (dadd 0 EPS) <= 1)%Q).
Proof.
  apply (first_report_is_normalized_by_itself
           (requestOf ["density"] 1%Q) (fun _ => 5%Q) (fun _ => 0%Q)
           (Resid Q 0%Q 0 0 0 0 0) 0%Q Cout emptyWorld).
  - reflexivity.
  - intros c. discriminate.
Defined.

(** * Further properties of the output layer *)

(** ** Loops over the blocks of a vector *)

Lemma rangeFrom_shift (lo n : Z) : rangeFrom lo n = map (Z.add lo) (range n).
Proof.
  unfold range, rangeFrom. rewrite map_map. apply map_ext. intros p. lia.
Qed.

Lemma flat_map_rangeFrom {Y} (f : Z -> list Y) (lo n : Z) :
  flat_map f (rangeFrom lo n) = flat_map (fun i => f (lo + i)) (range n).
Proof.
  rewrite rangeFrom_shift.
  induction (range n) as [| i l IH]; [reflexivity |].
  cbn [map flat_map]. now rewrite IH.
Qed.

Lemma flat_map_vat {X Y} (out : Z -> X -> list Y) (rest : list X) :
  forall pre : list X,
    flat_map (fun ll => match vat (pre ++ rest) ll with
                        | Some b => out ll b
                        | None => []
                        end)
      (rangeFrom (Z.of_nat (length pre)) (Z.of_nat (length rest)))
    = concat (imap (fun n b => out (Z.of_nat (length pre + n)) b) rest).
Proof.
  induction rest as [| b rest IH]; intros pre; [reflexivity |].
  cbn [length]. rewrite rangeFrom_S. cbn [flat_map imap concat].
  assert (Hb : vat (pre ++ b :: rest) (Z.of_nat (length pre)) = Some b).
  { apply vat_Some. split; [lia |]. rewrite Nat2Z.id.
    now rewrite lookup_app_r, Nat.sub_diag by lia. }
  rewrite Hb, Nat.add_0_r. f_equal.
  specialize (IH (pre ++ [b])). rewrite length_app in IH. cbn [length] in IH.
  rewrite <- app_assoc in IH. cbn [app] in IH.
  replace (Z.of_nat (length pre) + 1) with (Z.of_nat (length pre + 1)) by lia.
  rewrite IH. f_equal. apply imap_ext. intros n x _. cbn.
  do 2 f_equal. lia.
Qed.

(** A loop over the block numbers whose passes only insert items in the
    output file. *)
Lemma forEach__blocks {D X} (blocks : list X) (out : Z -> X -> list (item D))
    (body : Z -> X -> prog D unit) (w : world D) :
  (forall ll b w, vat blocks ll = Some b ->
     body ll b w = (Ok tt, emitted OutFile w (out ll b))) ->
  forEach_ (range (Z.of_nat (length blocks)))
    (fun ll => b <~ defined (vat blocks ll) ;; body ll b) w
  = (Ok tt,
     emitted OutFile w (concat (imap (fun n b => out (Z.of_nat n) b) blocks))).
Proof.
  intros Hbody.
  pose proof (flat_map_vat out blocks []) as Hflat.
  cbn [length app Nat.add] in Hflat. change (Z.of_nat 0) with 0 in Hflat.
  fold (range (Z.of_nat (length blocks))) in Hflat.
  rewrite <- Hflat.
  apply forEach__emits. intros ll Hll w1.
  apply elem_of_range in Hll.
  destruct (vat_in_range blocks ll Hll) as [b Hb].
  rewrite Hb. unfold pbind, defined, pret.
  now apply Hbody.
Qed.

Lemma concat_imap_const {X Y} (out : X -> list Y) (l : list X) :
  concat (imap (fun _ b => out b) l) = flat_map out l.
Proof.
  induction l as [| x l IH]; [reflexivity |].
  cbn [imap concat flat_map]. f_equal. exact IH.
Qed.

(** ** WriteCellCenter *)

(** The three loops over the ghosted indices visit the physical cells in
    the order of [cellOrder]. *)
Lemma ghosted_loops_cellOrder {D Y} (b : procBlock D) (g : Z -> Z -> Z -> Y) :
  flat_map (fun kk =>
    flat_map (fun jj =>
      flat_map (fun ii => [g ii jj kk])
        (rangeFrom (NumGhosts b) (NumI b)))
      (rangeFrom (NumGhosts b) (NumJ b)))
    (rangeFrom (NumGhosts b) (NumK b))
  = map (fun c : Z * Z * Z =>
           g (NumGhosts b + c.1.1) (NumGhosts b + c.1.2) (NumGhosts b + c.2))
        (cellOrder b).
Proof.
  unfold cellOrder. rewrite map_flat_map', flat_map_rangeFrom.
  apply flat_map_same. intros kk.
  rewrite map_flat_map', flat_map_rangeFrom.
  apply flat_map_same. intros jj.
  now rewrite map_map, flat_map_rangeFrom, flat_map_single.
Qed.

(** X1.  When the file opens (and [Recombine] is defined) [WriteCellCenter]
    ends normally and the file holds exactly: the number of recombined
    blocks; the three cell counts of every block; then for every block all x
    coordinates of the cell centres times [LRef], i fastest and k slowest,
    then all y, then all z.  Nothing goes to the other streams. *)
Theorem WriteCellCenter_writes_the_centre_file_layout
    `{Double D} `{Collaborators D} (gridName : string)
    (vars recombVars : list (procBlock D)) (decomp : decomposition)
    (LRef : D) (w : world D) :
  Recombine vars decomp = Some recombVars ->
  WriteCellCenter gridName vars decomp LRef true w =
  (Ok tt, emitted OutFile w (centerFileLayout LRef recombVars)).
Proof.
  intros Hrec. unfold WriteCellCenter. rewrite Hrec.
  change (defined (D := D) (Some recombVars)) with (pret (D := D) recombVars).
  rewrite pbind_pret. cbn [negb]. rewrite pbind_pret.
  rewrite pbind_put.
  rewrite (pbind_Ok _ _ _ _ tt
             (forEach__blocks recombVars
                (fun _ b => [I32 (NumI b); I32 (NumJ b); I32 (NumK b)])
                (fun _ b => put OutFile (I32 (NumI b)) ;;
                            put OutFile (I32 (NumJ b)) ;;
                            put OutFile (I32 (NumK b))) _
                (fun ll b w1 _ => eq_trans
                   (pbind_put _ _ _ _)
                   (eq_trans (pbind_put _ _ _ _)
                      (eq_trans (put_run _ _ _)
                         (f_equal (pair (Ok tt))
                            (eq_trans (f_equal (fun x => emitted OutFile x _)
                                         (emitted_app _ _ _ _))
                                      (emitted_app _ _ _ _)))))))).
  rewrite (forEach__blocks recombVars
             (fun _ b => centerCoordinates LRef b 0
                         ++ centerCoordinates LRef b 1
                         ++ centerCoordinates LRef b 2)).
  - rewrite !concat_imap_const, !emitted_app. reflexivity.
  - intros ll b w1 _.
    replace (centerCoordinates LRef b 0 ++ centerCoordinates LRef b 1
             ++ centerCoordinates LRef b 2)
      with (flat_map (centerCoordinates LRef b) (range 3))
      by (change (range 3) with [0; 1; 2]; cbn [flat_map];
          now rewrite app_nil_r).
    apply forEach__emits. intros nn _ w2.
    unfold centerCoordinates.
    rewrite <- (ghosted_loops_cellOrder b
                  (fun ii jj kk =>
                     F64 (vcomp (vscale (Center b ii jj kk) LRef) nn))).
    apply forEach__emits. intros kk _ w3.
    apply forEach__emits. intros jj _ w4.
    apply forEach__emits. intros ii _ w5.
    apply put_run.
Qed.

Lemma WriteCellCenter_writes_the_centre_file_layout_witness :
  WriteCellCenter "grid" [boxBlock 2 1 1] (noSplits 1) 3%Q true emptyWorld =
  (Ok tt, emitted OutFile emptyWorld (centerFileLayout 3%Q [boxBlock 2 1 1])).
Proof.
  exact (WriteCellCenter_writes_the_centre_file_layout "grid"
           [boxBlock 2 1 1] [boxBlock 2 1 1] (noSplits 1) 3%Q emptyWorld
           eq_refl).
Defined.

(** ** WriteFun: edge cases *)

(** X2.  With no recombined block [WriteFun] writes the block count 0 and
    ends normally, whatever names are requested: the chain of comparisons is
    only reached inside the loop over the blocks, so a name it does not know
    goes unnoticed. *)
Theorem WriteFun_without_blocks_writes_only_the_count
    `{Double D} `{Collaborators D} (vars : list (procBlock D))
    (eqnState : idealGas D) (suth : sutherland D) (decomp : decomposition)
    (inp : input.t D) (solIter : Z) (w : world D) :
  Recombine vars decomp = Some [] ->
  WriteFun vars eqnState suth decomp inp solIter true w =
  (Ok tt, emitted OutFile w [I32 0]).
Proof.
  intros Hrec. unfold WriteFun. rewrite Hrec.
  change (defined (D := D) (Some [])) with (pret (D := D) (@nil (procBlock D))).
  rewrite pbind_pret. cbn [negb]. rewrite pbind_pret.
  rewrite pbind_put. reflexivity.
Qed.

Lemma WriteFun_without_blocks_writes_only_the_count_witness :
  WriteFun [] (gasWithSoS 2%Q) (Sutherland Q 1%Q) (noSplits 0)
    (requestOf ["bogus"] 2%Q) 0 true emptyWorld =
  (Ok tt, emitted OutFile emptyWorld [I32 0]).
Proof.
  exact (WriteFun_without_blocks_writes_only_the_count
           [] (gasWithSoS 2%Q) (Sutherland Q 1%Q) (noSplits 0)
           (requestOf ["bogus"] 2%Q) 0 emptyWorld eq_refl).
Defined.

(** X3.  For a mesh that was not decomposed (no split recorded) the pass
    over "rank" writes, for every cell of block [ll], the rank of block [ll]
    itself, and the pass over "globalPosition" its global position, both as
    stored (no scale factor). *)
Theorem WriteFun_rank_of_undivided_block
    `{Double D} `{Collaborators D} (vars : list (procBlock D))
    (eqnState : idealGas D) (suth : sutherland D) (decomp : decomposition)
    (inp : input.t D) (refSoS : D) (ll : Z) (b : procBlock D)
    (dumArr : array3 D) (w : world D) :
  splitHist decomp = [] ->
  vat vars ll = Some b ->
  Recombine vars decomp = Some vars /\
  (exists dumArr',
     outputVariable vars eqnState suth decomp inp refSoS vars ll b "rank"
       dumArr w =
     (Ok dumArr',
      emitted OutFile w (map (fun _ => F64 (dofZ (Rank b))) (cellOrder b)))) /\
  (exists dumArr',
     outputVariable vars eqnState suth decomp inp refSoS vars ll b
       "globalPosition" dumArr w =
     (Ok dumArr',
      emitted OutFile w
        (map (fun _ => F64 (dofZ (GlobalPos b))) (cellOrder b)))).
Proof.
  intros Hnone Hb.
  assert (Hsbn : forall ii jj kk,
             SplitBlockNumber vars decomp ll ii jj kk = Some ll).
  { intros ii jj kk. unfold SplitBlockNumber, NumSplits. rewrite Hnone.
    reflexivity. }
  split; [unfold Recombine; now rewrite Hnone |]. split.
  - apply (outputVariable_run vars eqnState suth decomp inp refSoS vars ll b
             "rank"
             (fun ii jj kk =>
                n ← SplitBlockNumber vars decomp ll ii jj kk;
                sb ← vat vars n; Some (dofZ (Rank sb)))
             (fun _ _ _ => dofZ (Rank b))); [reflexivity |].
    intros ii jj kk _. rewrite Hsbn. cbn. now rewrite Hb.
  - apply (outputVariable_run vars eqnState suth decomp inp refSoS vars ll b
             "globalPosition"
             (fun ii jj kk =>
                n ← SplitBlockNumber vars decomp ll ii jj kk;
                sb ← vat vars n; Some (dofZ (GlobalPos sb)))
             (fun _ _ _ => dofZ (GlobalPos b))); [reflexivity |].
    intros ii jj kk _. rewrite Hsbn. cbn. now rewrite Hb.
Qed.

Lemma WriteFun_rank_of_undivided_block_witness :
  Recombine [boxBlock 2 1 1] (noSplits 1) = Some [boxBlock 2 1 1] /\
  (exists dumArr',
     outputVariable [boxBlock 2 1 1] (gasWithSoS 2%Q) (Sutherland Q 1%Q)
       (noSplits 1) (requestOf ["rank"] 2%Q) 2%Q [boxBlock 2 1 1] 0
       (boxBlock 2 1 1) "rank" (fun _ _ _ => 0%Q) emptyWorld =
     (Ok dumArr',
      emitted OutFile emptyWorld
        (map (fun _ => F64 (dofZ (Rank (boxBlock 2 1 1))))
             (cellOrder (boxBlock 2 1 1))))).
Proof.
  pose proof (WriteFun_rank_of_undivided_block
                [boxBlock 2 1 1] (gasWithSoS 2%Q) (Sutherland Q 1%Q)
                (noSplits 1) (requestOf ["rank"] 2%Q) 2%Q 0 (boxBlock 2 1 1)
                (fun _ _ _ => 0%Q) emptyWorld eq_refl eq_refl)
    as (Hrec & Hrank & _).
  split; [exact Hrec | exact Hrank].
Defined.

(** ** WriteFun: the scale factors *)

(** X4.  The chain of scale factors of [WriteFun], which mixes comparisons
    of the whole name with searches for a part of it, multiplies every
    variable of a family of the spec's table by the factor of that family,
    for each of the names of the family; the four names "mach", "rank",
    "globalPosition" and "viscosityRatio" are written as stored; and these,
    with "dt", are all the names the program knows. *)
Theorem dimensionalize_follows_the_table `{Double D}
    (suth : sutherland D) (inp : input.t D) (refSoS : D) :
  (forall names factor var x,
      (names, factor) ∈ scaleFamilies suth inp refSoS -> var ∈ names ->
      dimensionalize suth inp refSoS var x = dmul x factor) /\
  (forall var x,
      var ∈ unscaledVariables -> dimensionalize suth inp refSoS var x = x) /\
  (forall var,
      var ∈ recognizedVariables ->
      var = "dt" \/ var ∈ unscaledVariables \/
      var ∈ flat_map fst (scaleFamilies suth inp refSoS)).
Proof.
  split; [| split].
  - intros names factor var x Hfam Hvar. unfold scaleFamilies in Hfam.
    repeat (apply elem_of_cons in Hfam as [[= -> ->] | Hfam];
            [repeat (apply elem_of_cons in Hvar as [-> | Hvar];
                     [reflexivity |]);
             now apply elem_of_nil in Hvar |]).
    now apply elem_of_nil in Hfam.
  - intros var x Hvar. unfold unscaledVariables in Hvar.
    repeat (apply elem_of_cons in Hvar as [-> | Hvar]; [reflexivity |]).
    now apply elem_of_nil in Hvar.
  - intros var Hvar. unfold recognizedVariables in Hvar.
    cbn [scaleFamilies flat_map fst app].
    repeat (apply elem_of_cons in Hvar as [-> | Hvar];
            [first [ left; reflexivity
                   | right; left; apply (bool_decide_unpack _);
                     vm_compute; exact I
                   | right; right; apply (bool_decide_unpack _);
                     vm_compute; exact I ] |]).
    now apply elem_of_nil in Hvar.
Qed.

Lemma dimensionalize_follows_the_table_witness :
  dimensionalize (Sutherland Q 1%Q) (requestOf ["velGrad_wy"] 2%Q) 3%Q
    "velGrad_wy" 5%Q = dmul 5%Q (ddiv 3%Q 2%Q).
Proof.
  refine (proj1 (dimensionalize_follows_the_table
                   (Sutherland Q 1%Q) (requestOf ["velGrad_wy"] 2%Q) 3%Q)
            ["velGrad_ux"; "velGrad_vx"; "velGrad_wx"; "velGrad_uy";
             "velGrad_vy"; "velGrad_wy"; "velGrad_uz"; "velGrad_vz";
             "velGrad_wz"] (ddiv 3%Q 2%Q) "velGrad_wy" 5%Q _ _).
  - unfold scaleFamilies. do 7 apply list_elem_of_further.
    apply list_elem_of_here.
  - do 5 apply list_elem_of_further. apply list_elem_of_here.
Defined.

(** ** The residual table *)

Lemma PrintHeaders_headerRow `{Double D} (inp : input.t D) (os : stream)
    (w : world D) :
  PrintHeaders inp os w = (Ok tt, emitted os w (headerRow inp)).
Proof.
  unfold PrintHeaders, headerRow.
  destruct (dgtb (input.Dt inp) (dofZ 0)),
    (dgtb (input.CFL inp) (dofZ 0)), (input.IsTurbulent inp);
    repeat (rewrite pbind_assoc || rewrite pbind_put || rewrite pbind_pret);
    rewrite put_run, ?emitted_app; reflexivity.
Qed.

(** X5.  [PrintHeaders] writes one line of column titles, and every line of
    [PrintResiduals] has as many fields as that line has titles, for every
    input: the optional time-step column and the two turbulence columns are
    present in both or in neither. *)
Theorem headers_and_residuals_have_the_same_columns
    `{Double D} `{Macros D} (inp : input.t D)
    (residL2First residL2 : genArray D) (residLinf : resid D)
    (matrixResid : D) (nn mm : Z) (os : stream) (w : world D) :
  exists titles fields reference,
    PrintHeaders inp os w = (Ok tt, emitted os w titles) /\
    PrintResiduals inp residL2First residL2 residLinf matrixResid nn mm os w
      = (Ok reference, emitted os w fields) /\
    length titles = length fields /\
    last titles = Some Endl /\ last fields = Some Endl.
Proof.
  exists (headerRow inp),
    (residualRow inp nn mm residL2
       (normalization nn mm residL2 residL2First) residLinf matrixResid),
    (normalization nn mm residL2 residL2First).
  split; [apply PrintHeaders_headerRow |].
  split; [apply PrintResiduals_run |].
  unfold headerRow, residualRow, stepColumn, residualEquations.
  destruct (dgtb (input.Dt inp) (dofZ 0)),
    (dgtb (input.CFL inp) (dofZ 0)), (input.IsTurbulent inp);
    repeat split; reflexivity.
Qed.

Section ResidualReportsOverQ.
Context `{Macros Q}.

(** X6.  One call of [WriteResiduals] puts the same line on the standard
    output and in the residual file (the second call of [PrintResiduals]
    finds the reference already settled by the first), preceded in the file
    by the titles at the very first report only, and on the standard output
    by the titles at the first subiteration of every hundredth step; the
    error stream is not touched. *)
Theorem WriteResiduals_same_line_on_both_streams
    (inp : input.t Q) (first residL2 : genArray Q) (residLinf : resid Q)
    (matrixResid : Q) (nn mm : Z) (w : world Q) :
  let reference := normalization nn mm residL2 first in
  let row := residualRow inp nn mm residL2 reference residLinf matrixResid in
  WriteResiduals inp first residL2 residLinf matrixResid nn mm w =
  (Ok reference,
   World
     (outFile w
      ++ (if decide (nn = 0 /\ mm = 0) then headerRow inp else []) ++ row)
     (cout w
      ++ (if decide (Z.rem nn 100 = 0 /\ mm = 0) then headerRow inp else [])
      ++ row)
     (cerr w)).
Proof.
  intros reference row. unfold WriteResiduals.
  assert (H1 : forall w1,
    (if decide (nn = 0 /\ mm = 0) then PrintHeaders inp OutFile else pret tt)
      w1 =
    (Ok tt,
     emitted OutFile w1
       (if decide (nn = 0 /\ mm = 0) then headerRow inp else []))).
  { intros w1. destruct (decide (nn = 0 /\ mm = 0));
      [apply PrintHeaders_headerRow |].
    unfold pret. now rewrite emitted_nil. }
  assert (H2 : forall w1,
    (if decide (Z.rem nn 100 = 0 /\ mm = 0) then PrintHeaders inp Cout
     else pret tt) w1 =
    (Ok tt,
     emitted Cout w1
       (if decide (Z.rem nn 100 = 0 /\ mm = 0) then headerRow inp else []))).
  { intros w1. destruct (decide (Z.rem nn 100 = 0 /\ mm = 0));
      [apply PrintHeaders_headerRow |].
    unfold pret. now rewrite emitted_nil. }
  rewrite (pbind_Ok _ _ _ _ _ (H1 w)).
  rewrite (pbind_Ok _ _ _ _ _ (H2 _)).
  rewrite (pbind_Ok _ _ _ _ _ (PrintResiduals_run _ _ _ _ _ _ _ _ _)).
  rewrite PrintResiduals_run, normalization_twice.
  fold reference. fold row. destruct w as [f c e].
  unfold emitted. cbn [outFile cout cerr].
  now rewrite <- !app_assoc.
Qed.

(** X7.  At the first subiteration of each of the first five steps the
    reference of every equation is at least the current residual after the
    update, so every value shown on that line is at most 1, for residuals
    that are not negative and a positive EPS. *)
Theorem first_five_steps_report_at_most_one
    (inp : input.t Q) (first residL2 : genArray Q) (residLinf : resid Q)
    (matrixResid : Q) (nn c : Z) (os : stream) (w : world Q) :
  (0 < EPS)%Q -> (forall e, (0 <= residL2 e)%Q) ->
  0 <= nn < 5 -> 0 <= c < NUMVARS ->
  let reference := normalization nn 0 residL2 first in
  PrintResiduals inp first residL2 residLinf matrixResid nn 0 os w =
    (Ok reference,
     emitted os w
       (residualRow inp nn 0 residL2 reference residLinf matrixResid)) /\
  (residL2 c <= reference c)%Q /\
  (ddiv (dadd (residL2 c) EPS) (dadd (reference c) EPS) <= 1)%Q.
Proof.
  intros Heps Hpos Hnn Hc reference.
  split; [apply PrintResiduals_run |].
  assert (Hle : (residL2 c <= reference c)%Q).
  { unfold reference. rewrite normalization_unfold.
    destruct (decide (nn = 0 /\ 0 = 0)); [apply Qle_refl |].
    destruct (decide (nn < 5 /\ 0 = 0)); [| lia].
    apply raise_all_at. now apply elem_of_range. }
  split; [exact Hle |]. cbn [ddiv dadd Double_Q].
  specialize (Hpos c).
  apply Qle_shift_div_r; lra.
Qed.
End ResidualReportsOverQ.

Lemma first_five_steps_report_at_most_one_witness :
  PrintResiduals (requestOf ["density"] 1%Q) (fun _ => 5%Q) (fun _ => 7%Q)
    (Resid Q 0%Q 0 0 0 0 0) 0%Q 3 0 Cout emptyWorld =
    (Ok (normalization 3 0 (fun _ => 7%Q) (fun _ => 5%Q)),
     emitted Cout emptyWorld
       (residualRow (requestOf ["density"] 1%Q) 3 0 (fun _ => 7%Q)
          (normalization 3 0 (fun _ => 7%Q) (fun _ => 5%Q))
          (Resid Q 0%Q 0 0 0 0 0) 0%Q)) /\
  (7 <= normalization 3 0 (fun _ => 7%Q) (fun _ => 5%Q) 2%Z)%Q /\
  (ddiv (dadd 7%Q EPS)
        (dadd (normalization 3 0 (fun _ => 7%Q) (fun _ => 5%Q) 2%Z) EPS)
   <= 1)%Q.
Proof.
  apply (first_five_steps_report_at_most_one
           (requestOf ["density"] 1%Q) (fun _ => 5%Q) (fun _ => 7%Q)
           (Resid Q 0%Q 0 0 0 0 0) 0%Q 3 2 Cout emptyWorld).
  - reflexivity.
  - intros e. discriminate.
  - lia.
  - simpl. lia.
Defined.

(** ** Recombine: when it is defined *)

Lemma splitsAppend_app (h : list split) (s : split) :
  forall n,
    splitsAppend (h ++ [s]) n ->
    splitsAppend h n /\ blkUpper s = n + Z.of_nat (length h) /\
    0 <= blkLower s < n + Z.of_nat (length h).
Proof.
  induction h as [| s0 h IH]; intros n Hs.
  - cbn in Hs. cbn. split; [exact I | lia].
  - cbn [app splitsAppend] in Hs. destruct Hs as (Hup & Hlow & Hrest).
    destruct (IH (n + 1) Hrest) as (Hh & Hups & Hlows).
    cbn [splitsAppend length]. repeat split; try assumption; lia.
Qed.

Lemma RecombineLoop_defined `{Collaborators D} (numBlks : Z)
    (hist : list split) :
  forall vars : list (procBlock D),
    0 <= numBlks -> splitsAppend hist numBlks ->
    Z.of_nat (length vars) = numBlks + Z.of_nat (length hist) ->
    exists recombVars,
      RecombineLoop (rev hist) vars = Some recombVars /\
      Z.of_nat (length recombVars) = numBlks /\
      forall n x, n ∉ map blkLower hist -> 0 <= n < numBlks ->
        vat vars n = Some x -> vat recombVars n = Some x.
Proof.
  induction hist as [| s h IH] using rev_ind; intros vars HR Hs Hlen.
  - exists vars. cbn in *. repeat split; [lia | auto].
  - apply splitsAppend_app in Hs as (Hh & Hup & Hlow).
    rewrite length_app in Hlen. cbn [length] in Hlen.
    rewrite rev_app_distr. cbn [rev app RecombineLoop].
    destruct (vat_in_range vars (blkLower s)) as [lowerB HlB]; [lia |].
    destruct (vat_in_range vars (blkUpper s)) as [upperB HuB]; [lia |].
    destruct (RecombineStep vars s) as [joined |] eqn:Hstep.
    2: { unfold RecombineStep in Hstep. rewrite HlB, HuB in Hstep.
         discriminate. }
    destruct (RecombineStep_joins _ _ _ Hstep)
      as (Hlenj & lowerB' & upperB' & _ & _ & Hother).
    destruct (IH joined HR Hh) as (r & Hr & Hlenr & Hkeep); [lia |].
    exists r. cbn [mbind option_bind]. split; [exact Hr |].
    split; [exact Hlenr |].
    intros n x Hn Hrange Hx.
    rewrite map_app in Hn. apply not_elem_of_app in Hn as [Hnh Hns].
    cbn in Hns. apply not_elem_of_cons in Hns as [Hne _].
    apply Hkeep; [exact Hnh | exact Hrange |].
    rewrite Hother by lia.
    destruct (decide (n = blkLower s)); [contradiction | exact Hx].
Qed.

(** X8.  For a history in which every split appends its upper child at the
    end of the block vector and cuts a block that exists, and a vector of as
    many blocks as the mesh had plus one for each split, [Recombine] is
    defined (no index leaves the vector), returns as many blocks as the mesh
    had before the splits, and returns the blocks that no split cut exactly
    as they were given. *)
Theorem Recombine_defined_for_appending_splits `{Collaborators D}
    (vars : list (procBlock D)) (decomp : decomposition) (numBlks : Z) :
  0 <= numBlks ->
  splitsAppend (splitHist decomp) numBlks ->
  Z.of_nat (length vars) = numBlks + NumSplits decomp ->
  exists recombVars,
    Recombine vars decomp = Some recombVars /\
    Z.of_nat (length recombVars) = numBlks /\
    forall n x, n ∉ map blkLower (splitHist decomp) -> 0 <= n < numBlks ->
      vat vars n = Some x -> vat recombVars n = Some x.
Proof.
  intros HR Hs Hlen. now apply RecombineLoop_defined.
Qed.

Lemma Recombine_defined_for_appending_splits_witness :
  exists recombVars,
    Recombine [boxBlock 5 1 1; boxBlock 4 4 4; boxBlock 2 1 1; boxBlock 3 1 1]
      (Decomposition [0; 1; 0; 0] [Split 0 2 5 "i"; Split 2 3 2 "i"])
      = Some recombVars /\
    Z.of_nat (length recombVars) = 2 /\
    forall n x,
      n ∉ map blkLower [Split 0 2 5 "i"; Split 2 3 2 "i"] -> 0 <= n < 2 ->
      vat [boxBlock 5 1 1; boxBlock 4 4 4; boxBlock 2 1 1; boxBlock 3 1 1] n
        = Some x ->
      vat recombVars n = Some x.
Proof.
  apply (Recombine_defined_for_appending_splits
           [boxBlock 5 1 1; boxBlock 4 4 4; boxBlock 2 1 1; boxBlock 3 1 1]
           (Decomposition [0; 1; 0; 0] [Split 0 2 5 "i"; Split 2 3 2 "i"]) 2).
  - lia.
  - simpl. repeat split; lia.
  - reflexivity.
Defined.

(** ** SplitBlockNumber: what it can return *)

Lemma SplitBlockNumberLoop_names (decomp : decomposition)
    (numBlks blk ii jj kk : Z) (hist : list split) :
  forall (ss : Z) (blkDims : list extents) (ind n : Z),
    SplitBlockNumberLoop decomp numBlks blk ii jj kk hist ss blkDims ind
      = Some n ->
    n = ind \/
    exists (k : nat) (s : split),
      hist !! k = Some s /\
      ParentBlock decomp (ss + Z.of_nat k + numBlks) = Some blk /\
      (n = blkLower s \/ n = blkUpper s).
Proof.
  induction hist as [| s later IH]; intros ss blkDims ind n Hn.
  - left. now injection Hn as <-.
  - cbn [SplitBlockNumberLoop] in Hn.
    destruct (ParentBlock decomp (ss + numBlks)) as [par |] eqn:Hpar;
      [| discriminate].
    cbn [mbind option_bind] in Hn.
    assert (Hlater : forall ind',
      (n = ind' \/
       exists (k : nat) (s' : split),
         later !! k = Some s' /\
         ParentBlock decomp (ss + 1 + Z.of_nat k + numBlks) = Some blk /\
         (n = blkLower s' \/ n = blkUpper s')) ->
      n = ind' \/
      exists (k : nat) (s' : split),
        (s :: later) !! k = Some s' /\
        ParentBlock decomp (ss + Z.of_nat k + numBlks) = Some blk /\
        (n = blkLower s' \/ n = blkUpper s')).
    { intros ind' [-> | (k & s' & Hk & Hp & Hv)]; [now left |].
      right. exists (S k), s'. split; [exact Hk |]. split; [| exact Hv].
      now replace (ss + Z.of_nat (S k) + numBlks)
        with (ss + 1 + Z.of_nat k + numBlks) by lia. }
    destruct (decide (blk ≠ par)) as [Hforeign | Hmine].
    + apply Hlater. eapply IH. exact Hn.
    + assert (Hblk : par = blk)
        by (destruct (decide (par = blk));
            [assumption | exfalso; apply Hmine; congruence]).
      subst par.
      assert (Hhere : forall v, v = blkLower s \/ v = blkUpper s ->
        exists (k : nat) (s' : split),
          (s :: later) !! k = Some s' /\
          ParentBlock decomp (ss + Z.of_nat k + numBlks) = Some blk /\
          (v = blkLower s' \/ v = blkUpper s')).
      { intros v Hv. exists 0%nat, s. split; [reflexivity |].
        split; [| exact Hv].
        now replace (ss + Z.of_nat 0 + numBlks) with (ss + numBlks) by lia. }
      destruct (vat blkDims (blkLower s)) as [lowDims |]; [| discriminate].
      cbn [mbind option_bind] in Hn.
      destruct (vat _ (blkUpper s)) as [upDims |]; [| discriminate].
      cbn [mbind option_bind] in Hn.
      destruct (negb (inExtents upDims ii jj kk)).
      * injection Hn as <-. right. apply Hhere. now left.
      * apply IH in Hn. destruct (Hlater _ Hn) as [-> | Hex].
        -- right. apply Hhere. now right.
        -- now right.
Qed.

(** X9.  Whatever the decomposition, the block number [SplitBlockNumber]
    returns is [blk] itself or the lower or upper block of a recorded split
    whose appended block has parent [blk]: the walk never steps into the
    lineage of another block. *)
Theorem SplitBlockNumber_stays_in_the_lineage {D}
    (vars : list (procBlock D)) (decomp : decomposition)
    (blk ii jj kk n : Z) :
  SplitBlockNumber vars decomp blk ii jj kk = Some n ->
  n = blk \/
  exists (k : nat) (s : split),
    splitHist decomp !! k = Some s /\
    ParentBlock decomp (Z.of_nat k + Z.of_nat (length vars)) = Some blk /\
    (n = blkLower s \/ n = blkUpper s).
Proof.
  unfold SplitBlockNumber. intros Hn.
  destruct (decide (NumSplits decomp = 0)); [left; congruence |].
  apply SplitBlockNumberLoop_names in Hn. exact Hn.
Qed.

Lemma SplitBlockNumber_stays_in_the_lineage_witness :
  1 = 0 \/
  exists (k : nat) (s : split),
    splitHist upperCutTwice !! k = Some s /\
    ParentBlock upperCutTwice
      (Z.of_nat k + Z.of_nat (length [boxBlock 10 1 1])) = Some 0 /\
    (1 = blkLower s \/ 1 = blkUpper s).
Proof.
  exact (SplitBlockNumber_stays_in_the_lineage
           [boxBlock 10 1 1] upperCutTwice 0 6 0 0 1 eq_refl).
Defined.

(** ** WriteRes *)

(** X10.  With an output frequency of zero [WriteRes] has no defined
    behaviour: the first line is written, then the number of time points is
    computed by an integer division by zero. *)
Theorem WriteRes_zero_frequency_is_undefined {D} (inp : input.t D)
    (iter : Z) (w : world D) :
  input.OutputFrequency inp = 0 ->
  WriteRes inp iter true w =
  (Undef,
   emitted OutFile w
     [Int (input.NumVarsOutput inp); Txt "     ";
      Int (if found (input.OutputVariables inp) "vel_x" &&
              found (input.OutputVariables inp) "vel_y" &&
              found (input.OutputVariables inp) "vel_z" then 1 else 0);
      Txt "     "; Int 0; Endl]).
Proof.
  intros Hzero. unfold WriteRes. cbn [negb]. rewrite pbind_pret.
  repeat rewrite pbind_put.
  unfold intDiv. rewrite Hzero. cbn [decide]. unfold pbind at 1, undef.
  destruct (decide (0 = 0)); [| lia].
  now rewrite !emitted_app.
Qed.

Lemma WriteRes_zero_frequency_is_undefined_witness :
  WriteRes (requestEvery ["density"] 0) 10 true emptyWorld =
  (Undef,
   emitted OutFile emptyWorld
     [Int 1; Txt "     "; Int 0; Txt "     "; Int 0; Endl]).
Proof.
  exact (WriteRes_zero_frequency_is_undefined
           (requestEvery ["density"] 0) 10 emptyWorld eq_refl).
Defined.

(** An operation whose result is in the range of [int]. *)
Lemma int_in_range {D} (z : Z) :
  INT_MIN <= z <= INT_MAX -> int (D := D) z = pret z.
Proof. intros Hz. unfold int. now destruct (decide _). Qed.

(** The loop over the solution times: before pass [ii] the running time is
    [ii] times the frequency and the counter is [ii + 1]. *)
Lemma WriteRes_times_run {D} (outFreq : Z) (n : nat) :
  forall (lo : Z) (w : world D),
    0 <= lo -> lo + Z.of_nat n < INT_MAX ->
    (forall k, lo < k <= lo + Z.of_nat n ->
       INT_MIN <= k * outFreq <= INT_MAX) ->
    forEach (rangeFrom lo (Z.of_nat n))
      (fun (ii : Z) '(solTime, count) =>
         solTime <~ int (solTime + outFreq) ;;
         (if decide (Z.rem count 10 = 0) then put OutFile Endl else pret tt) ;;
         put OutFile (Int solTime) ;; put OutFile (Txt "   ") ;;
         count <~ int (count + 1) ;;
         pret (solTime, count))
      (lo * outFreq, lo + 1) w
    = (Ok ((lo + Z.of_nat n) * outFreq, lo + Z.of_nat n + 1),
       emitted OutFile w
         (flat_map (fun ii =>
                      (if decide (Z.rem (ii + 1) 10 = 0) then [Endl] else [])
                      ++ [Int ((ii + 1) * outFreq); Txt "   "])
                   (rangeFrom lo (Z.of_nat n)))).
Proof.
  induction n as [| n IH]; intros lo w Hlo Hcount Htimes.
  - change (rangeFrom lo (Z.of_nat 0)) with (@nil Z).
    cbn [forEach flat_map]. unfold pret. rewrite emitted_nil.
    change (Z.of_nat 0) with 0. now rewrite !Z.add_0_r.
  - rewrite rangeFrom_S. cbn [forEach flat_map].
    assert (Hstate : lo * outFreq + outFreq = (lo + 1) * outFreq) by ring.
    rewrite (pbind_Ok _ _ w
               (emitted OutFile w
                  ((if decide (Z.rem (lo + 1) 10 = 0) then [Endl] else [])
                   ++ [Int ((lo + 1) * outFreq); Txt "   "]))
               ((lo + 1) * outFreq, lo + 1 + 1)).
    + rewrite IH, emitted_app.
      * do 2 f_equal. f_equal; lia.
      * lia.
      * lia.
      * intros k Hk. apply Htimes. lia.
    + rewrite Hstate.
      rewrite (int_in_range ((lo + 1) * outFreq)) by (apply Htimes; lia).
      rewrite (int_in_range (lo + 1 + 1)) by (unfold INT_MIN; lia).
      rewrite pbind_pret.
      destruct (decide (Z.rem (lo + 1) 10 = 0));
        repeat (rewrite pbind_assoc || rewrite pbind_put || rewrite pbind_pret);
        unfold pret; now rewrite ?emitted_app.
Qed.

Lemma indexOf_head (name : string) (rest : list string) :
  indexOf name (name :: rest) = 0.
Proof. cbn. destruct (decide (name = name)); [reflexivity | contradiction]. Qed.

Lemma indexOf_tail (name x : string) (rest : list string) :
  x <> name -> indexOf name (x :: rest) = 1 + indexOf name rest.
Proof. intros Hne. cbn. destruct (decide (x = name)); [contradiction | reflexivity]. Qed.

(** The loop over the scalars: the lines are numbered in the order of the
    request, and the index kept for a velocity component is the number of
    its line. *)
Lemma WriteRes_scalars_run {D} (writeName : string) (rest : list string) :
  forall (first : nat) (vi : vector3d Z) (w : world D),
    NoDup rest ->
    Z.of_nat (first + length rest) <= INT_MAX ->
    exists vi',
      forEach rest
        (fun var '(vectorIndices, nvar) =>
           put OutFile (Txt writeName) ;; put OutFile (Txt " F ") ;;
           put OutFile (Pad4 nvar) ;; put OutFile (Txt " ") ;;
           put OutFile (Txt var) ;; put OutFile (Txt newline) ;;
           let vectorIndices :=
             if decide (var = "vel_x") then SetX vectorIndices nvar
             else if decide (var = "vel_y") then SetY vectorIndices nvar
             else if decide (var = "vel_z") then SetZ vectorIndices nvar
             else vectorIndices in
           nvar <~ int (nvar + 1) ;;
           pret (vectorIndices, nvar))
        (vi, Z.of_nat first) w
      = (Ok (vi', Z.of_nat (first + length rest)),
         emitted OutFile w (resScalars writeName first rest)) /\
      (if decide ("vel_x" ∈ rest)
       then vX vi' = Z.of_nat first + indexOf "vel_x" rest
       else vX vi' = vX vi) /\
      (if decide ("vel_y" ∈ rest)
       then vY vi' = Z.of_nat first + indexOf "vel_y" rest
       else vY vi' = vY vi) /\
      (if decide ("vel_z" ∈ rest)
       then vZ vi' = Z.of_nat first + indexOf "vel_z" rest
       else vZ vi' = vZ vi).
Proof.
  induction rest as [| x rest IH]; intros first vi w Hnd Hlast.
  - exists vi. cbn [forEach length]. unfold pret, resScalars.
    cbn [imap concat]. rewrite emitted_nil, Nat.add_0_r.
    split; [reflexivity |].
    repeat split; (destruct (decide _) as [Hin |];
                   [now apply elem_of_nil in Hin | reflexivity]).
  - apply NoDup_cons in Hnd as [Hfresh Hnd].
    set (vi1 := if decide (x = "vel_x") then SetX vi (Z.of_nat first)
                else if decide (x = "vel_y") then SetY vi (Z.of_nat first)
                else if decide (x = "vel_z") then SetZ vi (Z.of_nat first)
                else vi).
    cbn [length] in Hlast.
    destruct (IH (S first) vi1
                (emitted OutFile w
                   [Txt writeName; Txt " F "; Pad4 (Z.of_nat first);
                    Txt " "; Txt x; Txt newline]) Hnd)
      as (vi' & Hrun & Hx & Hy & Hz); [lia |].
    exists vi'. split.
    + cbn [forEach]. etransitivity.
      { eapply pbind_Ok. cbv zeta.
        rewrite (int_in_range (Z.of_nat first + 1)) by (unfold INT_MIN; lia).
        repeat (rewrite pbind_assoc || rewrite pbind_put || rewrite pbind_pret).
        unfold pret. rewrite !emitted_app. cbn [app]. reflexivity. }
      fold vi1. replace (Z.of_nat first + 1) with (Z.of_nat (S first)) by lia.
      cbv zeta in Hrun |- *. rewrite Hrun, emitted_app.
      replace (first + length (x :: rest))%nat
        with (S first + length rest)%nat by (cbn [length]; lia).
      do 2 f_equal. unfold resScalars. cbn [imap concat].
      rewrite Nat.add_0_r. cbn [app]. do 6 f_equal.
      f_equal. apply imap_ext. intros n y _. cbn.
      do 3 f_equal. f_equal. lia.
    + assert (Hvi : forall name, x <> name ->
                 (name = "vel_x" -> vX vi1 = vX vi) /\
                 (name = "vel_y" -> vY vi1 = vY vi) /\
                 (name = "vel_z" -> vZ vi1 = vZ vi)).
      { intros name Hne. unfold vi1.
        repeat split; intros ->; repeat destruct (decide _);
          try contradiction; reflexivity. }
      assert (Hset : (x = "vel_x" -> vX vi1 = Z.of_nat first) /\
                     (x = "vel_y" -> vY vi1 = Z.of_nat first) /\
                     (x = "vel_z" -> vZ vi1 = Z.of_nat first)).
      { unfold vi1. repeat split; intros ->; reflexivity. }
      split; [| split].
      * revert Hx. destruct (decide ("vel_x" ∈ rest)) as [Hr | Hr]; intros Hx.
        -- destruct (decide ("vel_x" ∈ x :: rest)) as [_ | Hn];
             [| exfalso; apply Hn; now right].
           rewrite Hx, indexOf_tail by (intros ->; contradiction). lia.
        -- destruct (decide ("vel_x" ∈ x :: rest)) as [Hn | Hn].
           ++ apply elem_of_cons in Hn as [<- | Hn]; [| contradiction].
              rewrite Hx, indexOf_head, (proj1 Hset eq_refl). lia.
           ++ rewrite Hx. apply (Hvi "vel_x"); [| reflexivity].
              intros ->. apply Hn. left.
      * revert Hy. destruct (decide ("vel_y" ∈ rest)) as [Hr | Hr]; intros Hy.
        -- destruct (decide ("vel_y" ∈ x :: rest)) as [_ | Hn];
             [| exfalso; apply Hn; now right].
           rewrite Hy, indexOf_tail by (intros ->; contradiction). lia.
        -- destruct (decide ("vel_y" ∈ x :: rest)) as [Hn | Hn].
           ++ apply elem_of_cons in Hn as [<- | Hn]; [| contradiction].
              rewrite Hy, indexOf_head, (proj1 (proj2 Hset) eq_refl). lia.
           ++ rewrite Hy. apply (Hvi "vel_y"); [| reflexivity].
              intros ->. apply Hn. left.
      * revert Hz. destruct (decide ("vel_z" ∈ rest)) as [Hr | Hr]; intros Hz.
        -- destruct (decide ("vel_z" ∈ x :: rest)) as [_ | Hn];
             [| exfalso; apply Hn; now right].
           rewrite Hz, indexOf_tail by (intros ->; contradiction). lia.
        -- destruct (decide ("vel_z" ∈ x :: rest)) as [Hn | Hn].
           ++ apply elem_of_cons in Hn as [<- | Hn]; [| contradiction].
              rewrite Hz, indexOf_head, (proj2 (proj2 Hset) eq_refl). lia.
           ++ rewrite Hz. apply (Hvi "vel_z"); [| reflexivity].
              intros ->. apply Hn. left.
Qed.

(** X11.  When the file opens, the output frequency is not zero, no [int]
    that [WriteRes] computes leaves the range of [int] (the quotient
    iter / outFreq, the number of time points, the counter of the time
    points, every solution time and the number of a line) and the requested
    names are distinct (they come from a set), [WriteRes] ends normally and
    the file holds exactly: the number of scalars, the number of vectors (1
    when the three velocity components are all requested, else 0) and 0; the
    number of time points, iter / outFreq + 1; the multiples of the output
    frequency from the first on, with a line break before every tenth; the
    frequency twice; one F line per requested name, numbered from 0 in the
    order of the request and ended by a line feed; and, when the three
    velocity components are requested, an F line for the vector that
    carries the numbers of their three lines. *)
Theorem WriteRes_writes_the_results_file_layout {D} (inp : input.t D)
    (iter : Z) (w : world D) :
  input.OutputFrequency inp <> 0 ->
  INT_MIN <= Z.quot iter (input.OutputFrequency inp) ->
  Z.quot iter (input.OutputFrequency inp) + 1 < INT_MAX ->
  (forall k, 0 < k <= Z.quot iter (input.OutputFrequency inp) + 1 ->
     INT_MIN <= k * input.OutputFrequency inp <= INT_MAX) ->
  NoDup (input.OutputVariables inp) ->
  Z.of_nat (length (input.OutputVariables inp)) <= INT_MAX ->
  WriteRes inp iter true w =
  (Ok tt, emitted OutFile w (resFileLayout inp iter)).
Proof.
  intros Hfreq Hquot Hcount Htimes Hnd Hlines.
  unfold WriteRes, resFileLayout. cbv zeta.
  set (names := input.OutputVariables inp) in *.
  set (outFreq := input.OutputFrequency inp) in *.
  set (writeName := input.SimNameRoot inp +:+ "_*" +:+ "_center" +:+ ".fun").
  set (hasVel := found names "vel_x" && found names "vel_y"
                 && found names "vel_z").
  cbn [negb]. rewrite pbind_pret.
  repeat rewrite pbind_put.
  unfold intDiv. destruct (decide (outFreq = 0)); [contradiction |].
  rewrite (int_in_range (Z.quot iter outFreq)) by lia.
  rewrite pbind_pret.
  rewrite (int_in_range (Z.quot iter outFreq + 1)) by lia.
  rewrite pbind_pret. repeat rewrite pbind_put.
  set (numTime := Z.quot iter outFreq + 1) in *.
  pose proof (WriteRes_times_run (D := D) outFreq (Z.to_nat numTime) 0) as Ht.
  assert (Hrange : rangeFrom 0 (Z.of_nat (Z.to_nat numTime)) = range numTime).
  { unfold range, rangeFrom. now rewrite Nat2Z.id. }
  rewrite Hrange in Ht. change (0 * outFreq) with 0 in Ht.
  change (0 + 1) with 1 in Ht.
  rewrite (pbind_Ok _ _ _ _ _ (Ht _ ltac:(lia) ltac:(unfold INT_MAX in *; lia)
                                 ltac:(intros k Hk; apply Htimes; lia))).
  repeat rewrite pbind_put.
  match goal with
  | |- context [pbind (forEach names _ _) _ ?w1] =>
      destruct (WriteRes_scalars_run (D := D) writeName names 0
                  (Vector3d 0 0 0) w1 Hnd Hlines)
        as (vi' & Hs & Hx & Hy & Hz)
  end.
  change (Z.of_nat 0) with 0 in Hs.
  rewrite (pbind_Ok _ _ _ _ _ Hs). cbn [fst].
  unfold resTimes. fold hasVel.
  destruct hasVel eqn:Hvel.
  - apply andb_true_iff in Hvel as [Hvel Hvz].
    apply andb_true_iff in Hvel as [Hvx Hvy].
    apply bool_decide_eq_true in Hvx, Hvy, Hvz.
    destruct (decide ("vel_x" ∈ names)); [| contradiction].
    destruct (decide ("vel_y" ∈ names)); [| contradiction].
    destruct (decide ("vel_z" ∈ names)); [| contradiction].
    rewrite Hx, Hy, Hz. change (Z.of_nat 0) with 0. rewrite !Z.add_0_l.
    repeat rewrite pbind_put. rewrite put_run, !emitted_app.
    reflexivity.
  - unfold pret. rewrite !emitted_app, app_nil_r. reflexivity.
Qed.

Lemma WriteRes_writes_the_results_file_layout_witness :
  WriteRes (requestEvery ["sos"; "vel_x"; "vel_y"; "vel_z"] 10) 25 true
    emptyWorld =
  (Ok tt,
   emitted OutFile emptyWorld
     (resFileLayout (requestEvery ["sos"; "vel_x"; "vel_y"; "vel_z"] 10) 25)).
Proof.
  apply (WriteRes_writes_the_results_file_layout
           (requestEvery ["sos"; "vel_x"; "vel_y"; "vel_z"] 10) 25 emptyWorld).
  - discriminate.
  - discriminate.
  - reflexivity.
  - intros k Hk. change (0 < k <= 3) in Hk.
    change (INT_MIN <= k * 10 <= INT_MAX). unfold INT_MIN, INT_MAX. lia.
  - apply (bool_decide_unpack _). vm_compute. exact I.
  - discriminate.
Defined.

(** ** SplitBlockNumber: blocks that were never cut *)

Lemma SplitBlockNumberLoop_foreign (decomp : decomposition)
    (numBlks blk ii jj kk : Z) (hist : list split) :
  forall (ss : Z) (blkDims : list extents) (ind : Z),
    (forall (k : nat) (s : split), hist !! k = Some s ->
       exists p, ParentBlock decomp (ss + Z.of_nat k + numBlks) = Some p /\
                 p <> blk) ->
    SplitBlockNumberLoop decomp numBlks blk ii jj kk hist ss blkDims ind
      = Some ind.
Proof.
  induction hist as [| s later IH]; intros ss blkDims ind Hpar;
    [reflexivity |].
  cbn [SplitBlockNumberLoop].
  destruct (Hpar 0%nat s eq_refl) as (p & Hp & Hne).
  replace (ss + Z.of_nat 0 + numBlks) with (ss + numBlks) in Hp by lia.
  rewrite Hp. cbn [mbind option_bind].
  destruct (decide (blk ≠ p)) as [_ | Heq];
    [| exfalso; apply Heq; congruence].
  apply IH. intros k s' Hk.
  destruct (Hpar (S k) s' Hk) as (p' & Hp' & Hne').
  exists p'. split; [| exact Hne'].
  now replace (ss + 1 + Z.of_nat k + numBlks)
    with (ss + Z.of_nat (S k) + numBlks) by lia.
Qed.

(** X12.  A block none of whose descendants was appended by a split (every
    block appended by the history has another parent) keeps its number:
    [SplitBlockNumber] returns [blk] for every cell, without looking at the
    extents. *)
Theorem SplitBlockNumber_of_a_block_never_cut {D}
    (vars : list (procBlock D)) (decomp : decomposition)
    (blk ii jj kk : Z) :
  (forall (k : nat) (s : split), splitHist decomp !! k = Some s ->
     exists p,
       ParentBlock decomp (Z.of_nat k + Z.of_nat (length vars)) = Some p /\
       p <> blk) ->
  SplitBlockNumber vars decomp blk ii jj kk = Some blk.
Proof.
  intros Hpar. unfold SplitBlockNumber.
  destruct (decide (NumSplits decomp = 0)); [reflexivity |].
  apply SplitBlockNumberLoop_foreign. exact Hpar.
Qed.

Lemma SplitBlockNumber_of_a_block_never_cut_witness :
  SplitBlockNumber [boxBlock 10 1 1; boxBlock 4 4 4]
    (Decomposition [0; 1; 0; 0] [Split 0 2 5 "i"; Split 2 3 2 "i"])
    1 3 3 3 = Some 1.
Proof.
  apply (SplitBlockNumber_of_a_block_never_cut
           [boxBlock 10 1 1; boxBlock 4 4 4]
           (Decomposition [0; 1; 0; 0] [Split 0 2 5 "i"; Split 2 3 2 "i"])
           1 3 3 3).
  intros k s Hk. exists 0.
  destruct k as [| [| k]]; [split; [reflexivity | lia] .. | discriminate].
Defined.

(** ** The reference residual *)

Section ReferenceOverQ.
Context `{Macros Q}.

(** X13.  After the very first report the reference of an equation never
    decreases: every later call leaves it as it was or, at the first
    subiteration of the steps 1 to 4, raises it to the current residual of
    that equation. *)
Theorem reference_never_decreases (nn mm : Z) (residL2 first : genArray Q)
    (c : Z) :
  ~ (nn = 0 /\ mm = 0) ->
  (first c <= normalization nn mm residL2 first c)%Q /\
  (normalization nn mm residL2 first c = first c \/
   (nn < 5 /\ mm = 0 /\ 0 <= c < NUMVARS /\
    normalization nn mm residL2 first c = residL2 c)).
Proof.
  intros Hnot. rewrite normalization_unfold.
  destruct (decide (nn = 0 /\ mm = 0)); [contradiction |].
  destruct (decide (nn < 5 /\ mm = 0)) as [[Hnn Hmm] |].
  - destruct (decide (c ∈ range NUMVARS)) as [Hin | Hout].
    + destruct (raise_all_at residL2 (range NUMVARS) first c Hin)
        as (Hval & _ & Hold).
      split; [exact Hold |].
      destruct Hval as [Hv | Hv]; [right | now left].
      apply elem_of_range in Hin. tauto.
    + rewrite raise_all_other by exact Hout.
      split; [apply Qle_refl | now left].
  - split; [apply Qle_refl | now left].
Qed.
End ReferenceOverQ.

Lemma reference_never_decreases_witness :
  (5 <= normalization 2 0 (fun _ => 7%Q) (fun _ => 5%Q) 1%Z)%Q /\
  (normalization 2 0 (fun _ => 7%Q) (fun _ => 5%Q) 1%Z = 5%Q \/
   (2 < 5 /\ 0 = 0 /\ 0 <= 1 < NUMVARS /\
    normalization 2 0 (fun _ => 7%Q) (fun _ => 5%Q) 1%Z = 7%Q)).
Proof.
  apply (reference_never_decreases 2 0 (fun _ => 7%Q) (fun _ => 5%Q) 1).
  lia.
Defined.

(** ** The residual file over a run *)

Lemma lines_app {D} (a b : list (item D)) :
  lines (a ++ b) = lines a + lines b.
Proof. unfold lines. rewrite List.filter_app, length_app. lia. Qed.

Lemma lines_headerRow `{Double D} (inp : input.t D) :
  lines (headerRow inp) = 1.
Proof.
  unfold headerRow.
  destruct (dgtb (input.Dt inp) (dofZ 0)),
    (dgtb (input.CFL inp) (dofZ 0)), (input.IsTurbulent inp); reflexivity.
Qed.

Lemma lines_residualRow `{Double D} `{Macros D} (inp : input.t D)
    (nn mm : Z) (residL2 reference : genArray D) (residLinf : resid D)
    (matrixResid : D) :
  lines (residualRow inp nn mm residL2 reference residLinf matrixResid) = 1.
Proof.
  unfold residualRow, stepColumn, residualEquations.
  destruct (dgtb (input.Dt inp) (dofZ 0)),
    (dgtb (input.CFL inp) (dofZ 0)), (input.IsTurbulent inp); reflexivity.
Qed.

(** One report: a line on each stream, and before it the titles, in the
    file at the very first report and on the standard output at the first
    subiteration of every hundredth step. *)
Lemma WriteResiduals_lines `{Double D} `{Macros D} (inp : input.t D)
    (first residL2 : genArray D) (residLinf : resid D) (matrixResid : D)
    (nn mm : Z) (w : world D) :
  exists reference w',
    WriteResiduals inp first residL2 residLinf matrixResid nn mm w =
      (Ok reference, w') /\
    lines (outFile w') =
      lines (outFile w) + (if decide (nn = 0 /\ mm = 0) then 1 else 0) + 1 /\
    lines (cout w') =
      lines (cout w)
      + (if decide (Z.rem nn 100 = 0 /\ mm = 0) then 1 else 0) + 1 /\
    cerr w' = cerr w.
Proof.
  unfold WriteResiduals.
  assert (H1 : forall w1,
    (if decide (nn = 0 /\ mm = 0) then PrintHeaders inp OutFile else pret tt)
      w1 =
    (Ok tt,
     emitted OutFile w1
       (if decide (nn = 0 /\ mm = 0) then headerRow inp else []))).
  { intros w1. destruct (decide (nn = 0 /\ mm = 0));
      [apply PrintHeaders_headerRow |].
    unfold pret. now rewrite emitted_nil. }
  assert (H2 : forall w1,
    (if decide (Z.rem nn 100 = 0 /\ mm = 0) then PrintHeaders inp Cout
     else pret tt) w1 =
    (Ok tt,
     emitted Cout w1
       (if decide (Z.rem nn 100 = 0 /\ mm = 0) then headerRow inp else []))).
  { intros w1. destruct (decide (Z.rem nn 100 = 0 /\ mm = 0));
      [apply PrintHeaders_headerRow |].
    unfold pret. now rewrite emitted_nil. }
  rewrite (pbind_Ok _ _ _ _ _ (H1 w)).
  rewrite (pbind_Ok _ _ _ _ _ (H2 _)).
  rewrite (pbind_Ok _ _ _ _ _ (PrintResiduals_run _ _ _ _ _ _ _ _ _)).
  rewrite PrintResiduals_run.
  eexists _, _. split; [reflexivity |].
  destruct w as [f c e]. unfold emitted. cbn [outFile cout cerr].
  rewrite !lines_app, !lines_residualRow.
  repeat split.
  - destruct (decide (nn = 0 /\ mm = 0));
      [now rewrite lines_headerRow | reflexivity].
  - destruct (decide (Z.rem nn 100 = 0 /\ mm = 0));
      [now rewrite lines_headerRow | reflexivity].
Qed.

(** A loop over consecutive indices that keeps an invariant of the state
    and of the streams. *)
Lemma forEach_rangeFrom_streams {D St : Type}
    (I : Z -> St -> world D -> Prop) (body : Z -> St -> prog D St)
    (n : nat) :
  forall (lo : Z) (s : St) (w : world D),
    (forall i s w, lo <= i < lo + Z.of_nat n -> I i s w ->
       exists s' w', body i s w = (Ok s', w') /\ I (i + 1) s' w') ->
    I lo s w ->
    exists s' w',
      forEach (rangeFrom lo (Z.of_nat n)) body s w = (Ok s', w') /\
      I (lo + Z.of_nat n) s' w'.
Proof.
  induction n as [| n IH]; intros lo s w Hbody HI.
  - exists s, w. split; [reflexivity |]. now rewrite Z.add_0_r.
  - rewrite rangeFrom_S. cbn [forEach].
    destruct (Hbody lo s w ltac:(lia) HI) as (s1 & w1 & Hrun & HI1).
    destruct (IH (lo + 1) s1 w1) as (s2 & w2 & Hloop & HI2).
    + intros i s' w' Hi. apply Hbody. lia.
    + exact HI1.
    + exists s2, w2. rewrite (pbind_Ok _ _ _ _ _ Hrun). split; [exact Hloop |].
      now replace (lo + Z.of_nat (S n)) with (lo + 1 + Z.of_nat n) by lia.
Qed.

Lemma reportSubiterations_lines `{Double D} `{Macros D} (inp : input.t D)
    (tr : solverTrace D) (nonlinear n : Z) (count : nat)
    (first : genArray D) (w0 w : world D) :
  0 <= n -> linesBefore nonlinear w0 n 0 w ->
  exists first' w',
    reportSubiterations inp tr n (Z.of_nat count) first w = (Ok first', w') /\
    linesBefore nonlinear w0 n (Z.of_nat count) w'.
Proof.
  intros Hn Hpre. unfold reportSubiterations, range.
  destruct (forEach_rangeFrom_streams
              (fun m (_ : genArray D) w => linesBefore nonlinear w0 n m w)
              (fun mm first =>
                 WriteResiduals inp first (traceL2 tr n mm) (traceLinf tr n mm)
                   (traceMatrix tr n mm) n mm) count 0 first w)
    as (s' & w' & Hrun & HI); [| exact Hpre | now exists s', w'].
  intros i s w1 Hi (Hf & Hc & He).
  destruct (WriteResiduals_lines inp s (traceL2 tr n i) (traceLinf tr n i)
              (traceMatrix tr n i) n i w1) as (r & w2 & Hw & Hf2 & Hc2 & He2).
  exists r, w2. split; [exact Hw |].
  unfold linesBefore. rewrite Hf2, Hc2, He2, Hf, Hc, He.
  assert (Hrem : Z.rem n 100 = n mod 100) by (apply Z.rem_mod_nonneg; lia).
  rewrite Hrem.
  repeat split.
  - destruct (decide (n = 0 /\ i = 0)), (decide (n = 0 /\ i + 1 = 0)); lia.
  - destruct (decide (n mod 100 = 0 /\ i = 0)), (decide (i = 0)),
      (decide (i + 1 = 0)); try lia; Z.div_mod_to_equations; lia.
Qed.

Lemma reportSteps_lines `{Double D} `{Macros D} (inp : input.t D)
    (tr : solverTrace D) (nonlinear : Z) (steps : nat)
    (first : genArray D) (w : world D) :
  0 < nonlinear ->
  exists first' w',
    reportSteps inp tr nonlinear (Z.of_nat steps) first w = (Ok first', w') /\
    linesBefore nonlinear w (Z.of_nat steps) 0 w'.
Proof.
  intros Hnl. unfold reportSteps, range.
  destruct (forEach_rangeFrom_streams
              (fun n (_ : genArray D) w' => linesBefore nonlinear w n 0 w')
              (fun nn first => reportSubiterations inp tr nn nonlinear first)
              steps 0 first w)
    as (s' & w' & Hrun & HI); [| | now exists s', w'].
  - intros i s w1 Hi HIi.
    destruct (reportSubiterations_lines inp tr nonlinear i
                (Z.to_nat nonlinear) s w w1)
      as (s1 & w2 & Hrun & Hf & Hc & He); [lia | exact HIi |].
    rewrite Z2Nat.id in Hrun, Hf, Hc by lia.
    exists s1, w2. split; [exact Hrun |].
    unfold linesBefore. rewrite Hf, Hc, He.
    destruct (decide (nonlinear = 0)); [lia |].
    destruct (decide (0 = 0)); [| lia].
    repeat split.
    + destruct (decide (i = 0 /\ nonlinear = 0)),
        (decide (i + 1 = 0 /\ 0 = 0)); lia.
    + Z.div_mod_to_equations; lia.
  - unfold linesBefore.
    destruct (decide (0 = 0 /\ 0 = 0)); [| lia].
    destruct (decide (0 = 0)); [| lia].
    change ((0 + 99) / 100) with 0. repeat split; lia.
Qed.

(** X14.  In a run of [nonlinear] subiterations per step, when the report of
    step [n], subiteration [m] has been made the residual file has grown by
    the line of titles and one line for every report, [n * nonlinear + m + 1]
    of them; the standard output has one line for every report too and the
    titles [n / 100 + 1] times; nothing went to the error stream. *)
Theorem run_writes_titles_once_and_a_line_per_report `{Double D} `{Macros D}
    (inp : input.t D) (tr : solverTrace D) (nonlinear n m : Z)
    (first0 : genArray D) (w : world D) :
  0 <= n -> 0 <= m < nonlinear ->
  exists reference w',
    reportUpTo inp tr nonlinear n m first0 w = (Ok reference, w') /\
    lines (outFile w') = lines (outFile w) + 1 + (n * nonlinear + m + 1) /\
    lines (cout w') =
      lines (cout w) + (n / 100 + 1) + (n * nonlinear + m + 1) /\
    cerr w' = cerr w.
Proof.
  intros Hn Hm. unfold reportUpTo.
  destruct (reportSteps_lines inp tr nonlinear (Z.to_nat n) first0 w)
    as (s0 & w0 & Hsteps & Hbefore); [lia |].
  rewrite Z2Nat.id in Hsteps, Hbefore by lia.
  rewrite (pbind_Ok _ _ _ _ _ Hsteps).
  destruct (reportSubiterations_lines inp tr nonlinear n
              (Z.to_nat (m + 1)) s0 w w0)
    as (s1 & w1 & Hsub & Hf & Hc & He); [lia | exact Hbefore |].
  rewrite Z2Nat.id in Hsub, Hf, Hc by lia.
  exists s1, w1. split; [exact Hsub |].
  rewrite Hf, Hc, He.
  destruct (decide (n = 0 /\ m + 1 = 0)); [lia |].
  destruct (decide (m + 1 = 0)); [lia |].
  repeat split; lia.
Qed.

Lemma run_writes_titles_once_and_a_line_per_report_witness :
  exists reference w',
    reportUpTo (requestOf [] 1) {| traceL2 := fun _ _ _ => 1%Q;
         traceLinf := fun _ _ =>
           {| Linf := 0%Q; Block := 0; ILoc := 0; JLoc := 0; KLoc := 0;
              Eqn := 0 |};
         traceMatrix := fun _ _ => 0%Q |}
      2 1 0 (fun _ => 0%Q) emptyWorld = (Ok reference, w') /\
    lines (outFile w') =
      lines (outFile (emptyWorld (D := Q))) + 1 + (1 * 2 + 0 + 1) /\
    lines (cout w') =
      lines (cout (emptyWorld (D := Q))) + (1 / 100 + 1) + (1 * 2 + 0 + 1) /\
    cerr w' = cerr (emptyWorld (D := Q)).
Proof.
  apply (run_writes_titles_once_and_a_line_per_report (requestOf [] 1)
           {| traceL2 := fun _ _ _ => 1%Q;
         traceLinf := fun _ _ =>
           {| Linf := 0%Q; Block := 0; ILoc := 0; JLoc := 0; KLoc := 0;
              Eqn := 0 |};
         traceMatrix := fun _ _ => 0%Q |}
           2 1 0 (fun _ => 0%Q) emptyWorld); lia.
Defined.
